(** * aiochsa: the response decoder of [aiochsa/parser.py]

    A shallow embedding of [parse_type], [TypeTransformer] and the
    asynchronous generator [parse_json_compact], together with the parts of
    their environment that they call into: Python's [json] decoder with its
    [parse_float] hook, lark's bottom-up [Transformer], the [StreamReader]
    whose body is read, and the type registry.  Python values are one
    universe ([pyval]); exceptions are values of [exn]; a computation that
    may raise returns a [result].

    Three files the decoder depends on are not among the sources at hand:
    the grammar [type.lark], the registry and type classes of [types.py],
    and [Record] of [record.py].  What is needed of them is modelled from
    the specification, and said to be so where it is defined. *)

From Stdlib Require Import ZArith NArith List String Ascii Lia Bool SpecFloat.
From Stdlib Require Decimal DecimalString DecimalFacts DecimalPos.
From stdpp Require Import base option list strings gmap.

Set Warnings "-register-all".
Local Open Scope string_scope.
Local Open Scope list_scope.

(** ** Exceptions and results *)

Inductive exn : Type :=
| JSONDecodeError (msg : string)
| UnexpectedInput (msg : string)
| KeyError (key : string)
| TypeError (msg : string)
| AttributeError (attr : string)
| ValueError (msg : string).

Inductive result (A : Type) : Type :=
| Ok (a : A)
| Raise (e : exn).

Arguments Ok {A} a.
Arguments Raise {A} e.

Definition rbind {A B : Type} (r : result A) (k : A -> result B) : result B :=
  match r with
  | Ok a => k a
  | Raise e => Raise e
  end.

Notation "'try!' x <- r ; k" := (rbind r (fun x => k))
  (at level 10, x pattern, r at level 100, k at level 200).

Definition is_ok {A : Type} (r : result A) : bool :=
  match r with Ok _ => true | Raise _ => false end.

(** ** Python values

    One universe for the values [json.loads] builds and for the native
    values converters return.  [PFloat] is a binary double; [PTuple] and
    [PDecimal] only arise as converter results. *)

Inductive pyval : Type :=
| PNone
| PBool (b : bool)
| PInt (n : Z)
| PFloat (f : spec_float)
| PStr (s : string)
| PList (items : list pyval)
| PDict (pairs : list (string * pyval))
| PTuple (items : list pyval)
| PDecimal (unscaled : Z) (scale : nat).

(** [d[k] = v] on an insertion-ordered dict: an existing key keeps its
    position and takes the new value. *)
Fixpoint dict_set (k : string) (v : pyval) (d : list (string * pyval))
  : list (string * pyval) :=
  match d with
  | [] => [(k, v)]
  | (k', v') :: d' =>
      if String.eqb k k' then (k, v) :: d' else (k', v') :: dict_set k v d'
  end.

Fixpoint dict_get (k : string) (d : list (string * pyval)) : option pyval :=
  match d with
  | [] => None
  | (k', v') :: d' => if String.eqb k k' then Some v' else dict_get k d'
  end.

(** [dict(pairs)]: later pairs override earlier ones. *)
Definition dict_of_pairs (pairs : list (string * pyval)) : list (string * pyval) :=
  fold_left (fun d kv => dict_set (fst kv) (snd kv) d) pairs [].

(** [obj[key]] for a string key. *)
Definition getitem (obj : pyval) (key : string) : result pyval :=
  match obj with
  | PDict d =>
      match dict_get key d with
      | Some v => Ok v
      | None => Raise (KeyError key)
      end
  | PList _ | PTuple _ => Raise (TypeError "list indices must be integers or slices, not str")
  | PStr _ => Raise (TypeError "string indices must be integers")
  | _ => Raise (TypeError "object is not subscriptable")
  end.

(** The characters of a [str], whose text a [string] holds as UTF-8 bytes:
    a byte that starts a character, with the continuation bytes (the bytes
    from 128 to 191) that follow it. *)
Definition is_continuation (c : ascii) : bool :=
  let n := N_of_ascii c in ((128 <=? n) && (n <? 192))%N.

Fixpoint code_points (s : string) : list string :=
  match s with
  | EmptyString => []
  | String c s' =>
      let starts_inside :=
        match s' with
        | String d _ => is_continuation d
        | EmptyString => false
        end in
      match code_points s' with
      | p :: ps =>
          if starts_inside then String c p :: ps
          else String c EmptyString :: p :: ps
      | [] => [String c EmptyString]
      end
  end.

Definition chars_of (s : string) : list pyval := map PStr (code_points s).

(** [iter(obj)] run to exhaustion: what a [for] loop or [zip] walks over. *)
Definition py_iter (obj : pyval) : result (list pyval) :=
  match obj with
  | PList l | PTuple l => Ok l
  | PDict d => Ok (map (fun kv => PStr (fst kv)) d)
  | PStr s => Ok (chars_of s)
  | _ => Raise (TypeError "object is not iterable")
  end.

(** ** Python's [json] decoder

    [json.loads(body, parse_float=...)] in two stages: the scanner
    ([scan_once] with the loops [array_items] of [JSONArray] and
    [object_pairs] of [JSONObject], [py_scanstring], the number pattern
    [match_number]) recognises the document and keeps every number as the
    text it matched; [make] then builds the Python value, handing each
    number's text to the [parse_float] hook or to [int].

    The model covers the bodies a server sends and says nothing of others:
    the body is UTF-8 text without a byte order mark (given other bytes
    [json.loads] guesses UTF-16 or UTF-32 from the first four, and decoding
    may raise [UnicodeDecodeError]; a decoded byte order mark is refused);
    arrays and objects are nested less deeply than the interpreter's
    recursion limit (beyond it the scanner raises [RecursionError]); and an
    integer literal has no more digits than [int] accepts (beyond them
    [int] raises [ValueError]).  Within these bounds the errors of [loads]
    are [JSONDecodeError]s, as here.  A [string] holds the bytes of the
    text. *)

Module Json.

Inductive json : Type :=
| JNull
| JTrue
| JFalse
| JNumber (integer frac exp : string)
| JConstant (name : string)
| JString (s : string)
| JArray (items : list json)
| JObject (pairs : list (string * json)).

Definition dquote : ascii := "034"%char.
Definition backslash : ascii := "092"%char.

Definition is_ws (c : ascii) : bool :=
  (c =? " ")%char || (c =? "009")%char || (c =? "010")%char || (c =? "013")%char.

Fixpoint skip_ws (s : string) : string :=
  match s with
  | String c s' => if is_ws c then skip_ws s' else s
  | EmptyString => s
  end.

Definition is_digit (c : ascii) : bool :=
  let n := N_of_ascii c in ((48 <=? n) && (n <=? 57))%N.

Fixpoint span_digits (s : string) : string * string :=
  match s with
  | String c s' =>
      if is_digit c
      then let (ds, r) := span_digits s' in (String c ds, r)
      else (EmptyString, s)
  | EmptyString => (EmptyString, EmptyString)
  end.

Definition nonempty (s : string) : bool :=
  match s with EmptyString => false | String _ _ => true end.

(** The integer group: an optional minus, then 0 or a digit run that does
    not start with 0. *)
Definition match_integer (s : string) : option (string * string) :=
  let (sign, s1) :=
    match s with
    | String c r => if (c =? "-")%char then ("-", r) else ("", s)
    | EmptyString => ("", s)
    end in
  match s1 with
  | String c r =>
      if (c =? "0")%char then Some (sign +:+ "0", r)
      else if is_digit c
           then let (ds, r') := span_digits r in Some (sign +:+ String c ds, r')
           else None
  | EmptyString => None
  end.

(** The optional fraction group: a dot and at least one digit. *)
Definition match_frac (s : string) : string * string :=
  match s with
  | String c r =>
      if (c =? ".")%char
      then let (ds, r') := span_digits r in
           if nonempty ds then (String c ds, r') else ("", s)
      else ("", s)
  | EmptyString => ("", s)
  end.

(** The optional exponent group: e or E, an optional sign, at least one
    digit. *)
Definition match_exp (s : string) : string * string :=
  match s with
  | String c r =>
      if ((c =? "e") || (c =? "E"))%char
      then
        let (sign, r1) :=
          match r with
          | String g r0 =>
              if ((g =? "-") || (g =? "+"))%char
              then (String g "", r0) else ("", r)
          | EmptyString => ("", r)
          end in
        let (ds, r2) := span_digits r1 in
        if nonempty ds then (String c (sign +:+ ds), r2) else ("", s)
      else ("", s)
  | EmptyString => ("", s)
  end.

(** [NUMBER_RE.match]: the three groups and the unread rest. *)
Definition match_number (s : string) : option (string * string * string * string) :=
  match match_integer s with
  | None => None
  | Some (integer, r) =>
      let (frac, r1) := match_frac r in
      let (exp, r2) := match_exp r1 in
      Some (integer, frac, exp, r2)
  end.

Fixpoint strip_prefix (p s : string) : option string :=
  match p with
  | EmptyString => Some s
  | String a p' =>
      match s with
      | String b s' => if (a =? b)%char then strip_prefix p' s' else None
      | EmptyString => None
      end
  end.

Definition hex_val (c : ascii) : option N :=
  let n := N_of_ascii c in
  (if (48 <=? n) && (n <=? 57) then Some (n - 48)
   else if (65 <=? n) && (n <=? 70) then Some (n - 55)
   else if (97 <=? n) && (n <=? 102) then Some (n - 87)
   else None)%N.

Definition decode_uXXXX (s : string) : option (N * string) :=
  match s with
  | String a (String b (String c (String d r))) =>
      match hex_val a, hex_val b, hex_val c, hex_val d with
      | Some x, Some y, Some z, Some w => Some ((((x * 16 + y) * 16 + z) * 16 + w)%N, r)
      | _, _, _, _ => None
      end
  | _ => None
  end.

Definition byte (n : N) : string := String (ascii_of_N n) EmptyString.

(** The UTF-8 bytes of a code point. *)
Definition utf8_encode (n : N) : string :=
  (if n <? 128 then byte n
   else if n <? 2048 then
     byte (192 + n / 64) +:+ byte (128 + n mod 64)
   else if n <? 65536 then
     byte (224 + n / 4096) +:+ byte (128 + (n / 64) mod 64) +:+ byte (128 + n mod 64)
   else
     byte (240 + n / 262144) +:+ byte (128 + (n / 4096) mod 64)
       +:+ byte (128 + (n / 64) mod 64) +:+ byte (128 + n mod 64))%N.

Definition simple_escape (e : ascii) : option ascii :=
  if (e =? dquote)%char then Some dquote
  else if (e =? backslash)%char then Some backslash
  else if (e =? "/")%char then Some "/"%char
  else if (e =? "b")%char then Some "008"%char
  else if (e =? "f")%char then Some "012"%char
  else if (e =? "n")%char then Some "010"%char
  else if (e =? "r")%char then Some "013"%char
  else if (e =? "t")%char then Some "009"%char
  else None.

(** What follows a backslash inside a string. *)
Definition scan_escape (r : string) : result (string * string) :=
  match r with
  | EmptyString => Raise (JSONDecodeError "Unterminated string starting at")
  | String e r1 =>
      if (e =? "u")%char then
        match decode_uXXXX r1 with
        | None => Raise (JSONDecodeError "Invalid \uXXXX escape")
        | Some (uni, r2) =>
            if ((55296 <=? uni) && (uni <=? 56319))%N then
              match r2 with
              | String b (String u r3) =>
                  if ((b =? backslash) && (u =? "u"))%char then
                    match decode_uXXXX r3 with
                    | None => Raise (JSONDecodeError "Invalid \uXXXX escape")
                    | Some (uni2, r4) =>
                        if ((56320 <=? uni2) && (uni2 <=? 57343))%N
                        then Ok (utf8_encode (65536 + (uni - 55296) * 1024 + (uni2 - 56320))%N, r4)
                        else Ok (utf8_encode uni, r2)
                    end
                  else Ok (utf8_encode uni, r2)
              | _ => Ok (utf8_encode uni, r2)
              end
            else Ok (utf8_encode uni, r2)
        end
      else
        match simple_escape e with
        | Some c => Ok (String c EmptyString, r1)
        | None => Raise (JSONDecodeError "Invalid \escape")
        end
  end.

(** [scanstring] in strict mode, started after the opening quote. *)
Fixpoint py_scanstring (fuel : nat) (s : string) : result (string * string) :=
  match fuel with
  | O => Raise (JSONDecodeError "Unterminated string starting at")
  | S fuel' =>
      match s with
      | EmptyString => Raise (JSONDecodeError "Unterminated string starting at")
      | String c r =>
          if (c =? dquote)%char then Ok (EmptyString, r)
          else if (c =? backslash)%char then
            try! (chunk, r') <- scan_escape r ;
            try! (tail, rest) <- py_scanstring fuel' r' ;
            Ok (chunk +:+ tail, rest)
          else if (N_of_ascii c <? 32)%N
          then Raise (JSONDecodeError "Invalid control character at")
          else
            try! (tail, rest) <- py_scanstring fuel' r ;
            Ok (String c tail, rest)
      end
  end.

Definition scanstring (s : string) : result (string * string) :=
  py_scanstring (S (String.length s)) s.

(** The values [scan_once] recognises without recursion: the three
    literals, a number, kept as the three groups of text it matched, and
    the three constants. *)
Definition scan_atom (s : string) : result (json * string) :=
  match strip_prefix "null" s with
  | Some rest => Ok (JNull, rest)
  | None =>
  match strip_prefix "true" s with
  | Some rest => Ok (JTrue, rest)
  | None =>
  match strip_prefix "false" s with
  | Some rest => Ok (JFalse, rest)
  | None =>
  match match_number s with
  | Some (integer, frac, exp, rest) => Ok (JNumber integer frac exp, rest)
  | None =>
  match strip_prefix "NaN" s with
  | Some rest => Ok (JConstant "NaN", rest)
  | None =>
  match strip_prefix "Infinity" s with
  | Some rest => Ok (JConstant "Infinity", rest)
  | None =>
  match strip_prefix "-Infinity" s with
  | Some rest => Ok (JConstant "-Infinity", rest)
  | None => Raise (JSONDecodeError "Expecting value")
  end end end end end end end.

(** [scan_once] with the array and object loops of [JSONArray] and
    [JSONObject].  [fuel] bounds the calls; [decode] supplies more than the
    text can use. *)
Fixpoint scan_once (fuel : nat) (s : string) {struct fuel} : result (json * string) :=
  match fuel with
  | O => Raise (JSONDecodeError "Expecting value")
  | S fuel' =>
      match s with
      | EmptyString => Raise (JSONDecodeError "Expecting value")
      | String c r =>
          if (c =? dquote)%char then
            try! (str, rest) <- scanstring r ;
            Ok (JString str, rest)
          else if (c =? "{")%char then
            match skip_ws r with
            | String c1 r1 =>
                if (c1 =? "}")%char then Ok (JObject [], r1)
                else if (c1 =? dquote)%char then
                  try! (pairs, rest) <- object_pairs fuel' r1 ;
                  Ok (JObject pairs, rest)
                else Raise (JSONDecodeError "Expecting property name enclosed in double quotes")
            | EmptyString =>
                Raise (JSONDecodeError "Expecting property name enclosed in double quotes")
            end
          else if (c =? "[")%char then
            match skip_ws r with
            | String c1 r1 =>
                if (c1 =? "]")%char then Ok (JArray [], r1)
                else
                  try! (items, rest) <- array_items fuel' (String c1 r1) ;
                  Ok (JArray items, rest)
            | EmptyString => Raise (JSONDecodeError "Expecting value")
            end
          else scan_atom s
      end
  end

(** The loop of [JSONArray], entered at the first character of a value. *)
with array_items (fuel : nat) (s : string) {struct fuel} : result (list json * string) :=
  match fuel with
  | O => Raise (JSONDecodeError "Expecting value")
  | S fuel' =>
      try! (value, r) <- scan_once fuel' s ;
      match skip_ws r with
      | String c r1 =>
          if (c =? "]")%char then Ok ([value], r1)
          else if (c =? ",")%char then
            try! (values, rest) <- array_items fuel' (skip_ws r1) ;
            Ok (value :: values, rest)
          else Raise (JSONDecodeError "Expecting ',' delimiter")
      | EmptyString => Raise (JSONDecodeError "Expecting ',' delimiter")
      end
  end

(** The loop of [JSONObject], entered after the opening quote of a key. *)
with object_pairs (fuel : nat) (s : string) {struct fuel}
  : result (list (string * json) * string) :=
  match fuel with
  | O => Raise (JSONDecodeError "Expecting value")
  | S fuel' =>
      try! (key, r) <- scanstring s ;
      match skip_ws r with
      | String c r1 =>
          if (c =? ":")%char then
            try! (value, r2) <- scan_once fuel' (skip_ws r1) ;
            match skip_ws r2 with
            | String c2 r3 =>
                if (c2 =? "}")%char then Ok ([(key, value)], r3)
                else if (c2 =? ",")%char then
                  match skip_ws r3 with
                  | String c3 r4 =>
                      if (c3 =? dquote)%char then
                        try! (pairs, rest) <- object_pairs fuel' r4 ;
                        Ok ((key, value) :: pairs, rest)
                      else Raise (JSONDecodeError
                                    "Expecting property name enclosed in double quotes")
                  | EmptyString =>
                      Raise (JSONDecodeError
                               "Expecting property name enclosed in double quotes")
                  end
                else Raise (JSONDecodeError "Expecting ',' delimiter")
            | EmptyString => Raise (JSONDecodeError "Expecting ',' delimiter")
            end
          else Raise (JSONDecodeError "Expecting ':' delimiter")
      | EmptyString => Raise (JSONDecodeError "Expecting ':' delimiter")
      end
  end.

(** [JSONDecoder.decode]: one value between optional white space, and
    nothing after it. *)
Definition decode (s : string) : result json :=
  let s0 := skip_ws s in
  try! (obj, rest) <- scan_once (2 * String.length s0 + 2) s0 ;
  match skip_ws rest with
  | EmptyString => Ok obj
  | String _ _ => Raise (JSONDecodeError "Extra data")
  end.

(** [int(text)] on the text of an integer group. *)
Fixpoint digits_value (acc : Z) (s : string) : Z :=
  match s with
  | EmptyString => acc
  | String c s' => digits_value (10 * acc + Z.of_N (N_of_ascii c - 48)) s'
  end.

Definition py_int (integer : string) : pyval :=
  match integer with
  | String c r =>
      if (c =? "-")%char then PInt (- digits_value 0 r)
      else PInt (digits_value 0 integer)
  | EmptyString => PInt 0
  end.

(** The default [parse_constant]. *)
Definition py_constant (name : string) : pyval :=
  if String.eqb name "NaN" then PFloat S754_nan
  else if String.eqb name "Infinity" then PFloat (S754_infinity false)
  else PFloat (S754_infinity true).

Section Hooks.

Variable parse_float : string -> pyval.

(** The value built for a scanned document: a number with a fraction or
    an exponent goes to [parse_float] as the text it matched, any other
    number to [int]. *)
Fixpoint make (j : json) : pyval :=
  match j with
  | JNull => PNone
  | JTrue => PBool true
  | JFalse => PBool false
  | JNumber integer frac exp =>
      if nonempty frac || nonempty exp
      then parse_float (integer +:+ frac +:+ exp)
      else py_int integer
  | JConstant name => py_constant name
  | JString s => PStr s
  | JArray items => PList (map make items)
  | JObject pairs =>
      PDict (dict_of_pairs (map (fun '(k, v) => (k, make v)) pairs))
  end.

Definition loads (body : string) : result pyval :=
  try! j <- decode body ;
  Ok (make j).

End Hooks.

End Json.

(** ** lark parse trees *)

Inductive tree : Type :=
| Token (type_ : string) (value : string)
| Tree (data : string) (children : list tree).

(** ** The type grammar

    Modelled from the spec: the grammar file [type.lark] that [type_parser]
    is built from is not among the sources.  The spec gives

      type_expr := IDENT ( "(" arg ("," arg)* ")" )?
      arg       := type_expr | literal
      literal   := STRING | INT | STRING "=" INT

    with white space between tokens insignificant.  A bare identifier is a
    [simple_type] node and an identifier with arguments a [composite_type]
    node, the two rules [TypeTransformer] has callbacks for; punctuation is
    not kept in the tree, as lark filters anonymous tokens. *)

Module TypeGrammar.

Inductive tok : Type :=
| TIdent (s : string)
| TInt (s : string)
| TString (s : string)
| TLPar
| TRPar
| TComma
| TEq.

Definition is_space (c : ascii) : bool :=
  let n := N_of_ascii c in
  ((n =? 32) || (n =? 9) || (n =? 10) || (n =? 12) || (n =? 13))%N.

Definition is_alpha (c : ascii) : bool :=
  let n := N_of_ascii c in
  (((65 <=? n) && (n <=? 90)) || ((97 <=? n) && (n <=? 122)) || (n =? 95))%N.

Definition is_digit (c : ascii) : bool :=
  let n := N_of_ascii c in ((48 <=? n) && (n <=? 57))%N.

Fixpoint span (p : ascii -> bool) (s : string) : string * string :=
  match s with
  | String c s' =>
      if p c then let (pre, r) := span p s' in (String c pre, r)
      else (EmptyString, s)
  | EmptyString => (EmptyString, EmptyString)
  end.

Definition quote : ascii := "039"%char.
Definition backslash : ascii := "092"%char.

Definition is_escape (e : ascii) : bool :=
  ((e =? backslash) || (e =? quote) || (e =? "t") || (e =? "n") || (e =? "0"))%char.

(** The body of a quoted string up to its closing quote, escapes kept as
    written (a lark token holds the matched text). *)
Fixpoint lex_string (s : string) : option (string * string) :=
  match s with
  | EmptyString => None
  | String c r =>
      if (c =? quote)%char then Some (EmptyString, r)
      else if (c =? backslash)%char then
        match r with
        | String e r' =>
            if is_escape e then
              match lex_string r' with
              | Some (body, rest) => Some (String c (String e body), rest)
              | None => None
              end
            else None
        | EmptyString => None
        end
      else
        match lex_string r with
        | Some (body, rest) => Some (String c body, rest)
        | None => None
        end
  end.

Fixpoint lex (fuel : nat) (s : string) : result (list tok) :=
  match fuel with
  | O => Raise (UnexpectedInput "No terminal matches")
  | S fuel' =>
      match s with
      | EmptyString => Ok []
      | String c r =>
          if is_space c then lex fuel' r
          else if (c =? "(")%char then try! ts <- lex fuel' r ; Ok (TLPar :: ts)
          else if (c =? ")")%char then try! ts <- lex fuel' r ; Ok (TRPar :: ts)
          else if (c =? ",")%char then try! ts <- lex fuel' r ; Ok (TComma :: ts)
          else if (c =? "=")%char then try! ts <- lex fuel' r ; Ok (TEq :: ts)
          else if (c =? quote)%char then
            match lex_string r with
            | Some (body, rest) =>
                try! ts <- lex fuel' rest ;
                Ok (TString (String quote body +:+ String quote EmptyString) :: ts)
            | None => Raise (UnexpectedInput "No terminal matches")
            end
          else if is_alpha c then
            let (name, rest) := span (fun a => is_alpha a || is_digit a) r in
            try! ts <- lex fuel' rest ;
            Ok (TIdent (String c name) :: ts)
          else if is_digit c then
            let (ds, rest) := span is_digit r in
            try! ts <- lex fuel' rest ;
            Ok (TInt (String c ds) :: ts)
          else if ((c =? "-") || (c =? "+"))%char then
            match span is_digit r with
            | (String d ds, rest) =>
                try! ts <- lex fuel' rest ;
                Ok (TInt (String c (String d ds)) :: ts)
            | (EmptyString, _) => Raise (UnexpectedInput "No terminal matches")
            end
          else Raise (UnexpectedInput "No terminal matches")
      end
  end.

Definition simple_node (name : string) : tree :=
  Tree "simple_type" [Token "IDENT" name].

Definition composite_node (name : string) (args : list tree) : tree :=
  Tree "composite_type" (Token "IDENT" name :: args).

Definition pair_node (label ordinal : string) : tree :=
  Tree "enum_pair" [Token "STRING" label; Token "INT" ordinal].

(** The grammar as a derivation relation: [derives n input nodes rest]
    holds when a prefix of [input] derives from nonterminal [n], yields
    [nodes] and leaves [rest]. *)
Inductive nonterminal : Type := NType | NArg | NArgs.

Inductive derives : nonterminal -> list tok -> list tree -> list tok -> Prop :=
| D_simple name rest :
    derives NType (TIdent name :: rest) [simple_node name] rest
| D_composite name input args rest :
    derives NArgs input args (TRPar :: rest) ->
    derives NType (TIdent name :: TLPar :: input) [composite_node name args] rest
| D_arg_type input node rest :
    derives NType input node rest ->
    derives NArg input node rest
| D_arg_int n rest :
    derives NArg (TInt n :: rest) [Token "INT" n] rest
| D_arg_string s rest :
    derives NArg (TString s :: rest) [Token "STRING" s] rest
| D_arg_pair s n rest :
    derives NArg (TString s :: TEq :: TInt n :: rest) [pair_node s n] rest
| D_args_last input node rest :
    derives NArg input node rest ->
    derives NArgs input node rest
| D_args_more input node input' nodes rest :
    derives NArg input node (TComma :: input') ->
    derives NArgs input' nodes rest ->
    derives NArgs input (node ++ nodes) rest.

(** A declaration is accepted with tree [t] when its tokens derive, as a
    whole, from [type_expr]. *)
Definition accepts (type_str : string) (t : tree) : Prop :=
  exists toks node,
    lex (S (String.length type_str)) type_str = Ok toks /\
    derives NType toks [node] [] /\
    t = Tree "start" [node].

(** The parser, by recursive descent with one token of lookahead.  An
    argument is a literal, told by its first tokens, or else a nested
    declaration, for which [type_expr] is the parser passed in. *)
Definition parse_arg (type_expr : list tok -> result (tree * list tok))
    (input : list tok) : result (tree * list tok) :=
  match input with
  | TInt n :: rest => Ok (Token "INT" n, rest)
  | TString s :: TEq :: TInt n :: rest => Ok (pair_node s n, rest)
  | TString s :: rest => Ok (Token "STRING" s, rest)
  | _ => type_expr input
  end.

Fixpoint parse_type_expr (fuel : nat) (input : list tok) {struct fuel}
  : result (tree * list tok) :=
  match fuel with
  | O => Raise (UnexpectedInput "Unexpected token")
  | S fuel' =>
      match input with
      | TIdent name :: TLPar :: input' =>
          try! (args, rest) <- parse_args fuel' input' ;
          Ok (composite_node name args, rest)
      | TIdent name :: rest => Ok (simple_node name, rest)
      | _ => Raise (UnexpectedInput "Unexpected token")
      end
  end

with parse_args (fuel : nat) (input : list tok) {struct fuel}
  : result (list tree * list tok) :=
  match fuel with
  | O => Raise (UnexpectedInput "Unexpected token")
  | S fuel' =>
      try! (node, rest) <- parse_arg (parse_type_expr fuel') input ;
      match rest with
      | TComma :: rest' =>
          try! (nodes, rest'') <- parse_args fuel' rest' ;
          Ok (node :: nodes, rest'')
      | TRPar :: rest' => Ok ([node], rest')
      | _ => Raise (UnexpectedInput "Unexpected token")
      end
  end.

(** [type_parser.parse(type_str)]. *)
Definition parse (type_str : string) : result tree :=
  try! toks <- lex (S (String.length type_str)) type_str ;
  try! (node, rest) <- parse_type_expr (S (length toks)) toks ;
  match rest with
  | [] => Ok (Tree "start" [node])
  | _ :: _ => Raise (UnexpectedInput "Unexpected token")
  end.

End TypeGrammar.

(** ** Type objects and the registry

    A type object is used through one attribute, [from_json].  What a
    [Transformer] callback receives is a token, an untouched subtree (a rule
    without callback), or the type object a callback below returned. *)

Definition converter : Type := pyval -> result pyval.

Record TypeObj : Type := { from_json : converter }.

Inductive tvalue : Type :=
| VToken (type_ : string) (value : string)
| VTree (data : string) (children : list tvalue)
| VType (t : TypeObj).

Definition constructor : Type := list tvalue -> result TypeObj.

(** Modelled from the spec: [TypeRegistry.__getitem__] of [types.py], a
    mapping from type names to constructors whose lookup fails with a lookup
    error for a name it does not hold. *)
Definition registry_getitem (types : gmap string constructor) (name : tvalue)
  : result constructor :=
  match name with
  | VToken _ value =>
      match types !! value with
      | Some ctor => Ok ctor
      | None => Raise (KeyError value)
      end
  | _ => Raise (KeyError "")
  end.

Fixpoint mapM {A B : Type} (f : A -> result B) (l : list A) : result (list B) :=
  match l with
  | [] => Ok []
  | a :: l' =>
      try! b <- f a ;
      try! bs <- mapM f l' ;
      Ok (b :: bs)
  end.

(** ** [TypeTransformer] and [parse_type] *)

Section TypeTransformer.

Variable _types : gmap string constructor.

Definition start (args : list tvalue) : result tvalue :=
  match args with
  | [type_] => Ok type_
  | _ => Raise (TypeError "start() takes 2 positional arguments")
  end.

Definition composite_type (args : list tvalue) : result tvalue :=
  match args with
  | name :: types =>
      try! ctor <- registry_getitem _types name ;
      try! obj <- ctor types ;
      Ok (VType obj)
  | [] => Raise (TypeError "composite_type() missing 1 required positional argument: 'name'")
  end.

Definition simple_type (args : list tvalue) : result tvalue :=
  match args with
  | name :: params =>
      try! ctor <- registry_getitem _types name ;
      try! obj <- ctor [] ;
      Ok (VType obj)
  | [] => Raise (TypeError "simple_type() missing 1 required positional argument: 'name'")
  end.

(** The callback for a node, its children inlined as arguments; a rule
    without callback keeps its node. *)
Definition call_userfunc (data : string) (children : list tvalue) : result tvalue :=
  if String.eqb data "start" then start children
  else if String.eqb data "composite_type" then composite_type children
  else if String.eqb data "simple_type" then simple_type children
  else Ok (VTree data children).

(** [Transformer.transform]: children first, left to right, then the
    node's callback. *)
Fixpoint transform (t : tree) : result tvalue :=
  match t with
  | Token type_ value => Ok (VToken type_ value)
  | Tree data children =>
      try! args <- mapM transform children ;
      call_userfunc data args
  end.

Definition parse_type (type_str : pyval) : result tvalue :=
  match type_str with
  | PStr s =>
      try! t <- TypeGrammar.parse s ;
      transform t
  | _ => Raise (TypeError "expected string or bytes-like object")
  end.

End TypeTransformer.

(** [type_obj.from_json]. *)
Definition getattr_from_json (type_obj : tvalue) : result converter :=
  match type_obj with
  | VType t => Ok (from_json t)
  | _ => Raise (AttributeError "from_json")
  end.

(** ** Records and the stream

    Modelled from the spec: [Record] of [record.py], built from the column
    names and one row's values and holding both in order. *)
Record record : Type := Record_ { names : list pyval; values : list pyval }.

(** An aiohttp [StreamReader]: the chunks of the body still to be read,
    up to the end of the stream. *)
Record StreamReader : Type := { chunks : list string }.

Definition body_of (content : StreamReader) : string :=
  fold_right String.append EmptyString (chunks content).

(** [await content.read()]: everything up to the end of the stream. *)
Definition read (content : StreamReader) : string * StreamReader :=
  (body_of content, {| chunks := [] |}).

Definition at_eof (content : StreamReader) : Prop := chunks content = [].

(** ** Observable steps of the decoder *)

Inductive event : Type :=
| EvRead (body : string)
| EvLoads (body : string)
| EvParseType (column : nat) (type_str : pyval)
| EvConvert (row column : nat) (value : pyval).

(** A computation that appends to the trace and may raise. *)
Definition M (A : Type) : Type := (list event * result A)%type.

Definition ret {A : Type} (a : A) : M A := ([], Ok a).
Definition emit (e : event) : M unit := ([e], Ok tt).
Definition lift {A : Type} (r : result A) : M A := ([], r).

Definition bind {A B : Type} (m : M A) (k : A -> M B) : M B :=
  match m with
  | (tr, Ok a) => let (tr', r) := k a in (tr ++ tr', r)
  | (tr, Raise e) => (tr, Raise e)
  end.

Notation "'do!' x <- m ; k" := (bind m (fun x => k))
  (at level 10, x pattern, m at level 100, k at level 200).

(** ** [parse_json_compact] *)

(** The loop over [response['meta']]; [column] counts the columns done. *)
Fixpoint columns_loop (types : gmap string constructor) (column : nat)
    (meta : list pyval) (names_ : list pyval) (converters : list converter)
  : M (list pyval * list converter) :=
  match meta with
  | [] => ret (names_, converters)
  | col :: meta' =>
      do! name <- lift (getitem col "name") ;
      do! type_str <- lift (getitem col "type") ;
      do! _ <- emit (EvParseType column type_str) ;
      do! type_obj <- lift (parse_type types type_str) ;
      do! conv <- lift (getattr_from_json type_obj) ;
      columns_loop types (S column) meta' (names_ ++ [name]) (converters ++ [conv])
  end.

(** Everything before the loop over the rows. *)
Definition setup (types : gmap string constructor) (body : string)
  : M (list pyval * list converter * list pyval) :=
  do! _ <- emit (EvLoads body) ;
  do! response <- lift (Json.loads PStr body) ;
  do! meta <- lift (getitem response "meta") ;
  do! columns <- lift (py_iter meta) ;
  do! (names_, converters) <- columns_loop types 0 columns [] [] ;
  do! data <- lift (getitem response "data") ;
  do! rows <- lift (py_iter data) ;
  ret (names_, converters, rows).

(** The list comprehension over [zip(converters, row)]. *)
Fixpoint convert_row (row column : nat) (converters : list converter)
    (items : list pyval) : M (list pyval) :=
  match converters, items with
  | conv :: converters', value :: items' =>
      do! _ <- emit (EvConvert row column value) ;
      do! v <- lift (conv value) ;
      do! vs <- convert_row row (S column) converters' items' ;
      ret (v :: vs)
  | _, _ => ret []
  end.

(** The generator object: not yet started, suspended at [yield] with the
    rows still to come, or finished. *)
Inductive generator : Type :=
| Created (types : gmap string constructor) (content : StreamReader)
| Suspended (content : StreamReader) (names_ : list pyval)
    (converters : list converter) (row : nat) (rows : list pyval)
| Closed.

Inductive outcome : Type :=
| Yield (r : record)
| StopAsyncIteration
| Raised (e : exn).

(** One turn of the loop over [response['data']], up to the next [yield]. *)
Definition rows_loop (content : StreamReader) (names_ : list pyval)
    (converters : list converter) (row : nat) (rows : list pyval)
  : list event * outcome * generator :=
  match rows with
  | [] => ([], StopAsyncIteration, Closed)
  | r :: rows' =>
      match (do! items <- lift (py_iter r) ; convert_row row 0 converters items) with
      | (tr, Ok vs) =>
          (tr, Yield {| names := names_; values := vs |},
           Suspended content names_ converters (S row) rows')
      | (tr, Raise e) => (tr, Raised e, Closed)
      end
  end.

(** [await gen.__anext__()]. *)
Definition anext (g : generator) : list event * outcome * generator :=
  match g with
  | Created types content =>
      let (body, content') := read content in
      match setup types body with
      | (tr, Ok (names_, converters, rows)) =>
          let '(tr', o, g') := rows_loop content' names_ converters 0 rows in
          (EvRead body :: tr ++ tr', o, g')
      | (tr, Raise e) => (EvRead body :: tr, Raised e, Closed)
      end
  | Suspended content names_ converters row rows =>
      rows_loop content names_ converters row rows
  | Closed => ([], StopAsyncIteration, Closed)
  end.

Definition parse_json_compact (types : gmap string constructor)
    (content : StreamReader) : generator :=
  Created types content.

(** ** A consumer

    [async for record in gen] that keeps what it receives and leaves the
    loop once it holds [k] records. *)
Inductive status : Type :=
| Running
| Exhausted
| Failed (e : exn).

Record session : Type :=
  { trace : list event; received : list record; state : status; gen : generator }.

Fixpoint consume (k : nat) (g : generator) : session :=
  match k with
  | O => {| trace := []; received := []; state := Running; gen := g |}
  | S k' =>
      match anext g with
      | (tr, Yield r, g') =>
          let s := consume k' g' in
          {| trace := tr ++ trace s; received := r :: received s;
             state := state s; gen := gen s |}
      | (tr, StopAsyncIteration, g') =>
          {| trace := tr; received := []; state := Exhausted; gen := g' |}
      | (tr, Raised e, g') =>
          {| trace := tr; received := []; state := Failed e; gen := g' |}
      end
  end.

(** ** The list objects the decoder shares

    [names] is one list object: [append] changes it in place during the
    loop over the columns, and every Record is built with a reference to it;
    the list of a row's values is a new object for each row.  To tell
    whether what the decoder does later can change a Record it has yielded,
    the generator is given once more, over a store of list objects in which
    a Record holds the addresses of its two lists.  (Modelled from the spec:
    [Record] keeps the lists it is given, the reading under which the
    decoder could reach into a Record after yielding it.)  The list
    [converters] is never handed out and stays a value. *)

Module Shared.

(** The list objects, each at its address, which is its position. *)
Definition store : Type := list (list pyval).

(** [[]] or a comprehension: a new list object. *)
Definition new_list (items : list pyval) (h : store) : nat * store :=
  (length h, h ++ [items]).

(** [a.append(v)]: the object at [a] changes in place. *)
Definition list_append (a : nat) (v : pyval) (h : store) : store :=
  match h !! a with
  | Some items => <[a := items ++ [v]]> h
  | None => h
  end.

(** A Record object: the addresses of the lists it was built with. *)
Record Record : Type := { names_at : nat; values_at : nat }.

(** What a Record shows to who reads it when the store is [h]. *)
Definition view (h : store) (r : Record) : option record :=
  match h !! names_at r, h !! values_at r with
  | Some ns, Some vs => Some {| names := ns; values := vs |}
  | _, _ => None
  end.

(** The loop over [response['meta']], appending to the object [names]. *)
Fixpoint columns_loop (types : gmap string constructor) (column : nat)
    (meta : list pyval) (names_ : nat) (converters : list converter) (h : store)
  : list event * store * result (list converter) :=
  match meta with
  | [] => ([], h, Ok converters)
  | col :: meta' =>
      match getitem col "name" with
      | Raise e => ([], h, Raise e)
      | Ok name =>
          let h1 := list_append names_ name h in
          match getitem col "type" with
          | Raise e => ([], h1, Raise e)
          | Ok type_str =>
              match (try! type_obj <- parse_type types type_str ;
                     getattr_from_json type_obj) with
              | Raise e => ([EvParseType column type_str], h1, Raise e)
              | Ok conv =>
                  let '(tr, h2, r) :=
                    columns_loop types (S column) meta' names_ (converters ++ [conv]) h1 in
                  (EvParseType column type_str :: tr, h2, r)
              end
          end
      end
  end.

(** Everything before the loop over the rows. *)
Definition setup (types : gmap string constructor) (body : string) (h : store)
  : list event * store * result (nat * list converter * list pyval) :=
  match Json.loads PStr body with
  | Raise e => ([EvLoads body], h, Raise e)
  | Ok response =>
      let (names_, h1) := new_list [] h in
      match (try! meta <- getitem response "meta" ; py_iter meta) with
      | Raise e => ([EvLoads body], h1, Raise e)
      | Ok columns =>
          match columns_loop types 0 columns names_ [] h1 with
          | (tr, h2, Raise e) => (EvLoads body :: tr, h2, Raise e)
          | (tr, h2, Ok converters) =>
              match (try! data <- getitem response "data" ; py_iter data) with
              | Raise e => (EvLoads body :: tr, h2, Raise e)
              | Ok rows => (EvLoads body :: tr, h2, Ok (names_, converters, rows))
              end
          end
      end
  end.

Inductive generator : Type :=
| Created (types : gmap string constructor) (content : StreamReader)
| Suspended (content : StreamReader) (names_ : nat)
    (converters : list converter) (row : nat) (rows : list pyval)
| Closed.

Inductive outcome : Type :=
| Yield (r : Record)
| StopAsyncIteration
| Raised (e : exn).

(** One turn of the loop over [response['data']]: the comprehension makes a
    new list of the converted values, and the Record is built with the
    object [names] and this list. *)
Definition rows_loop (content : StreamReader) (names_ : nat)
    (converters : list converter) (row : nat) (rows : list pyval) (h : store)
  : list event * outcome * generator * store :=
  match rows with
  | [] => ([], StopAsyncIteration, Closed, h)
  | r :: rows' =>
      match (do! items <- lift (py_iter r) ; convert_row row 0 converters items) with
      | (tr, Ok vs) =>
          let (values_, h') := new_list vs h in
          (tr, Yield {| names_at := names_; values_at := values_ |},
           Suspended content names_ converters (S row) rows', h')
      | (tr, Raise e) => (tr, Raised e, Closed, h)
      end
  end.

(** [await gen.__anext__()]. *)
Definition anext (g : generator) (h : store)
  : list event * outcome * generator * store :=
  match g with
  | Created types content =>
      let (body, content') := read content in
      match setup types body h with
      | (tr, h1, Ok (names_, converters, rows)) =>
          let '(tr', o, g', h2) := rows_loop content' names_ converters 0 rows h1 in
          (EvRead body :: tr ++ tr', o, g', h2)
      | (tr, h1, Raise e) => (EvRead body :: tr, Raised e, Closed, h1)
      end
  | Suspended content names_ converters row rows =>
      rows_loop content names_ converters row rows h
  | Closed => ([], StopAsyncIteration, Closed, h)
  end.

Definition parse_json_compact (types : gmap string constructor)
    (content : StreamReader) : generator :=
  Created types content.

(** The consumer that keeps the Record objects it receives. *)
Record session : Type :=
  { trace : list event; received : list Record; state : status;
    gen : generator; objects : store }.

Fixpoint consume (k : nat) (g : generator) (h : store) : session :=
  match k with
  | O => {| trace := []; received := []; state := Running; gen := g; objects := h |}
  | S k' =>
      match anext g h with
      | (tr, Yield r, g', h') =>
          let s := consume k' g' h' in
          {| trace := tr ++ trace s; received := r :: received s;
             state := state s; gen := gen s; objects := objects s |}
      | (tr, StopAsyncIteration, g', h') =>
          {| trace := tr; received := []; state := Exhausted; gen := g';
             objects := h' |}
      | (tr, Raised e, g', h') =>
          {| trace := tr; received := []; state := Failed e; gen := g';
             objects := h' |}
      end
  end.

End Shared.

(** ** Registry entries used in the examples

    Modelled from the spec: the constructors of [types.py], which is not
    among the sources.  The spec's decoding rules for [UInt8], [String],
    [Nullable], [Array], [Tuple] and [Decimal] are followed; a constructor
    rejects an argument list of the wrong count or kind, as a Python
    constructor of fixed arity does. *)

Module SpecTypes.

Definition UInt8_from_json : converter := fun value =>
  match value with
  | PInt n =>
      if ((0 <=? n) && (n <=? 255))%Z then Ok (PInt n)
      else Raise (ValueError "UInt8: value out of range")
  | _ => Raise (ValueError "UInt8: not an integer")
  end.

Definition String_from_json : converter := fun value =>
  match value with
  | PStr s => Ok (PStr s)
  | _ => Raise (ValueError "String: not a string")
  end.

Definition Nullable_from_json (inner : converter) : converter := fun value =>
  match value with
  | PNone => Ok PNone
  | _ => inner value
  end.

Definition Array_from_json (inner : converter) : converter := fun value =>
  match value with
  | PList items =>
      try! vs <- mapM inner items ;
      Ok (PList vs)
  | _ => Raise (ValueError "Array: not a sequence")
  end.

Fixpoint zip_convert (inners : list converter) (items : list pyval)
  : result (list pyval) :=
  match inners, items with
  | [], [] => Ok []
  | inner :: inners', item :: items' =>
      try! v <- inner item ;
      try! vs <- zip_convert inners' items' ;
      Ok (v :: vs)
  | _, _ => Raise (ValueError "Tuple: wrong number of elements")
  end.

Definition Tuple_from_json (inners : list converter) : converter := fun value =>
  match value with
  | PList items =>
      try! vs <- zip_convert inners items ;
      Ok (PTuple vs)
  | _ => Raise (ValueError "Tuple: not a sequence")
  end.

(** The exact fixed-point value of a decimal text at the declared scale. *)
Definition Decimal_from_json (scale : nat) : converter := fun value =>
  match value with
  | PStr text =>
      match Json.match_number text with
      | Some (integer, frac, EmptyString, EmptyString) =>
          let digits := match frac with String _ ds => ds | EmptyString => EmptyString end in
          let places := String.length digits in
          if (places <=? scale)%nat then
            match Json.py_int (integer +:+ digits) with
            | PInt n => Ok (PDecimal (n * 10 ^ Z.of_nat (scale - places)) scale)
            | _ => Raise (ValueError "Decimal: not a number")
            end
          else Raise (ValueError "Decimal: too many decimal places")
      | _ => Raise (ValueError "Decimal: not a number")
      end
  | PInt n => Ok (PDecimal (n * 10 ^ Z.of_nat scale) scale)
  | _ => Raise (ValueError "Decimal: not a number")
  end.

Definition nullary (f : converter) : constructor := fun args =>
  match args with
  | [] => Ok {| from_json := f |}
  | _ :: _ => Raise (TypeError "takes no arguments")
  end.

Definition unary (f : converter -> converter) : constructor := fun args =>
  match args with
  | [VType inner] => Ok {| from_json := f (from_json inner) |}
  | _ => Raise (TypeError "takes exactly one type argument")
  end.

Definition Tuple_ctor : constructor := fun args =>
  try! inners <- mapM getattr_from_json args ;
  Ok {| from_json := Tuple_from_json inners |}.

Definition Decimal_ctor : constructor := fun args =>
  match args with
  | [VToken _ precision; VToken _ scale] =>
      match Json.py_int scale with
      | PInt s => Ok {| from_json := Decimal_from_json (Z.to_nat s) |}
      | _ => Raise (TypeError "Decimal takes two integers")
      end
  | _ => Raise (TypeError "Decimal takes two integers")
  end.

Definition registry : gmap string constructor :=
  <["UInt8" := nullary UInt8_from_json]>
  (<["String" := nullary String_from_json]>
  (<["Nullable" := unary Nullable_from_json]>
  (<["Array" := unary Array_from_json]>
  (<["Tuple" := Tuple_ctor]>
  (<["Decimal" := Decimal_ctor]> ∅))))).

(** A body written with a backquote for each double quote. *)
Fixpoint body (s : string) : string :=
  match s with
  | EmptyString => EmptyString
  | String c s' => String (if (c =? "`")%char then Json.dquote else c) (body s')
  end.

End SpecTypes.

(** * Vocabulary of the properties

    Functions and predicates in which the properties below are stated,
    and the payloads of the examples. *)

(** The values of the comprehension, without the trace. *)
Fixpoint convert_values (converters : list converter) (items : list pyval)
  : result (list pyval) :=
  match converters, items with
  | conv :: converters', value :: items' =>
      try! v <- conv value ;
      try! vs <- convert_values converters' items' ;
      Ok (v :: vs)
  | _, _ => Ok []
  end.

(** The converter calls of the comprehension, up to the first that raises. *)
Fixpoint convert_trace (row column : nat) (converters : list converter)
    (items : list pyval) : list event :=
  match converters, items with
  | conv :: converters', value :: items' =>
      EvConvert row column value ::
        match conv value with
        | Ok _ => convert_trace row (S column) converters' items'
        | Raise _ => []
        end
  | _, _ => []
  end.

(** Each value of a converted row is its column's converter applied to the
    value at the same position. *)
Definition converted_positionally (converters : list converter)
    (items vs : list pyval) : Prop :=
  length vs = min (length converters) (length items) /\
  forall j, j < length vs ->
    exists conv value v,
      converters !! j = Some conv /\ items !! j = Some value /\
      vs !! j = Some v /\ conv value = Ok v.

(** What [zip] and the comprehension make of one row. *)
Definition row_result (converters : list converter) (row : pyval)
  : result (list pyval) :=
  try! items <- py_iter row ;
  convert_values converters items.

Definition row_trace (i : nat) (converters : list converter) (row : pyval)
  : list event :=
  match py_iter row with
  | Ok items => convert_trace i 0 converters items
  | Raise _ => []
  end.

Fixpoint rows_trace (i : nat) (converters : list converter) (rows : list pyval)
  : list event :=
  match rows with
  | [] => []
  | row :: rows' => row_trace i converters row ++ rows_trace (S i) converters rows'
  end.

(** The record made from a row. *)
Definition record_of (names_ : list pyval) (converters : list converter)
    (row : pyval) (r : record) : Prop :=
  names r = names_ /\ row_result converters row = Ok (values r).

(** The number of leading rows that convert: the rows before the first one
    on which [zip] or a converter raises. *)
Fixpoint converting_prefix (converters : list converter) (rows : list pyval) : nat :=
  match rows with
  | [] => 0
  | row :: rows' =>
      if is_ok (row_result converters row)
      then S (converting_prefix converters rows')
      else 0
  end.

(** Where a consumer that asks for [k] Records ends: still running when the
    first [k] rows convert; at the end of the iteration when the rows are
    fewer and all convert; and failed, with the error of the first row that
    does not convert, when that row is among the first [k]. *)
Definition state_after (converters : list converter) (rows : list pyval) (k : nat)
  : status :=
  let p := converting_prefix converters rows in
  if Nat.leb k p then Running
  else
    match rows !! p with
    | None => Exhausted
    | Some row =>
        match row_result converters row with
        | Raise e => Failed e
        | Ok _ => Running
        end
    end.

(** How a consumer that asks for [k] records stands afterwards, the
    generator having [rows] to go from row [i] and [pre] being the trace
    before the first of them: the consumer holds the records of the first
    [n] rows, in order, and either has all [k] it asked for, or the rows ran
    out, or row [n] raised. *)
Inductive consumed (pre : list event) (content : StreamReader)
    (names_ : list pyval) (converters : list converter) (i : nat)
    (rows : list pyval) (k : nat) (s : session) : Prop :=
| consumed_running :
    state s = Running ->
    length (received s) = k ->
    trace s = pre ++ rows_trace i converters (take k rows) ->
    gen s = Suspended content names_ converters (i + k) (drop k rows) ->
    consumed pre content names_ converters i rows k s
| consumed_exhausted :
    state s = Exhausted ->
    length (received s) = length rows ->
    length rows < k ->
    trace s = pre ++ rows_trace i converters rows ->
    gen s = Closed ->
    consumed pre content names_ converters i rows k s
| consumed_failed e row :
    state s = Failed e ->
    length (received s) < k ->
    rows !! length (received s) = Some row ->
    row_result converters row = Raise e ->
    trace s = pre ++ rows_trace i converters (take (S (length (received s))) rows) ->
    gen s = Closed ->
    consumed pre content names_ converters i rows k s.

Fixpoint parse_events (column : nat) (type_strs : list pyval) : list event :=
  match type_strs with
  | [] => []
  | type_str :: rest => EvParseType column type_str :: parse_events (S column) rest
  end.

(** Column by column: the name kept, the declaration parsed and resolved,
    the converter taken from the type object. *)
Inductive columns_resolved (types : gmap string constructor)
  : list pyval -> list pyval -> list pyval -> list converter -> Prop :=
| resolved_nil : columns_resolved types [] [] [] []
| resolved_cons col meta name names_ type_str type_strs type_obj conv converters :
    getitem col "name" = Ok name ->
    getitem col "type" = Ok type_str ->
    parse_type types type_str = Ok type_obj ->
    getattr_from_json type_obj = Ok conv ->
    columns_resolved types meta names_ type_strs converters ->
    columns_resolved types (col :: meta) (name :: names_)
      (type_str :: type_strs) (conv :: converters).

(** What a successful setup has done. *)
Inductive setup_done (types : gmap string constructor) (body : string)
    (names_ : list pyval) (converters : list converter) (rows : list pyval)
    (type_strs : list pyval) : Prop :=
| setup_done_intro response meta columns data :
    Json.loads PStr body = Ok response ->
    getitem response "meta" = Ok meta ->
    py_iter meta = Ok columns ->
    columns_resolved types columns names_ type_strs converters ->
    getitem response "data" = Ok data ->
    py_iter data = Ok rows ->
    setup_done types body names_ converters rows type_strs.

Definition drained : StreamReader := {| chunks := [] |}.

Definition setup_trace (body : string) (type_strs : list pyval) : list event :=
  EvRead body :: EvLoads body :: parse_events 0 type_strs.

(** Every run of a consumer against a fresh generator: either the setup
    raised, on the first request and before any row was touched, or it
    completed and the rows follow it. *)
Inductive run (types : gmap string constructor) (content : StreamReader)
    (k : nat) (s : session) : Prop :=
| run_setup_raised e type_strs :
    setup types (body_of content)
    = (EvLoads (body_of content) :: parse_events 0 type_strs, Raise e) ->
    trace s = setup_trace (body_of content) type_strs ->
    received s = [] ->
    state s = Failed e ->
    gen s = Closed ->
    run types content k s
| run_setup_done names_ converters rows type_strs :
    setup types (body_of content)
    = (EvLoads (body_of content) :: parse_events 0 type_strs,
       Ok (names_, converters, rows)) ->
    setup_done types (body_of content) names_ converters rows type_strs ->
    Forall2 (record_of names_ converters)
      (take (length (received s)) rows) (received s) ->
    consumed (setup_trace (body_of content) type_strs) drained
      names_ converters 0 rows k s ->
    run types content k s.

Definition is_convert (ev : event) : bool :=
  match ev with EvConvert _ _ _ => true | _ => false end.

(** The number of times column [column]'s declaration went through
    [parse_type]. *)
Fixpoint parse_calls (column : nat) (tr : list event) : nat :=
  match tr with
  | [] => 0
  | EvParseType c _ :: tr' =>
      (if Nat.eqb c column then 1 else 0) + parse_calls column tr'
  | _ :: tr' => parse_calls column tr'
  end.

(** The end-to-end scenario of the spec: two columns, two rows. *)
Definition scenario : StreamReader :=
  {| chunks :=
       [SpecTypes.body "{`meta`:[{`name`:`id`,`type`:`UInt8`},";
        SpecTypes.body "{`name`:`tag`,`type`:`Nullable(String)`}],";
        SpecTypes.body "`data`:[[1,`x`],[2,null]]}"] |}.

(** A session after one more [__anext__]. *)
Definition extend (s : session) (step : list event * outcome * generator) : session :=
  match step with
  | (tr, Yield r, g') =>
      {| trace := trace s ++ tr; received := received s ++ [r];
         state := Running; gen := g' |}
  | (tr, StopAsyncIteration, g') =>
      {| trace := trace s ++ tr; received := received s;
         state := Exhausted; gen := g' |}
  | (tr, Raised e, g') =>
      {| trace := trace s ++ tr; received := received s;
         state := Failed e; gen := g' |}
  end.

Definition is_io (ev : event) : bool :=
  match ev with EvRead _ | EvLoads _ => true | _ => false end.

(** A payload whose second row does not fit its column type. *)
Definition failing : StreamReader :=
  {| chunks :=
       [SpecTypes.body "{`meta`:[{`name`:`n`,`type`:`UInt8`}],";
        SpecTypes.body "`data`:[[3],[300],[4]]}"] |}.

(** A payload with one row too long and one too short for its columns. *)
Definition ragged : StreamReader :=
  {| chunks :=
       [SpecTypes.body "{`meta`:[{`name`:`a`,`type`:`UInt8`},{`name`:`b`,`type`:`String`}],";
        SpecTypes.body "`data`:[[1,`x`,`extra`],[2]]}"] |}.

(** The request for row [i] was answered by an exception, and the last thing
    done was to call the converter of column [j] on that row's value. *)
Definition conversion_failed (s : session) (i j : nat) (e : exn) : Prop :=
  state s = Failed e /\
  length (received s) = i /\
  exists pre value, trace s = pre ++ [EvConvert i j value].

(** The claim of C2 that the reported error tells the column and the row:
    some reading of the error yields them, whatever the registry, the
    payload and the consumer. *)
Definition error_identifies_cell : Prop :=
  exists locate : exn -> nat * nat,
    forall types content k i j e,
      conversion_failed (consume k (parse_json_compact types content)) i j e ->
      locate e = (i, j).

(** Two payloads over the same columns that fail in different cells. *)
Definition failing_first_cell : StreamReader :=
  {| chunks :=
       [SpecTypes.body "{`meta`:[{`name`:`a`,`type`:`UInt8`},{`name`:`b`,`type`:`UInt8`}],";
        SpecTypes.body "`data`:[[300,1],[1,1]]}"] |}.

Definition failing_later_cell : StreamReader :=
  {| chunks :=
       [SpecTypes.body "{`meta`:[{`name`:`a`,`type`:`UInt8`},{`name`:`b`,`type`:`UInt8`}],";
        SpecTypes.body "`data`:[[1,1],[1,300]]}"] |}.

(** A place inside a document or a value: array positions and object keys,
    from the outside in. *)
Inductive step : Type :=
| Index (n : nat)
| Key (k : string).

(** The member of an object literal that [dict] keeps for a key: the last
    pair written with it. *)
Fixpoint json_field (k : string) (pairs : list (string * Json.json))
  : option Json.json :=
  match pairs with
  | [] => None
  | (k', v) :: pairs' =>
      match json_field k pairs' with
      | Some v' => Some v'
      | None => if String.eqb k k' then Some v else None
      end
  end.

Fixpoint json_at (path : list step) (j : Json.json) : option Json.json :=
  match path with
  | [] => Some j
  | Index n :: path' =>
      match j with
      | Json.JArray items =>
          match items !! n with
          | Some x => json_at path' x
          | None => None
          end
      | _ => None
      end
  | Key k :: path' =>
      match j with
      | Json.JObject pairs =>
          match json_field k pairs with
          | Some x => json_at path' x
          | None => None
          end
      | _ => None
      end
  end.

Fixpoint py_at (path : list step) (v : pyval) : option pyval :=
  match path with
  | [] => Some v
  | Index n :: path' =>
      match v with
      | PList items =>
          match items !! n with
          | Some x => py_at path' x
          | None => None
          end
      | _ => None
      end
  | Key k :: path' =>
      match v with
      | PDict d =>
          match dict_get k d with
          | Some x => py_at path' x
          | None => None
          end
      | _ => None
      end
  end.

(** A number written with a fraction or an exponent. *)
Definition float_literal (j : Json.json) : option string :=
  match j with
  | Json.JNumber integer frac exp =>
      if Json.nonempty frac || Json.nonempty exp
      then Some (integer +:+ frac +:+ exp)
      else None
  | _ => None
  end.

(** [suffix_of s body]: the text [body] ends with [s]. *)
Definition suffix_of (s body : string) : Prop := exists pre, body = pre +:+ s.

(** [tail_of rest s]: [rest] is what is left of [s] after at least one
    character was read. *)
Definition tail_of (rest s : string) : Prop :=
  suffix_of rest s /\ String.length rest < String.length s.

(** Every number of a document was matched by the number pattern at some
    position of the text [s]. *)
Definition numbers_in (j : Json.json) (s : string) : Prop :=
  forall path integer frac exp,
    json_at path j = Some (Json.JNumber integer frac exp) ->
    exists s' rest,
      suffix_of s' s /\ Json.match_number s' = Some (integer, frac, exp, rest).

(** A payload with floating-point literals in and inside its cells. *)
Definition decimals : StreamReader :=
  {| chunks :=
       [SpecTypes.body "{`meta`:[{`name`:`price`,`type`:`Decimal(9, 2)`},";
        SpecTypes.body "{`name`:`xs`,`type`:`Array(Decimal(9, 3))`}],";
        SpecTypes.body "`data`:[[1.10,[0.125,-3.5]]]}"] |}.

Import TypeGrammar.

(** What may come after a phrase: an argument list ends at a closing
    parenthesis; a declaration or an argument is not followed by an opening
    parenthesis or an equals sign, which would belong to it. *)
Definition follows (n : nonterminal) (rest : list tok) : Prop :=
  match n with
  | NArgs => exists rest', rest = TRPar :: rest'
  | _ =>
      match rest with
      | TLPar :: _ | TEq :: _ => False
      | _ => True
      end
  end.

Definition slack (n : nonterminal) : nat :=
  match n with NArgs => 1 | _ => 0 end.

(** The identifier of a node that [TypeTransformer] resolves through the
    registry. *)
Definition type_name (t : tree) : option string :=
  match t with
  | Tree data (Token _ name :: _) =>
      if String.eqb data "simple_type" || String.eqb data "composite_type"
      then Some name else None
  | _ => None
  end.














(** A response whose second column names an unknown type. *)
Definition unknown_column : StreamReader :=
  {| chunks :=
       [SpecTypes.body "{`meta`:[{`name`:`a`,`type`:`UInt8`},";
        SpecTypes.body "{`name`:`b`,`type`:`Array(Nullable(Foo))`}],";
        SpecTypes.body "`data`:[[1,[null]]]}"] |}.

(** The generator over the store stands where the generator over values
    does, the object [names] holding the names. *)
Definition stands_as (h : Shared.store) (g : Shared.generator) (gp : generator) : Prop :=
  match g, gp with
  | Shared.Created types content, Created types' content' =>
      types = types' /\ content = content'
  | Shared.Suspended content a converters row rows,
    Suspended content' names_ converters' row' rows' =>
      content = content' /\ converters = converters' /\ row = row' /\ rows = rows' /\
      h !! a = Some names_
  | Shared.Closed, Closed => True
  | _, _ => False
  end.

(** An answer over the store reads, in store [h], as the answer over
    values. *)
Definition reads_as (h : Shared.store) (o : Shared.outcome) (op : outcome) : Prop :=
  match o, op with
  | Shared.Yield r, Yield rec => Shared.view h r = Some rec
  | Shared.StopAsyncIteration, StopAsyncIteration => True
  | Shared.Raised e, Raised e' => e = e'
  | _, _ => False
  end.

(** ** Vocabulary of the further properties *)

(** [iter(response['meta'])] and [iter(response['data'])]: what the two
    loops of [parse_json_compact] walk over. *)
Definition columns_of (response : pyval) : result (list pyval) :=
  try! meta <- getitem response "meta" ;
  py_iter meta.

Definition rows_of (response : pyval) : result (list pyval) :=
  try! data <- getitem response "data" ;
  py_iter data.

(** One turn of the loop over the columns: the declaration handed to
    [parse_type], when the turn got that far, and the name and converter it
    appends, or the error it raises. *)
Definition resolve_column (types : gmap string constructor) (col : pyval)
  : option pyval * result (pyval * converter) :=
  match getitem col "name" with
  | Raise e => (None, Raise e)
  | Ok name =>
      match getitem col "type" with
      | Raise e => (None, Raise e)
      | Ok type_str =>
          (Some type_str,
           try! type_obj <- parse_type types type_str ;
           try! conv <- getattr_from_json type_obj ;
           Ok (name, conv))
      end
  end.

(** The session of a consumer whose first request was answered by [e]. *)
Definition failed_at_setup (tr : list event) (e : exn) : session :=
  {| trace := tr; received := []; state := Failed e; gen := Closed |}.

(** A caller that sends [n] requests whatever the answers, and keeps each
    answer with the steps it took. *)
Fixpoint requests (n : nat) (g : generator) : list (list event * outcome) :=
  match n with
  | O => []
  | S n' => let '(tr, o, g') := anext g in (tr, o) :: requests n' g'
  end.

Definition is_yield (o : outcome) : bool :=
  match o with Yield _ => true | _ => false end.

(** The records among the answers, and the steps of all of them. *)
Definition yielded (answers : list (list event * outcome)) : list record :=
  omap (fun a => match snd a with Yield r => Some r | _ => None end) answers.

Definition steps (answers : list (list event * outcome)) : list event :=
  concat (map fst answers).

(** The number of times the value of row [i], column [j] was handed to a
    converter. *)
Fixpoint convert_calls (i j : nat) (tr : list event) : nat :=
  match tr with
  | [] => 0
  | EvConvert i' j' _ :: tr' =>
      (if Nat.eqb i' i && Nat.eqb j' j then 1 else 0) + convert_calls i j tr'
  | _ :: tr' => convert_calls i j tr'
  end.

Definition is_float (v : pyval) : bool :=
  match v with PFloat _ => true | _ => false end.

(** [str(n)]: the decimal text of an integer, as a JSON encoder writes it. *)
Definition py_str_int (n : Z) : string :=
  DecimalString.NilZero.string_of_int (Z.to_int n).

(** The digits [int] accepts in a text: Python's default limit
    ([sys.int_info.default_max_str_digits], from 3.11 on; none before). *)
Definition int_max_str_digits : nat := 4300.

(** What may follow the digits of an integer literal: the end of the text,
    or a character that continues neither the digits nor the number. *)
Definition ends_integer (rest : string) : bool :=
  match rest with
  | EmptyString => true
  | String c _ =>
      negb (Json.is_digit c || (c =? ".")%char || (c =? "e")%char || (c =? "E")%char)
  end.

(** The identifiers a declaration has resolved through the registry, the
    outermost first. *)
Fixpoint type_names (t : tree) : list string :=
  match t with
  | Token _ _ => []
  | Tree data children =>
      match type_name t with
      | Some name => [name]
      | None => []
      end ++ flat_map type_names children
  end.

(** Two registries hold the same constructor, or none, under each of the
    names. *)
Definition agree (types1 types2 : gmap string constructor) (names_ : list string)
  : Prop :=
  Forall (fun name => types1 !! name = types2 !! name) names_.

(** A response with rows and no columns member. *)
Definition no_meta : StreamReader :=
  {| chunks := [SpecTypes.body "{`data`:[[1]],`rows`:1}"] |}.

(** A response with columns and no rows member. *)
Definition no_data : StreamReader :=
  {| chunks :=
       [SpecTypes.body "{`meta`:[{`name`:`a`,`type`:`UInt8`},{`name`:`b`,`type`:`String`}],";
        SpecTypes.body "`rows`:0}"] |}.

(** A response whose second column has no name; the declarations of the
    second and third column name unknown types. *)
Definition nameless_column : StreamReader :=
  {| chunks :=
       [SpecTypes.body "{`meta`:[{`name`:`a`,`type`:`UInt8`},{`type`:`Foo`},";
        SpecTypes.body "{`name`:`c`,`type`:`Bar`}]}"] |}.

(** A response whose second row is a number. *)
Definition scalar_row : StreamReader :=
  {| chunks :=
       [SpecTypes.body "{`meta`:[{`name`:`a`,`type`:`UInt8`}],";
        SpecTypes.body "`data`:[[1],2,[3]]}"] |}.

(** A response with the constants of the decoder in its cells. *)
Definition not_a_number : StreamReader :=
  {| chunks :=
       [SpecTypes.body "{`meta`:[{`name`:`x`,`type`:`Nullable(String)`}],";
        SpecTypes.body "`data`:[[NaN],[-Infinity]]}"] |}.

(** A response with an integer beyond 64 bits in a cell. *)
Definition big_integer : StreamReader :=
  {| chunks :=
       [SpecTypes.body "{`meta`:[{`name`:`n`,`type`:`Nullable(UInt8)`}],";
        SpecTypes.body "`data`:[[36893488147419103232]]}"] |}.

(** The registry of the examples with one entry replaced and one added. *)
Definition more_types : gmap string constructor :=
  <["Foo" := SpecTypes.nullary SpecTypes.String_from_json]>
    (<["UInt8" := SpecTypes.nullary SpecTypes.String_from_json]> SpecTypes.registry).

(** * Properties *)

(** ** Converting one row *)

Lemma convert_row_split row column converters items :
  convert_row row column converters items
  = (convert_trace row column converters items, convert_values converters items).
Proof.
  revert column items.
  induction converters as [|conv converters IH]; intros column [|value items];
    try reflexivity.
  cbn [convert_row convert_trace convert_values].
  unfold bind at 1. cbn [emit lift].
  destruct (conv value) as [v|e]; cbn; [|reflexivity].
  rewrite IH. unfold bind, ret.
  destruct (convert_values converters items); cbn;
    rewrite ?app_nil_r; reflexivity.
Qed.

Lemma convert_values_ok converters items vs :
  convert_values converters items = Ok vs ->
  converted_positionally converters items vs.
Proof.
  revert items vs.
  induction converters as [|conv converters IH]; intros [|value items] vs H;
    cbn in H; try (injection H as <-; split; [reflexivity | cbn; lia]).
  destruct (conv value) as [v|e] eqn:Hc; cbn in H; [|discriminate].
  destruct (convert_values converters items) as [vs'|e] eqn:Hvs; cbn in H;
    [|discriminate].
  injection H as <-.
  destruct (IH _ _ Hvs) as [Hlen Hpos].
  split; [cbn; lia|].
  intros [|j] Hj.
  - exists conv, value, v. auto.
  - cbn in Hj. destruct (Hpos j ltac:(lia)) as (c & x & y & ? & ? & ? & ?).
    exists c, x, y. auto.
Qed.

Lemma convert_values_total converters items :
  (forall j conv value,
      converters !! j = Some conv -> items !! j = Some value ->
      exists v, conv value = Ok v) ->
  exists vs, convert_values converters items = Ok vs.
Proof.
  revert items.
  induction converters as [|conv converters IH]; intros [|value items] H;
    cbn; eauto.
  destruct (H 0 conv value eq_refl eq_refl) as [v ->]. cbn.
  destruct (IH items) as [vs ->]; [|cbn; eauto].
  intros j c x Hc Hx. exact (H (S j) c x Hc Hx).
Qed.

(** A row's conversion raises exactly when some paired converter does: the
    error is the one of the first converter that raises, unchanged, and its
    call is the last step taken. *)
Lemma convert_values_raise row column converters items e :
  convert_values converters items = Raise e ->
  exists j conv value tr,
    converters !! j = Some conv /\ items !! j = Some value /\
    conv value = Raise e /\
    convert_trace row column converters items
    = tr ++ [EvConvert row (column + j) value].
Proof.
  revert column items.
  induction converters as [|conv converters IH]; intros column [|value items] H;
    cbn in H; try discriminate.
  cbn [convert_trace].
  destruct (conv value) as [v|e'] eqn:Hc; cbn in H.
  - destruct (convert_values converters items) as [vs'|e''] eqn:Hvs; cbn in H;
      [discriminate|].
    injection H as ->.
    destruct (IH (S column) _ Hvs) as (j & c & x & tr & ? & ? & ? & Htr).
    exists (S j), c, x, (EvConvert row column value :: tr).
    repeat split; auto.
    rewrite Htr. cbn. repeat f_equal. lia.
  - injection H as ->.
    exists 0, conv, value, []. repeat split; auto.
    cbn. repeat f_equal. lia.
Qed.

Lemma convert_trace_events row column converters items ev :
  ev ∈ convert_trace row column converters items ->
  exists j value,
    ev = EvConvert row (column + j) value /\
    items !! j = Some value /\ j < length converters.
Proof.
  revert column items.
  induction converters as [|conv converters IH]; intros column [|value items] H;
    cbn in H; try (by apply elem_of_nil in H).
  apply elem_of_cons in H as [->|H].
  - exists 0, value. repeat split; [f_equal; lia | cbn; lia].
  - destruct (conv value); [|by apply elem_of_nil in H].
    destruct (IH _ _ H) as (j & x & -> & ? & ?).
    exists (S j), x. repeat split; [f_equal; lia | auto | cbn; lia].
Qed.

(** ** The loop over the rows *)

Lemma rows_loop_cons content names_ converters i row rows :
  rows_loop content names_ converters i (row :: rows)
  = match row_result converters row with
    | Ok vs =>
        (row_trace i converters row,
         Yield {| names := names_; values := vs |},
         Suspended content names_ converters (S i) rows)
    | Raise e => (row_trace i converters row, Raised e, Closed)
    end.
Proof.
  unfold rows_loop, row_result, row_trace, bind, lift.
  destruct (py_iter row) as [items|e]; cbn; [|reflexivity].
  rewrite convert_row_split.
  destruct (convert_values converters items); reflexivity.
Qed.

Lemma consume_suspended content names_ converters k : forall i rows,
  let s := consume k (Suspended content names_ converters i rows) in
  Forall2 (record_of names_ converters) (take (length (received s)) rows) (received s)
  /\ consumed [] content names_ converters i rows k s.
Proof.
  induction k as [|k IH]; intros i rows; cbn zeta.
  - cbn. split; [constructor|].
    apply consumed_running; cbn; try reflexivity.
    by rewrite Nat.add_0_r.
  - cbn [consume anext]. destruct rows as [|row rows].
    + cbn. split; [constructor|].
      apply consumed_exhausted; cbn; auto; lia.
    + rewrite rows_loop_cons.
      destruct (row_result converters row) as [vs|e] eqn:Hrow.
      * destruct (IH (S i) rows) as [Hrec Hst]. cbn zeta in Hrec, Hst.
        set (s := consume k (Suspended content names_ converters (S i) rows)) in *.
        cbn [received trace state gen length take].
        split.
        { constructor; [|exact Hrec]. split; [reflexivity | exact Hrow]. }
        destruct Hst as [H1 H2 H3 H4 | H1 H2 H3 H4 H5 | e row' H1 H2 H3 H4 H5 H6].
        -- apply consumed_running; cbn; auto.
           ++ by rewrite H3.
           ++ rewrite H4. f_equal. lia.
        -- apply consumed_exhausted; cbn; auto; try lia.
           by rewrite H4.
        -- apply consumed_failed with e row'; cbn; auto; try lia.
           by rewrite H5.
      * cbn. split; [constructor|].
        apply consumed_failed with e row; cbn; auto; try lia.
        by rewrite take_0, app_nil_r.
Qed.

(** ** The setup before the first row *)

Lemma columns_resolved_length types meta names_ type_strs converters :
  columns_resolved types meta names_ type_strs converters ->
  length names_ = length meta /\ length type_strs = length meta /\
  length converters = length meta.
Proof. induction 1; cbn; lia. Qed.

Lemma columns_loop_ok types meta : forall column names0 convs0 tr names_ converters,
  columns_loop types column meta names0 convs0 = (tr, Ok (names_, converters)) ->
  exists new_names type_strs new_convs,
    names_ = names0 ++ new_names /\ converters = convs0 ++ new_convs /\
    tr = parse_events column type_strs /\
    columns_resolved types meta new_names type_strs new_convs.
Proof.
  induction meta as [|col meta IH]; intros column names0 convs0 tr names_ converters H.
  - cbn in H. injection H as <- <- <-.
    exists [], [], []. rewrite !app_nil_r. repeat split. constructor.
  - cbn [columns_loop] in H. unfold bind, lift, emit in H.
    destruct (getitem col "name") as [name|] eqn:Hname; [|discriminate].
    destruct (getitem col "type") as [type_str|] eqn:Htype; [|discriminate].
    destruct (parse_type types type_str) as [type_obj|] eqn:Hparse; [|discriminate].
    destruct (getattr_from_json type_obj) as [conv|] eqn:Hconv; [|discriminate].
    destruct (columns_loop types (S column) meta (names0 ++ [name]) (convs0 ++ [conv]))
      as [tr' r] eqn:Hloop.
    cbn in H. injection H as <- ->.
    destruct (IH _ _ _ _ _ _ Hloop) as (ns & tss & cs & -> & -> & -> & Hres).
    exists (name :: ns), (type_str :: tss), (conv :: cs).
    rewrite <- !app_assoc. repeat split. econstructor; eauto.
Qed.

Lemma columns_loop_raise types meta : forall column names0 convs0 tr e,
  columns_loop types column meta names0 convs0 = (tr, Raise e) ->
  exists type_strs, tr = parse_events column type_strs.
Proof.
  induction meta as [|col meta IH]; intros column names0 convs0 tr e H.
  - discriminate.
  - cbn [columns_loop] in H. unfold bind, lift, emit in H.
    destruct (getitem col "name") as [name|]; [|injection H as <- _; by exists []].
    destruct (getitem col "type") as [type_str|]; [|injection H as <- _; by exists []].
    destruct (parse_type types type_str) as [type_obj|];
      [|injection H as <- _; by exists [type_str]].
    destruct (getattr_from_json type_obj) as [conv|];
      [|injection H as <- _; by exists [type_str]].
    destruct (columns_loop types (S column) meta (names0 ++ [name]) (convs0 ++ [conv]))
      as [tr' r] eqn:Hloop.
    cbn in H. injection H as <- ->.
    destruct (IH _ _ _ _ _ Hloop) as (tss & ->).
    by exists (type_str :: tss).
Qed.

Lemma setup_ok types body tr names_ converters rows :
  setup types body = (tr, Ok (names_, converters, rows)) ->
  exists type_strs,
    tr = EvLoads body :: parse_events 0 type_strs /\
    setup_done types body names_ converters rows type_strs.
Proof.
  unfold setup. intros H. unfold bind at 1 in H. cbn [emit] in H.
  unfold bind at 1, lift in H.
  destruct (Json.loads PStr body) as [response|] eqn:Hloads; [|discriminate].
  unfold bind at 1 in H.
  destruct (getitem response "meta") as [meta|] eqn:Hmeta; [|discriminate].
  unfold bind at 1 in H.
  destruct (py_iter meta) as [columns|] eqn:Hcols; [|discriminate].
  unfold bind at 1 in H.
  destruct (columns_loop types 0 columns [] []) as [tr1 [[ns cs]|]] eqn:Hloop;
    [|discriminate].
  unfold bind, ret in H.
  destruct (getitem response "data") as [data|] eqn:Hdata; [|discriminate].
  destruct (py_iter data) as [rows'|] eqn:Hrows; [|discriminate].
  cbn in H. injection H as <- <- <- <-.
  destruct (columns_loop_ok _ _ _ _ _ _ _ _ Hloop) as (nn & tss & cc & -> & -> & -> & Hres).
  exists tss. split.
  - cbn. by rewrite !app_nil_r.
  - cbn. econstructor; eauto.
Qed.

Lemma setup_raise types body tr e :
  setup types body = (tr, Raise e) ->
  exists type_strs, tr = EvLoads body :: parse_events 0 type_strs.
Proof.
  unfold setup. intros H. unfold bind at 1 in H. cbn [emit] in H.
  unfold bind at 1, lift in H.
  destruct (Json.loads PStr body) as [response|] eqn:Hloads;
    [|injection H as <- _; by exists []].
  unfold bind at 1 in H.
  destruct (getitem response "meta") as [meta|] eqn:Hmeta;
    [|injection H as <- _; by exists []].
  unfold bind at 1 in H.
  destruct (py_iter meta) as [columns|] eqn:Hcols;
    [|injection H as <- _; by exists []].
  unfold bind at 1 in H.
  destruct (columns_loop types 0 columns [] []) as [tr1 [[ns cs]|]] eqn:Hloop.
  - destruct (columns_loop_ok _ _ _ _ _ _ _ _ Hloop) as (nn & tss & cc & _ & _ & -> & _).
    unfold bind, ret in H.
    destruct (getitem response "data") as [data|] eqn:Hdata;
      [|cbn in H; injection H as <- _; exists tss; by rewrite ?app_nil_r].
    destruct (py_iter data) as [rows'|] eqn:Hrows; [discriminate|].
    cbn in H. injection H as <- _. exists tss. by rewrite ?app_nil_r.
  - destruct (columns_loop_raise _ _ _ _ _ _ _ Hloop) as (tss & ->).
    cbn in H. injection H as <- _. exists tss. by rewrite ?app_nil_r.
Qed.

(** ** A run from the start *)

Lemma consumed_prefix pre content names_ converters i rows k s s' :
  consumed [] content names_ converters i rows k s ->
  trace s' = pre ++ trace s ->
  received s' = received s ->
  state s' = state s ->
  gen s' = gen s ->
  consumed pre content names_ converters i rows k s'.
Proof.
  intros [H1 H2 H3 H4 | H1 H2 H3 H4 H5 | e row' H1 H2 H3 H4 H5 H6] Ht Hr Hs Hg.
  - apply consumed_running; try congruence. by rewrite Ht, H3.
  - apply consumed_exhausted; try congruence. by rewrite Ht, H4.
  - apply consumed_failed with e row'; try congruence. by rewrite Ht, Hr, H5.
Qed.

Lemma consume_created types content k :
  run types content (S k) (consume (S k) (parse_json_compact types content)).
Proof.
  unfold parse_json_compact. cbn [consume anext read].
  change {| chunks := [] |} with drained.
  destruct (setup types (body_of content)) as [tr [[[names_ converters] rows]|e]] eqn:Hsetup.
  - destruct (setup_ok _ _ _ _ _ _ Hsetup) as (type_strs & -> & Hdone).
    pose proof (consume_suspended drained names_ converters (S k) 0 rows) as Hs.
    cbn zeta in Hs. cbn [consume anext] in Hs.
    destruct (rows_loop drained names_ converters 0 rows) as [[tr' o] g'].
    destruct Hs as [Hrec Hcons].
    apply run_setup_done with names_ converters rows type_strs; auto.
    + destruct o; exact Hrec.
    + eapply consumed_prefix; [exact Hcons|..]; destruct o; cbn; try reflexivity;
        by rewrite <- ?app_assoc.
  - destruct (setup_raise _ _ _ _ Hsetup) as (type_strs & ->).
    apply run_setup_raised with e type_strs; auto.
Qed.

(** ** What a trace contains *)

Lemma parse_calls_app column tr1 tr2 :
  parse_calls column (tr1 ++ tr2) = parse_calls column tr1 + parse_calls column tr2.
Proof.
  induction tr1 as [|ev tr1 IH]; [reflexivity|].
  destruct ev; cbn; rewrite IH; lia.
Qed.

Lemma parse_calls_converts column tr :
  Forall (fun ev => is_convert ev = true) tr -> parse_calls column tr = 0.
Proof.
  induction 1 as [|ev tr Hev _ IH]; [reflexivity|].
  destruct ev; cbn in *; try discriminate. exact IH.
Qed.

Lemma parse_calls_parse_events column type_strs : forall first,
  parse_calls column (parse_events first type_strs)
  = if decide (first <= column < first + length type_strs) then 1 else 0.
Proof.
  induction type_strs as [|ts type_strs IH]; intros first; cbn.
  - case_decide; [lia | reflexivity].
  - rewrite IH. destruct (Nat.eqb_spec first column); repeat case_decide; lia.
Qed.

Lemma convert_trace_converts i j converters items :
  Forall (fun ev => is_convert ev = true) (convert_trace i j converters items).
Proof.
  revert j items.
  induction converters as [|conv converters IH]; intros j [|value items]; cbn;
    try constructor; [reflexivity|].
  destruct (conv value); [apply IH | constructor].
Qed.

Lemma rows_trace_converts converters rows : forall i,
  Forall (fun ev => is_convert ev = true) (rows_trace i converters rows).
Proof.
  induction rows as [|row rows IH]; intros i; cbn; [constructor|].
  apply Forall_app. split; [|apply IH].
  unfold row_trace. destruct (py_iter row); [apply convert_trace_converts | constructor].
Qed.

(** Every converter call in the rows' trace is for a cell of the data: the
    value at position [j] of row [i + n], under a column that exists. *)
Lemma rows_trace_events converters rows ev : forall i,
  ev ∈ rows_trace i converters rows ->
  exists n j row items value,
    ev = EvConvert (i + n) j value /\
    rows !! n = Some row /\ py_iter row = Ok items /\
    items !! j = Some value /\ j < length converters.
Proof.
  induction rows as [|row rows IH]; intros i H; cbn in H.
  - by apply elem_of_nil in H.
  - apply elem_of_app in H as [H|H].
    + unfold row_trace in H.
      destruct (py_iter row) as [items|] eqn:Hit; [|by apply elem_of_nil in H].
      destruct (convert_trace_events _ _ _ _ _ H) as (j & value & -> & ? & ?).
      exists 0, j, row, items, value. repeat split; auto. f_equal; lia.
    + destruct (IH _ H) as (n & j & r & items & value & -> & ? & ? & ? & ?).
      exists (S n), j, r, items, value. repeat split; auto. f_equal; lia.
Qed.

(** The trace of a consumed prefix of the rows, whatever ended it. *)
Lemma consumed_trace pre content names_ converters i rows k s :
  consumed pre content names_ converters i rows k s ->
  exists n, n <= k /\ trace s = pre ++ rows_trace i converters (take n rows).
Proof.
  intros [H1 H2 H3 H4 | H1 H2 H3 H4 H5 | e row' H1 H2 H3 H4 H5 H6].
  - exists k. auto.
  - exists (length rows). split; [lia|]. by rewrite firstn_all.
  - exists (S (length (received s))). split; [lia | auto].
Qed.

Lemma record_of_positional names_ converters row r :
  record_of names_ converters row r ->
  names r = names_ /\
  exists items, py_iter row = Ok items /\
    converted_positionally converters items (values r).
Proof.
  intros [Hn Hr]. split; [exact Hn|].
  unfold row_result in Hr.
  destruct (py_iter row) as [items|]; [|discriminate]. cbn in Hr.
  exists items. split; [reflexivity|]. by apply convert_values_ok.
Qed.

(** ** Columns once, then the rows in order *)

Lemma run_of_setup_ok types content k tr names_ converters rows :
  setup types (body_of content) = (tr, Ok (names_, converters, rows)) ->
  let s := consume (S k) (parse_json_compact types content) in
  exists type_strs,
    tr = EvLoads (body_of content) :: parse_events 0 type_strs /\
    setup_done types (body_of content) names_ converters rows type_strs /\
    Forall2 (record_of names_ converters)
      (take (length (received s)) rows) (received s) /\
    consumed (setup_trace (body_of content) type_strs) drained
      names_ converters 0 rows (S k) s.
Proof.
  intros Hsetup s. subst s.
  destruct (consume_created types content k)
    as [e tss Hs _ _ _ _ | ns cs rs tss Hs Hdone Hrec Hcons].
  - rewrite Hsetup in Hs. discriminate.
  - rewrite Hsetup in Hs. injection Hs as -> <- <- <-.
    exists tss. auto.
Qed.

Lemma converting_prefix_le converters rows :
  converting_prefix converters rows <= length rows.
Proof.
  induction rows as [|row rows IH]; cbn; [lia|].
  destruct (is_ok (row_result converters row)); lia.
Qed.

(** Rows that all convert are within the converting prefix. *)
Lemma converting_prefix_take converters rows : forall m recs,
  Forall2 (record_of recs.1 converters) (take m rows) recs.2 ->
  length recs.2 = m ->
  m <= converting_prefix converters rows.
Proof.
  induction rows as [|row rows IH]; intros [|m] recs H Hlen; cbn; try lia.
  - rewrite take_nil in H. apply Forall2_length in H. cbn in H. lia.
  - cbn in H. destruct recs as [ns [|r rs]]; cbn in *; [lia|].
    apply Forall2_cons in H as [[_ Hr] H]. rewrite Hr. cbn.
    specialize (IH m (ns, rs) H). cbn in IH. lia.
Qed.

(** The first row that does not convert ends the converting prefix. *)
Lemma converting_prefix_stop converters rows : forall m row e,
  rows !! m = Some row ->
  row_result converters row = Raise e ->
  converting_prefix converters rows <= m.
Proof.
  induction rows as [|r rows IH]; intros [|m] row e Hrow Hraise; cbn in *; try lia.
  - injection Hrow as ->. by rewrite Hraise.
  - destruct (is_ok (row_result converters r)); [|lia].
    specialize (IH m row e Hrow Hraise). lia.
Qed.

(** C1. For every response envelope whose setup completes, each column's
    type declaration goes through [parse_type] exactly once, giving one
    converter per column, and all of that precedes the first converter
    call; each row is then converted position by position with the
    column-aligned converters, and the consumer receives one Record per
    row, in the order of the data rows: as many Records as it asked for or,
    if they are fewer, as there are rows before the first that does not
    convert.  A request fails only on such a row, with that row's error;
    the rows after it are not touched. *)
Theorem C1_resolve_once_then_rows_in_order
    types content k tr names_ converters rows :
  setup types (body_of content) = (tr, Ok (names_, converters, rows)) ->
  let s := consume (S k) (parse_json_compact types content) in
  let p := converting_prefix converters rows in
  exists type_strs,
    setup_done types (body_of content) names_ converters rows type_strs /\
    length converters = length type_strs /\
    trace s = setup_trace (body_of content) type_strs
              ++ rows_trace 0 converters (take (min (S k) (S p)) rows) /\
    Forall (fun ev => is_convert ev = true)
      (rows_trace 0 converters (take (min (S k) (S p)) rows)) /\
    (forall column, column < length converters ->
       parse_calls column (trace s) = 1) /\
    length (received s) = min (S k) p /\
    Forall2 (fun row r =>
               names r = names_ /\
               exists items, py_iter row = Ok items /\
                 converted_positionally converters items (values r))
      (take (min (S k) p) rows) (received s) /\
    state s = state_after converters rows (S k).
Proof.
  intros Hsetup s p.
  destruct (run_of_setup_ok _ _ k _ _ _ _ Hsetup) as (type_strs & _ & Hdone & Hrec & Hcons).
  fold s in Hrec, Hcons.
  assert (Hlen : length converters = length type_strs).
  { destruct Hdone as [? ? ? ? _ _ _ Hres _ _].
    apply columns_resolved_length in Hres. lia. }
  pose proof (converting_prefix_le converters rows) as Hple. fold p in Hple.
  pose proof (converting_prefix_take converters rows (length (received s))
                (names_, received s) Hrec eq_refl) as Hge. fold p in Hge.
  pose proof (Forall2_length _ _ _ Hrec) as Hl. rewrite length_take in Hl.
  pose proof (converting_prefix_stop converters rows) as Hstop. fold p in Hstop.
  assert (Hafter : state_after converters rows (S k)
                   = if Nat.leb (S k) p then Running
                     else match rows !! p with
                          | None => Exhausted
                          | Some row =>
                              match row_result converters row with
                              | Raise e => Failed e
                              | Ok _ => Running
                              end
                          end) by reflexivity.
  clearbody p s.
  assert (Hshape :
    length (received s) = min (S k) p /\
    trace s = setup_trace (body_of content) type_strs
              ++ rows_trace 0 converters (take (min (S k) (S p)) rows) /\
    state s = state_after converters rows (S k)).
  { rewrite Hafter.
    destruct Hcons as [H1 H2 H3 H4 | H1 H2 H3 H4 H5 | e row' H1 H2 H3 H4 H5 H6].
    - rewrite H2 in Hge. split; [lia|]. split.
      + rewrite H3. by replace (min (S k) (S p)) with (S k) by lia.
      + rewrite H1. destruct (Nat.leb_spec (S k) p); [reflexivity | lia].
    - assert (Hp : p = length rows) by lia.
      split; [lia|]. split.
      + rewrite H4. f_equal. rewrite take_ge; [reflexivity | lia].
      + rewrite H1. destruct (Nat.leb_spec (S k) p); [lia|].
        rewrite Hp, lookup_ge_None_2; [reflexivity | lia].
    - specialize (Hstop _ _ _ H3 H4).
      assert (Hp : p = length (received s)) by lia.
      split; [lia|]. split.
      + rewrite H5. by replace (min (S k) (S p)) with (S (length (received s))) by lia.
      + rewrite H1. destruct (Nat.leb_spec (S k) p); [lia|].
        by rewrite Hp, H3, H4. }
  destruct Hshape as (Hcount & Htrace & Hstate).
  exists type_strs. repeat split; auto.
  - apply rows_trace_converts.
  - intros column Hcol. rewrite Htrace, parse_calls_app.
    rewrite (parse_calls_converts _ _ (rows_trace_converts _ _ _)).
    unfold setup_trace. cbn [parse_calls].
    rewrite parse_calls_parse_events. case_decide; lia.
  - rewrite <- Hcount. eapply Forall2_impl; [exact Hrec|].
    intros row r Hr. by apply record_of_positional.
Qed.

Example scenario_records :
  received (consume 3 (parse_json_compact SpecTypes.registry scenario))
  = [ {| names := [PStr "id"; PStr "tag"]; values := [PInt 1; PStr "x"] |};
      {| names := [PStr "id"; PStr "tag"]; values := [PInt 2; PNone] |} ].
Proof. vm_compute. reflexivity. Qed.

Lemma C1_witness :
  exists tr names_ converters rows,
    setup SpecTypes.registry (body_of scenario) = (tr, Ok (names_, converters, rows)) /\
    let s := consume 3 (parse_json_compact SpecTypes.registry scenario) in
    let p := converting_prefix converters rows in
    exists type_strs,
      setup_done SpecTypes.registry (body_of scenario) names_ converters rows type_strs /\
      length converters = length type_strs /\
      trace s = setup_trace (body_of scenario) type_strs
                ++ rows_trace 0 converters (take (min 3 (S p)) rows) /\
      Forall (fun ev => is_convert ev = true)
        (rows_trace 0 converters (take (min 3 (S p)) rows)) /\
      (forall column, column < length converters ->
         parse_calls column (trace s) = 1) /\
      length (received s) = min 3 p /\
      Forall2 (fun row r =>
                 names r = names_ /\
                 exists items, py_iter row = Ok items /\
                   converted_positionally converters items (values r))
        (take (min 3 p) rows) (received s) /\
      state s = state_after converters rows 3.
Proof.
  destruct (setup SpecTypes.registry (body_of scenario))
    as [tr [[[names_ converters] rows]|e]] eqn:Hsetup.
  - exists tr, names_, converters, rows. split; [reflexivity|].
    exact (C1_resolve_once_then_rows_in_order
             SpecTypes.registry scenario 2 tr names_ converters rows Hsetup).
  - exfalso. vm_compute in Hsetup. discriminate Hsetup.
Defined.

(** ** One more request *)

Lemma consume_unfold k g :
  consume (S k) g
  = match anext g with
    | (tr, Yield r, g') =>
        let s := consume k g' in
        {| trace := tr ++ trace s; received := r :: received s;
           state := state s; gen := gen s |}
    | (tr, StopAsyncIteration, g') =>
        {| trace := tr; received := []; state := Exhausted; gen := g' |}
    | (tr, Raised e, g') =>
        {| trace := tr; received := []; state := Failed e; gen := g' |}
    end.
Proof. reflexivity. Qed.

(** Asking for one record more repeats the shorter session and, if that one
    is still running, makes one further request. *)
Lemma consume_snoc k : forall g,
  consume (S k) g
  = match state (consume k g) with
    | Running => extend (consume k g) (anext (gen (consume k g)))
    | _ => consume k g
    end.
Proof.
  induction k as [|k IH]; intros g.
  - cbn. destruct (anext g) as [[tr [r| |e]] g']; cbn;
      by rewrite ?app_nil_r.
  - rewrite (consume_unfold (S k) g), (consume_unfold k g).
    destruct (anext g) as [[tr [r| |e]] g']; try reflexivity.
    cbn zeta. rewrite IH. cbn [state gen].
    destruct (state (consume k g')) eqn:Hst; cbn; rewrite ?Hst; try reflexivity.
    destruct (anext (gen (consume k g'))) as [[tr' [r'| |e']] g'']; cbn;
      by rewrite app_assoc.
Qed.

Lemma consume_snoc_app k g :
  exists tr recs,
    trace (consume (S k) g) = trace (consume k g) ++ tr /\
    received (consume (S k) g) = received (consume k g) ++ recs.
Proof.
  rewrite consume_snoc. destruct (state (consume k g)).
  - destruct (anext (gen (consume k g))) as [[tr [r| |e]] g']; cbn.
    + by exists tr, [r].
    + exists tr, []. by rewrite app_nil_r.
    + exists tr, []. by rewrite app_nil_r.
  - exists [], []. by rewrite !app_nil_r.
  - exists [], []. by rewrite !app_nil_r.
Qed.

(** What a consumer has seen and holds only grows with further requests. *)
Lemma consume_prefix g k k' :
  k <= k' ->
  trace (consume k g) `prefix_of` trace (consume k' g) /\
  received (consume k g) `prefix_of` received (consume k' g).
Proof.
  induction 1 as [|k' _ [IHt IHr]]; [split; reflexivity|].
  destruct (consume_snoc_app k' g) as (tr & recs & -> & ->).
  split; by apply prefix_app_r.
Qed.

Lemma parse_events_no_convert type_strs : forall first,
  Forall (fun ev => is_convert ev = false) (parse_events first type_strs).
Proof.
  induction type_strs as [|ts type_strs IH]; intros first; cbn; constructor;
    [reflexivity | apply IH].
Qed.

Lemma setup_trace_no_convert body type_strs :
  Forall (fun ev => is_convert ev = false) (setup_trace body type_strs).
Proof.
  unfold setup_trace. repeat constructor. apply parse_events_no_convert.
Qed.

(** After [k] requests only values of the first [k] rows have been handed to
    a converter. *)
Lemma converted_rows_bound types content k i j v :
  EvConvert i j v ∈ trace (consume k (parse_json_compact types content)) ->
  i < k.
Proof.
  destruct k as [|k]; [intros H; by apply elem_of_nil in H|].
  intros H.
  destruct (consume_created types content k)
    as [e tss _ Htr _ _ _ | ns cs rs tss _ _ _ Hcons].
  - rewrite Htr in H.
    pose proof (setup_trace_no_convert (body_of content) tss) as Hno.
    rewrite Forall_forall in Hno. by specialize (Hno _ H).
  - destruct (consumed_trace _ _ _ _ _ _ _ _ Hcons) as (n & Hn & Htr).
    rewrite Htr in H. apply elem_of_app in H as [H|H].
    + pose proof (setup_trace_no_convert (body_of content) tss) as Hno.
      rewrite Forall_forall in Hno. by specialize (Hno _ H).
    + destruct (rows_trace_events _ _ _ _ H) as (m & j' & row & items & v' & Heq & Hm & _).
      injection Heq as -> _ _.
      apply lookup_lt_Some in Hm. rewrite length_take in Hm. lia.
Qed.

(** A request after the first converts the values of one row, the next. *)
Lemma later_request types content k :
  let g := parse_json_compact types content in
  exists tr,
    trace (consume (S (S k)) g) = trace (consume (S k) g) ++ tr /\
    forall ev, ev ∈ tr -> exists j v, ev = EvConvert (S k) j v.
Proof.
  cbn zeta. rewrite (consume_snoc (S k)).
  destruct (state (consume (S k) (parse_json_compact types content))) eqn:Hst.
  - destruct (consume_created types content k)
      as [e tss _ _ _ Hf _ | ns cs rs tss _ _ _ Hcons]; [congruence|].
    destruct Hcons as [H1 H2 H3 H4 | H1 H2 H3 H4 H5 | e row' H1 H2 H3 H4 H5 H6];
      try congruence.
    rewrite H4. cbn [anext].
    destruct (drop (S k) rs) as [|row rows'].
    + cbn. exists []. split; [reflexivity|]. intros ev Hev. by apply elem_of_nil in Hev.
    + rewrite rows_loop_cons.
      assert (Hev : forall ev, ev ∈ row_trace (0 + S k) cs row ->
                               exists j v, ev = EvConvert (S k) j v).
      { intros ev Hev. unfold row_trace in Hev.
        destruct (py_iter row); [|by apply elem_of_nil in Hev].
        destruct (convert_trace_events _ _ _ _ _ Hev) as (j & v & -> & _).
        by exists (0 + j), v. }
      destruct (row_result cs row); cbn; eauto.
  - exists []. split; [by rewrite app_nil_r|]. intros ev Hev. by apply elem_of_nil in Hev.
  - exists []. split; [by rewrite app_nil_r|]. intros ev Hev. by apply elem_of_nil in Hev.
Qed.

(** C4. The Record sequence is lazy with an eager setup.  Building the
    generator runs nothing; the first request reads, loads and resolves
    every column before it emits a Record, and a failure of that setup is
    raised by this first request with no Record emitted; every later request
    converts the values of the next row only.  So a consumer that has asked
    for [k] records has caused no value of a row after them to be
    converted. *)
Theorem C4_lazy_rows_after_eager_setup types content k :
  let g := parse_json_compact types content in
  trace (consume 0 g) = [] /\
  (forall tr e,
     setup types (body_of content) = (tr, Raise e) ->
     trace (consume (S k) g) = EvRead (body_of content) :: tr /\
     received (consume (S k) g) = [] /\
     state (consume (S k) g) = Failed e) /\
  (exists rest,
     trace (consume (S k) g) = trace (consume 1 g) ++ rest /\
     Forall (fun ev => is_convert ev = true) rest) /\
  (exists tr,
     trace (consume (S (S k)) g) = trace (consume (S k) g) ++ tr /\
     forall ev, ev ∈ tr -> exists j v, ev = EvConvert (S k) j v) /\
  (forall i j v, EvConvert i j v ∈ trace (consume k g) -> i < k).
Proof.
  cbn zeta. split; [reflexivity|]. split; [|split; [|split]].
  - intros tr e Hsetup.
    destruct (consume_created types content k)
      as [e' tss Hs Htr Hr Hf _ | ns cs rs tss Hs _ _ _].
    + rewrite Hsetup in Hs. injection Hs as -> ->. auto.
    + rewrite Hsetup in Hs. discriminate.
  - induction k as [|k (rest & IHt & IHc)].
    + exists []. split; [by rewrite app_nil_r | constructor].
    + destruct (later_request types content k) as (tr & Htr & Hev).
      cbn zeta in Htr. exists (rest ++ tr). split.
      * by rewrite Htr, IHt, app_assoc.
      * apply Forall_app. split; [exact IHc|].
        apply Forall_forall. intros ev Hin.
        by destruct (Hev _ Hin) as (j & v & ->).
  - apply later_request.
  - apply converted_rows_bound.
Qed.

(** The first request on the scenario: the whole setup and the first row,
    the second row untouched. *)
Example scenario_first_request :
  consume 1 (parse_json_compact SpecTypes.registry scenario)
  = {| trace :=
         [EvRead (body_of scenario); EvLoads (body_of scenario);
          EvParseType 0 (PStr "UInt8"); EvParseType 1 (PStr "Nullable(String)");
          EvConvert 0 0 (PInt 1); EvConvert 0 1 (PStr "x")];
       received :=
         [ {| names := [PStr "id"; PStr "tag"]; values := [PInt 1; PStr "x"] |} ];
       state := Running;
       gen := Suspended drained [PStr "id"; PStr "tag"]
                [SpecTypes.UInt8_from_json;
                 SpecTypes.Nullable_from_json SpecTypes.String_from_json]
                1 [PList [PInt 2; PNone]] |}.
Proof. vm_compute. reflexivity. Qed.

(** ** Invariants of a session *)

Lemma anext_not_yield_closed g tr o g' :
  anext g = (tr, o, g') ->
  (forall r, o <> Yield r) ->
  g' = Closed.
Proof.
  assert (Hloop : forall c n cs i rows tr o g',
             rows_loop c n cs i rows = (tr, o, g') ->
             (forall r, o <> Yield r) -> g' = Closed).
  { intros c n cs i [|row rows] tr0 o0 g0 H Hny.
    - cbn in H. by injection H as _ _ <-.
    - rewrite rows_loop_cons in H.
      destruct (row_result cs row); injection H as _ <- <-; [|reflexivity].
      by destruct (Hny _ eq_refl). }
  destruct g as [types content|c n cs i rows|]; cbn [anext read].
  - destruct (setup types (body_of content)) as [tr0 [[[n cs] rows]|e]].
    + destruct (rows_loop _ n cs 0 rows) as [[tr1 o1] g1] eqn:Hl.
      intros H Hny. injection H as _ <- <-. eapply Hloop; eauto.
    + intros H _. by injection H as _ _ <-.
  - apply Hloop.
  - intros H _. by injection H as _ _ <-.
Qed.

(** A running consumer holds as many records as it asked for; one that was
    stopped holds fewer, and its generator is finished. *)
Lemma consume_length g k :
  match state (consume k g) with
  | Running => length (received (consume k g)) = k
  | _ => length (received (consume k g)) < k /\ gen (consume k g) = Closed
  end.
Proof.
  induction k as [|k IH]; [reflexivity|].
  rewrite consume_snoc.
  destruct (state (consume k g)) eqn:Hst.
  - destruct (anext (gen (consume k g))) as [[tr [r| |e]] g'] eqn:Hnext; cbn.
    + rewrite length_app. cbn. lia.
    + split; [lia|]. eapply anext_not_yield_closed; eauto; discriminate.
    + split; [lia|]. eapply anext_not_yield_closed; eauto; discriminate.
  - rewrite Hst. destruct IH. split; [lia | auto].
  - rewrite Hst. destruct IH. split; [lia | auto].
Qed.

(** Once stopped, further requests change nothing. *)
Lemma consume_stable g m k :
  state (consume m g) <> Running -> m <= k -> consume k g = consume m g.
Proof.
  intros Hst. induction 1 as [|k _ IH]; [reflexivity|].
  rewrite consume_snoc, IH. by destruct (state (consume m g)).
Qed.

Lemma parse_events_no_io type_strs : forall first,
  Forall (fun ev => is_io ev = false) (parse_events first type_strs).
Proof.
  induction type_strs as [|ts type_strs IH]; intros first; cbn; constructor;
    [reflexivity | apply IH].
Qed.

Lemma rows_trace_no_io converters rows i :
  Forall (fun ev => is_io ev = false) (rows_trace i converters rows).
Proof.
  eapply Forall_impl; [apply rows_trace_converts|].
  intros [] H; cbn in H; try discriminate. reflexivity.
Qed.

(** C5. No Record is produced before the whole payload has been read and
    parsed: whenever the consumer holds a Record, the trace begins with the
    read of the entire body, up to the end of the stream, and the JSON
    parse of exactly that body, which succeeded; nothing is read or parsed
    afterwards, and the stream of a suspended generator is at its end. *)
Theorem C5_body_buffered_before_first_record types content k :
  let s := consume k (parse_json_compact types content) in
  received s <> [] ->
  exists response rest,
    trace s = EvRead (body_of content) :: EvLoads (body_of content) :: rest /\
    body_of content = fold_right String.append EmptyString (chunks content) /\
    Json.loads PStr (body_of content) = Ok response /\
    Forall (fun ev => is_io ev = false) rest /\
    forall c n cs i rows, gen s = Suspended c n cs i rows -> at_eof c.
Proof.
  cbn zeta. destruct k as [|k]; [intros H; by destruct H|].
  intros Hrec.
  destruct (consume_created types content k)
    as [e tss _ _ Hr _ _ | ns cs rs tss _ Hdone _ Hcons]; [congruence|].
  destruct Hdone as [response meta columns data Hloads _ _ _ _ _].
  destruct (consumed_trace _ _ _ _ _ _ _ _ Hcons) as (n & _ & Htr).
  exists response, (parse_events 0 tss ++ rows_trace 0 cs (take n rs)).
  repeat split; auto.
  - apply Forall_app. split; [apply parse_events_no_io | apply rows_trace_no_io].
  - intros c n' cs' i rows Hgen.
    destruct Hcons as [H1 H2 H3 H4 | H1 H2 H3 H4 H5 | e row' H1 H2 H3 H4 H5 H6];
      try congruence.
    rewrite H4 in Hgen. injection Hgen as <- _ _ _ _. reflexivity.
Qed.

Lemma C5_witness :
  let s := consume 1 (parse_json_compact SpecTypes.registry scenario) in
  received s <> [] /\
  exists response rest,
    trace s = EvRead (body_of scenario) :: EvLoads (body_of scenario) :: rest /\
    body_of scenario = fold_right String.append EmptyString (chunks scenario) /\
    Json.loads PStr (body_of scenario) = Ok response /\
    Forall (fun ev => is_io ev = false) rest /\
    forall c n cs i rows, gen s = Suspended c n cs i rows -> at_eof c.
Proof.
  assert (H : received (consume 1 (parse_json_compact SpecTypes.registry scenario)) <> []).
  { vm_compute. discriminate. }
  split; [exact H|].
  exact (C5_body_buffered_before_first_record SpecTypes.registry scenario 1 H).
Defined.

(** A consumer whose request is answered by an exception holds [n] records,
    fewer than it asked for: the records it held, the generator then still
    running, after [n] requests; and the generator is finished. *)
Lemma failed_session_keeps_records types content k e :
  let g := parse_json_compact types content in
  let s := consume k g in
  state s = Failed e ->
  let n := length (received s) in
  n < k /\
  state (consume n g) = Running /\
  received (consume n g) = received s /\
  (forall i r, i < n ->
     received (consume (S i) g) !! i = Some r -> received s !! i = Some r) /\
  gen s = Closed.
Proof.
  cbn zeta. intros Hst.
  set (g := parse_json_compact types content) in *.
  set (n := length (received (consume k g))).
  pose proof (consume_length g k) as Hk. rewrite Hst in Hk. destruct Hk as [Hlt Hgen].
  fold n in Hlt.
  assert (Hrun : state (consume n g) = Running).
  { destruct (state (consume n g)) eqn:Hn; [reflexivity|..].
    - assert (Hs : consume k g = consume n g)
        by (apply consume_stable; [congruence | lia]).
      pose proof (consume_length g n) as Hl. rewrite Hn in Hl.
      rewrite <- Hs in Hl. fold n in Hl. lia.
    - assert (Hs : consume k g = consume n g)
        by (apply consume_stable; [congruence | lia]).
      pose proof (consume_length g n) as Hl. rewrite Hn in Hl.
      rewrite <- Hs in Hl. fold n in Hl. lia. }
  assert (Heq : received (consume n g) = received (consume k g)).
  { pose proof (consume_length g n) as Hl. rewrite Hrun in Hl.
    destruct (consume_prefix g n k ltac:(lia)) as [_ [rest Hrest]].
    assert (length rest = 0).
    { apply (f_equal length) in Hrest. rewrite length_app in Hrest.
      fold n in Hrest. lia. }
    destruct rest; [|discriminate]. by rewrite app_nil_r in Hrest. }
  repeat split; auto.
  intros i r Hi Hr.
  destruct (consume_prefix g (S i) k ltac:(lia)) as [_ [rest Hrest]].
  rewrite Hrest. by apply lookup_app_l_Some.
Qed.

(** ** The list objects of a run *)

Lemma view_prefix h h' r rec :
  Shared.view h r = Some rec -> h `prefix_of` h' -> Shared.view h' r = Some rec.
Proof.
  unfold Shared.view, Shared.store in *. intros Hv Hp.
  destruct (h !! Shared.names_at r) as [ns|] eqn:Hn; [|discriminate].
  destruct (h !! Shared.values_at r) as [vs|] eqn:Hvs; [|discriminate].
  by rewrite (prefix_lookup_Some _ _ _ _ Hn Hp), (prefix_lookup_Some _ _ _ _ Hvs Hp).
Qed.

Lemma list_append_last h ns v :
  Shared.list_append (length h) v (h ++ [ns]) = h ++ [ns ++ [v]].
Proof.
  unfold Shared.list_append, Shared.store.
  rewrite lookup_app_r, Nat.sub_diag by lia. cbn.
  rewrite insert_app_r_alt, Nat.sub_diag by lia. reflexivity.
Qed.

(** The loop over the columns changes the object [names] and nothing else;
    it does what the loop over values does. *)
Lemma columns_loop_shared types meta : forall column h ns convs,
  exists ns',
    Shared.columns_loop types column meta (length h) convs (h ++ [ns])
    = ((columns_loop types column meta ns convs).1, h ++ [ns'],
       match (columns_loop types column meta ns convs).2 with
       | Ok (_, converters) => Ok converters
       | Raise e => Raise e
       end) /\
    forall names_ converters,
      (columns_loop types column meta ns convs).2 = Ok (names_, converters) ->
      ns' = names_.
Proof.
  induction meta as [|col meta IH]; intros column h ns convs.
  - exists ns. split; [reflexivity|]. cbn. by intros ? ? [= <- _].
  - cbn [Shared.columns_loop columns_loop]. unfold bind, lift, emit.
    destruct (getitem col "name") as [name|e]; cbn.
    2: { exists ns. split; [reflexivity | discriminate]. }
    rewrite list_append_last.
    destruct (getitem col "type") as [type_str|e]; cbn.
    2: { exists (ns ++ [name]). split; [reflexivity | discriminate]. }
    destruct (parse_type types type_str) as [type_obj|e]; cbn.
    2: { exists (ns ++ [name]). split; [reflexivity | discriminate]. }
    destruct (getattr_from_json type_obj) as [conv|e]; cbn.
    2: { exists (ns ++ [name]). split; [reflexivity | discriminate]. }
    destruct (IH (S column) h (ns ++ [name]) (convs ++ [conv])) as (ns' & Heq & Hok).
    rewrite Heq.
    destruct (columns_loop types (S column) meta (ns ++ [name]) (convs ++ [conv]))
      as [tr r]. cbn in *.
    exists ns'. split; [reflexivity|]. exact Hok.
Qed.

(** The setup over the store: what the setup over values does, with the
    names in a new object; the objects there were are as they were. *)
Lemma setup_shared types body h :
  match setup types body with
  | (tr, Ok (names_, converters, rows)) =>
      Shared.setup types body h = (tr, h ++ [names_], Ok (length h, converters, rows))
  | (tr, Raise e) =>
      exists h', Shared.setup types body h = (tr, h', Raise e) /\ h `prefix_of` h'
  end.
Proof.
  unfold Shared.setup, setup, bind, lift, emit, ret, Shared.new_list.
  destruct (Json.loads PStr body) as [response|e]; cbn.
  2: { by exists h. }
  destruct (getitem response "meta") as [meta|e]; cbn.
  2: { eexists. split; [reflexivity | by apply prefix_app_r]. }
  destruct (py_iter meta) as [columns|e]; cbn.
  2: { eexists. split; [reflexivity | by apply prefix_app_r]. }
  destruct (columns_loop_shared types columns 0 h [] []) as (ns' & Heq & Hok).
  rewrite Heq.
  destruct (columns_loop types 0 columns [] []) as [tr [[ns cs]|e]]; cbn in *.
  2: { eexists. rewrite ?app_nil_r. split; [reflexivity | by apply prefix_app_r]. }
  rewrite (Hok _ _ eq_refl).
  destruct (getitem response "data") as [data|e]; cbn.
  2: { eexists. rewrite ?app_nil_r. split; [reflexivity | by apply prefix_app_r]. }
  destruct (py_iter data) as [rows|e]; cbn.
  2: { eexists. rewrite ?app_nil_r. split; [reflexivity | by apply prefix_app_r]. }
  by rewrite ?app_nil_r.
Qed.

Lemma shared_rows_loop_cons content a converters i row rows h :
  Shared.rows_loop content a converters i (row :: rows) h
  = match row_result converters row with
    | Ok vs =>
        (row_trace i converters row,
         Shared.Yield {| Shared.names_at := a; Shared.values_at := length h |},
         Shared.Suspended content a converters (S i) rows, h ++ [vs])
    | Raise e => (row_trace i converters row, Shared.Raised e, Shared.Closed, h)
    end.
Proof.
  unfold Shared.rows_loop, Shared.new_list, row_result, row_trace, bind, lift.
  destruct (py_iter row) as [items|e]; cbn; [|reflexivity].
  rewrite convert_row_split.
  destruct (convert_values converters items); reflexivity.
Qed.

(** One turn of the loop over the rows: what the loop over values does, the
    Record built with the object [names] and a new list; the objects there
    were are as they were. *)
Lemma rows_loop_shared content a names_ converters i rows h :
  h !! a = Some names_ ->
  exists h',
    (Shared.rows_loop content a converters i rows h).2 = h' /\
    h `prefix_of` h' /\
    (Shared.rows_loop content a converters i rows h).1.1.1
    = (rows_loop content names_ converters i rows).1.1 /\
    reads_as h' (Shared.rows_loop content a converters i rows h).1.1.2
      (rows_loop content names_ converters i rows).1.2 /\
    stands_as h' (Shared.rows_loop content a converters i rows h).1.2
      (rows_loop content names_ converters i rows).2.
Proof.
  intros Ha. destruct rows as [|r rows].
  { exists h. by repeat split. }
  rewrite shared_rows_loop_cons, rows_loop_cons.
  destruct (row_result converters r) as [vs|e]; cbn.
  - exists (h ++ [vs]). split; [reflexivity|]. split; [by apply prefix_app_r|].
    split; [reflexivity|]. split.
    + unfold Shared.view, Shared.store in *. cbn.
      rewrite (lookup_app_l_Some _ _ _ _ Ha).
      by rewrite lookup_app_r, Nat.sub_diag by lia.
    + repeat split. unfold Shared.store in *. by apply lookup_app_l_Some.
  - exists h. by repeat split.
Qed.

(** One request: the objects there were are as they were, and the answer
    reads as the answer over values. *)
Lemma anext_shared g gp h :
  stands_as h g gp ->
  exists h',
    (Shared.anext g h).2 = h' /\
    h `prefix_of` h' /\
    (Shared.anext g h).1.1.1 = (anext gp).1.1 /\
    reads_as h' (Shared.anext g h).1.1.2 (anext gp).1.2 /\
    stands_as h' (Shared.anext g h).1.2 (anext gp).2.
Proof.
  destruct g as [types content|content a converters i rows|];
    destruct gp as [types' content'|content' names_ converters' i' rows'|];
    cbn [stands_as]; try (intros []; fail).
  - intros [<- <-]. cbn [Shared.anext anext read].
    pose proof (setup_shared types (body_of content) h) as Hs.
    destruct (setup types (body_of content)) as [tr [[[names_ converters] rows]|e]].
    + rewrite Hs.
      assert (Ha : (h ++ [names_]) !! length h = Some names_).
      { by rewrite lookup_app_r, Nat.sub_diag by lia. }
      destruct (rows_loop_shared {| chunks := [] |} (length h) names_ converters 0 rows
                  (h ++ [names_]) Ha) as (h' & Hh & Hp & Ht & Ho & Hg).
      destruct (Shared.rows_loop _ (length h) converters 0 rows (h ++ [names_]))
        as [[[tr1 o1] g1] h1].
      destruct (rows_loop _ names_ converters 0 rows) as [[tr2 o2] g2].
      cbn in *. subst h1 tr2. exists h'. repeat split; auto.
      etrans; [|exact Hp]. by apply prefix_app_r.
    + destruct Hs as (h' & -> & Hp). cbn. exists h'. by repeat split.
  - intros (<- & <- & <- & <- & Ha). cbn [Shared.anext anext].
    by apply rows_loop_shared.
  - intros _. cbn. exists h. by repeat split.
Qed.

Lemma rows_loop_keeps content a converters i rows h :
  h `prefix_of` (Shared.rows_loop content a converters i rows h).2.
Proof.
  destruct rows as [|r rows]; [reflexivity|].
  rewrite shared_rows_loop_cons.
  destruct (row_result converters r); cbn; [by apply prefix_app_r | reflexivity].
Qed.

(** No request changes an object that exists when it is made. *)
Lemma anext_keeps g h : h `prefix_of` (Shared.anext g h).2.
Proof.
  destruct g as [types content|content a converters i rows|]; cbn [Shared.anext read].
  - pose proof (setup_shared types (body_of content) h) as Hs.
    destruct (setup types (body_of content)) as [tr [[[names_ converters] rows]|e]].
    + rewrite Hs.
      pose proof (rows_loop_keeps {| chunks := [] |} (length h) converters 0 rows
                    (h ++ [names_])) as Hk.
      destruct (Shared.rows_loop _ (length h) converters 0 rows (h ++ [names_]))
        as [[[tr1 o1] g1] h1].
      cbn in *. etrans; [|exact Hk]. by apply prefix_app_r.
    + by destruct Hs as (h' & -> & Hp).
  - apply rows_loop_keeps.
  - reflexivity.
Qed.

Lemma shared_consume_unfold k g h :
  Shared.consume (S k) g h
  = match Shared.anext g h with
    | (tr, Shared.Yield r, g', h') =>
        let s := Shared.consume k g' h' in
        {| Shared.trace := tr ++ Shared.trace s;
           Shared.received := r :: Shared.received s;
           Shared.state := Shared.state s; Shared.gen := Shared.gen s;
           Shared.objects := Shared.objects s |}
    | (tr, Shared.StopAsyncIteration, g', h') =>
        {| Shared.trace := tr; Shared.received := []; Shared.state := Exhausted;
           Shared.gen := g'; Shared.objects := h' |}
    | (tr, Shared.Raised e, g', h') =>
        {| Shared.trace := tr; Shared.received := []; Shared.state := Failed e;
           Shared.gen := g'; Shared.objects := h' |}
    end.
Proof. reflexivity. Qed.

Lemma consume_keeps k : forall g h,
  h `prefix_of` Shared.objects (Shared.consume k g h).
Proof.
  induction k as [|k IH]; intros g h; [reflexivity|].
  rewrite shared_consume_unfold.
  pose proof (anext_keeps g h) as Hk.
  destruct (Shared.anext g h) as [[[tr [r| |e]] g'] h']; cbn in *; auto.
  etrans; [exact Hk | apply IH].
Qed.

(** What a consumer holds, and the objects there are, only grow with
    further requests: no object is changed once a request has returned. *)
Lemma consume_grows k : forall k' g h,
  k <= k' ->
  Shared.received (Shared.consume k g h)
    `prefix_of` Shared.received (Shared.consume k' g h) /\
  Shared.objects (Shared.consume k g h)
    `prefix_of` Shared.objects (Shared.consume k' g h).
Proof.
  induction k as [|k IH]; intros k' g h Hle.
  - split; [apply prefix_nil | apply consume_keeps].
  - destruct k' as [|k']; [lia|].
    rewrite !shared_consume_unfold.
    destruct (Shared.anext g h) as [[[tr [r| |e]] g'] h']; cbn; [|by split..].
    destruct (IH k' g' h' ltac:(lia)) as [Hr Ho].
    split; [by apply prefix_cons | exact Ho].
Qed.

(** The run over the store is the run over values: same steps, same end,
    and each Record object reads, when the run ends, as the Record the run
    over values yielded. *)
Lemma consume_shared k : forall g gp h,
  stands_as h g gp ->
  let s := Shared.consume k g h in
  let sp := consume k gp in
  Shared.trace s = trace sp /\
  Shared.state s = state sp /\
  Forall2 (fun r rec => Shared.view (Shared.objects s) r = Some rec)
    (Shared.received s) (received sp) /\
  stands_as (Shared.objects s) (Shared.gen s) (gen sp).
Proof.
  induction k as [|k IH]; intros g gp h Hg; cbn zeta.
  - cbn. repeat split; auto.
  - rewrite shared_consume_unfold, consume_unfold.
    destruct (anext_shared g gp h Hg) as (h1 & Hh & Hp & Ht & Ho & Hg').
    destruct (Shared.anext g h) as [[[tr o] g'] h'].
    destruct (anext gp) as [[trp op] gp'].
    cbn in Hh, Ht, Ho, Hg'. subst h1 trp.
    destruct o as [r| |e], op as [rec| |e']; cbn in Ho; try contradiction.
    + destruct (IH g' gp' h' Hg') as (IHt & IHs & IHr & IHg). cbn zeta in *.
      cbn. repeat split; auto; [by rewrite IHt|].
      constructor; [|exact IHr].
      eapply view_prefix; [exact Ho | apply consume_keeps].
    + cbn. repeat split; auto.
    + subst e'. cbn. repeat split; auto.
Qed.

(** Every Record of a run is built with the one object [names]. *)
Lemma suspended_records_share_names k : forall content a converters i rows h,
  Forall (fun r => Shared.names_at r = a)
    (Shared.received (Shared.consume k (Shared.Suspended content a converters i rows) h)).
Proof.
  induction k as [|k IH]; intros content a converters i rows h; [constructor|].
  rewrite shared_consume_unfold. cbn [Shared.anext].
  destruct rows as [|row rows]; [constructor|].
  rewrite shared_rows_loop_cons.
  destruct (row_result converters row); cbn; constructor; [reflexivity | apply IH].
Qed.

Lemma records_share_names k types content h :
  Forall (fun r => Shared.names_at r = length h)
    (Shared.received (Shared.consume k (Shared.parse_json_compact types content) h)).
Proof.
  destruct k as [|k]; [constructor|].
  rewrite shared_consume_unfold. unfold Shared.parse_json_compact.
  cbn [Shared.anext read].
  pose proof (setup_shared types (body_of content) h) as Hs.
  destruct (setup types (body_of content)) as [tr [[[names_ converters] rows]|e]].
  - rewrite Hs.
    destruct rows as [|row rows]; [constructor|].
    rewrite shared_rows_loop_cons.
    destruct (row_result converters row); cbn; constructor;
      [reflexivity | apply suspended_records_share_names].
  - destruct Hs as (h' & -> & _). constructor.
Qed.

(** C9. A failure on a later row does not take back what was yielded.  When
    the consumer's request is answered by an exception, it holds [n] Record
    objects and [n] is smaller than the number it asked for; these are the
    objects it held, the generator then still running, after [n] requests.
    Each of them was built with the one list object [names] and reads, after
    the failure, exactly as it read when it was yielded: as the Record of
    its row.  The objects the caller had before are as they were, and the
    generator is finished. *)
Theorem C9_yielded_records_survive_later_failure types content h k e :
  let g := Shared.parse_json_compact types content in
  let s := Shared.consume k g h in
  Shared.state s = Failed e ->
  let n := length (Shared.received s) in
  n < k /\
  Shared.state (Shared.consume n g h) = Running /\
  Shared.received (Shared.consume n g h) = Shared.received s /\
  (forall i r, Shared.received s !! i = Some r ->
     Shared.names_at r = length h /\
     exists rec,
       received (consume (S i) (parse_json_compact types content)) !! i = Some rec /\
       Shared.received (Shared.consume (S i) g h) !! i = Some r /\
       Shared.view (Shared.objects (Shared.consume (S i) g h)) r = Some rec /\
       Shared.view (Shared.objects s) r = Some rec) /\
  h `prefix_of` Shared.objects s /\
  Shared.gen s = Shared.Closed.
Proof.
  cbn zeta. intros Hst.
  set (g := Shared.parse_json_compact types content) in *.
  set (gp := parse_json_compact types content).
  assert (Hg : stands_as h g gp) by (by split).
  pose proof (fun m => consume_shared m g gp h Hg) as Hsim. cbn zeta in Hsim.
  destruct (Hsim k) as (_ & Hstk & Hrk & Hgk).
  rewrite Hst in Hstk. symmetry in Hstk.
  destruct (failed_session_keeps_records types content k e Hstk)
    as (Hlt & Hrun & Heq & _ & Hclosed).
  fold gp in Hlt, Hrun, Heq, Hclosed.
  pose proof (Forall2_length _ _ _ Hrk) as Hlen.
  rewrite <- Hlen in Hlt, Hrun, Heq.
  set (n := length (Shared.received (Shared.consume k g h))) in *.
  split; [exact Hlt|]. split.
  { destruct (Hsim n) as (_ & -> & _). exact Hrun. }
  split.
  { destruct (consume_grows n k g h ltac:(lia)) as [[rest Hrest] _].
    destruct (Hsim n) as (_ & _ & Hrn & _).
    apply Forall2_length in Hrn. rewrite Heq, <- Hlen in Hrn. fold n in Hrn.
    assert (length rest = 0).
    { apply (f_equal length) in Hrest. rewrite length_app in Hrest.
      fold n in Hrest. lia. }
    destruct rest; [|discriminate]. by rewrite app_nil_r in Hrest. }
  split; [|split].
  - intros i r Hi.
    split.
    { pose proof (records_share_names k types content h) as Hall.
      rewrite Forall_forall in Hall. apply Hall.
      by eapply list_elem_of_lookup_2. }
    assert (Hin : i < n) by (by apply lookup_lt_Some in Hi).
    destruct (consume_grows (S i) k g h ltac:(lia)) as [Hpr Hpo].
    destruct (Hsim (S i)) as (_ & Hsti & Hri & _).
    assert (Hruni : state (consume (S i) gp) = Running).
    { destruct (state (consume (S i) gp)) eqn:Hs; [reflexivity|..].
      - assert (Hk : consume k gp = consume (S i) gp)
          by (apply consume_stable; [congruence | lia]).
        pose proof (consume_length gp (S i)) as Hl. rewrite Hs in Hl.
        rewrite <- Hk, <- Hlen in Hl. fold n in Hl. lia.
      - assert (Hk : consume k gp = consume (S i) gp)
          by (apply consume_stable; [congruence | lia]).
        pose proof (consume_length gp (S i)) as Hl. rewrite Hs in Hl.
        rewrite <- Hk, <- Hlen in Hl. fold n in Hl. lia. }
    pose proof (consume_length gp (S i)) as Hl. rewrite Hruni in Hl.
    pose proof (Forall2_length _ _ _ Hri) as Hli. rewrite Hl in Hli.
    destruct (lookup_lt_is_Some_2 (Shared.received (Shared.consume (S i) g h)) i
                ltac:(lia)) as [r' Hr'].
    assert (r' = r) as ->.
    { pose proof (prefix_lookup_Some _ _ _ _ Hr' Hpr) as Hr''. congruence. }
    destruct (Forall2_lookup_l _ _ _ _ _ Hri Hr') as (rec & Hrec & Hview).
    exists rec. repeat split; auto.
    eapply view_prefix; eauto.
  - apply consume_keeps.
  - rewrite Hclosed in Hgk. by destruct (Shared.gen (Shared.consume k g h)).
Qed.

Lemma C9_witness :
  let g := Shared.parse_json_compact SpecTypes.registry failing in
  let h := [[PStr "kept by the caller"]] in
  let s := Shared.consume 3 g h in
  let e := ValueError "UInt8: value out of range" in
  Shared.state s = Failed e /\
  let n := length (Shared.received s) in
  n < 3 /\
  Shared.state (Shared.consume n g h) = Running /\
  Shared.received (Shared.consume n g h) = Shared.received s /\
  (forall i r, Shared.received s !! i = Some r ->
     Shared.names_at r = length h /\
     exists rec,
       received (consume (S i) (parse_json_compact SpecTypes.registry failing)) !! i
       = Some rec /\
       Shared.received (Shared.consume (S i) g h) !! i = Some r /\
       Shared.view (Shared.objects (Shared.consume (S i) g h)) r = Some rec /\
       Shared.view (Shared.objects s) r = Some rec) /\
  h `prefix_of` Shared.objects s /\
  Shared.gen s = Shared.Closed.
Proof.
  assert (H : Shared.state
                (Shared.consume 3 (Shared.parse_json_compact SpecTypes.registry failing)
                   [[PStr "kept by the caller"]])
              = Failed (ValueError "UInt8: value out of range")).
  { vm_compute. reflexivity. }
  split; [exact H|].
  exact (C9_yielded_records_survive_later_failure SpecTypes.registry failing
           [[PStr "kept by the caller"]] 3 _ H).
Defined.

Lemma convert_values_all converters items vs :
  convert_values converters items = Ok vs ->
  forall j conv value,
    converters !! j = Some conv -> items !! j = Some value ->
    exists v, conv value = Ok v /\ vs !! j = Some v.
Proof.
  revert items vs.
  induction converters as [|conv0 converters IH]; intros [|value0 items] vs H j conv value Hc Hi;
    try discriminate.
  cbn in H.
  destruct (conv0 value0) as [v0|] eqn:Hv0; [|discriminate]. cbn in H.
  destruct (convert_values converters items) as [vs'|] eqn:Hvs; [|discriminate].
  injection H as <-.
  destruct j as [|j].
  - injection Hc as <-. injection Hi as <-. eauto.
  - cbn in Hc, Hi. exact (IH _ _ Hvs j conv value Hc Hi).
Qed.

(** C10. A Record is built from a row whose values have all been converted:
    every Record a consumer receives is the Record of the row at the same
    position, its values being exactly the results the column converters
    returned, one for each pair that [zip] forms, none left raw and none
    missing. *)
Theorem C10_record_only_from_fully_converted_row types content k i r :
  received (consume k (parse_json_compact types content)) !! i = Some r ->
  exists tr names_ converters rows row items,
    setup types (body_of content) = (tr, Ok (names_, converters, rows)) /\
    rows !! i = Some row /\ py_iter row = Ok items /\
    names r = names_ /\
    convert_values converters items = Ok (values r) /\
    converted_positionally converters items (values r) /\
    (forall j conv value,
       converters !! j = Some conv -> items !! j = Some value ->
       exists v, conv value = Ok v /\ values r !! j = Some v).
Proof.
  destruct k as [|k]; [discriminate|].
  intros Hr.
  destruct (consume_created types content k)
    as [e tss _ _ Hrec _ _ | ns cs rs tss Hs _ Hrec _].
  - rewrite Hrec in Hr. discriminate.
  - destruct (Forall2_lookup_r _ _ _ _ _ Hrec Hr) as (row & Hrow & Hn & Hres).
    apply lookup_take_Some in Hrow as [Hrow _].
    unfold row_result in Hres.
    destruct (py_iter row) as [items|] eqn:Hit; [|discriminate]. cbn in Hres.
    exists (EvLoads (body_of content) :: parse_events 0 tss), ns, cs, rs, row, items.
    pose proof (convert_values_ok _ _ _ Hres) as [Hlen Hpos].
    repeat split; auto.
    by apply convert_values_all.
Qed.

Lemma C10_witness :
  let r := {| names := [PStr "id"; PStr "tag"]; values := [PInt 2; PNone] |} in
  received (consume 2 (parse_json_compact SpecTypes.registry scenario)) !! 1 = Some r /\
  exists tr names_ converters rows row items,
    setup SpecTypes.registry (body_of scenario) = (tr, Ok (names_, converters, rows)) /\
    rows !! 1 = Some row /\ py_iter row = Ok items /\
    names r = names_ /\
    convert_values converters items = Ok (values r) /\
    converted_positionally converters items (values r) /\
    (forall j conv value,
       converters !! j = Some conv -> items !! j = Some value ->
       exists v, conv value = Ok v /\ values r !! j = Some v).
Proof.
  assert (H : received (consume 2 (parse_json_compact SpecTypes.registry scenario)) !! 1
              = Some {| names := [PStr "id"; PStr "tag"]; values := [PInt 2; PNone] |}).
  { vm_compute. reflexivity. }
  split; [exact H|].
  exact (C10_record_only_from_fully_converted_row SpecTypes.registry scenario 2 1 _ H).
Defined.

(** C8. A data row whose length differs from the number of columns is not
    an error of its own.  The request for it is answered by a Record or by
    the error of a converter applied to one of the paired values; the
    Record keeps every column name, and its values are the conversions of
    the pairs [zip] forms, as many as the shorter of the row and the
    column list; and when each paired value converts, the answer is the
    Record. *)
Theorem C8_row_length_mismatch_is_truncated
    types content tr names_ converters rows i row items :
  setup types (body_of content) = (tr, Ok (names_, converters, rows)) ->
  rows !! i = Some row ->
  py_iter row = Ok items ->
  length items <> length converters ->
  let g := parse_json_compact types content in
  state (consume i g) = Running ->
  length names_ = length converters /\
  ((exists r,
      received (consume (S i) g) !! i = Some r /\
      state (consume (S i) g) = Running /\
      names r = names_ /\
      length (values r) = min (length items) (length converters) /\
      converted_positionally converters items (values r))
   \/
   (exists e j conv value,
      state (consume (S i) g) = Failed e /\
      converters !! j = Some conv /\ items !! j = Some value /\
      conv value = Raise e)) /\
  ((forall j conv value,
      converters !! j = Some conv -> items !! j = Some value ->
      exists v, conv value = Ok v) ->
   state (consume (S i) g) = Running).
Proof.
  intros Hsetup Hrow Hit Hlen g Hrun.
  destruct (run_of_setup_ok _ _ i _ _ _ _ Hsetup) as (tss & _ & Hdone & Hrec & Hcons).
  fold g in Hrec, Hcons.
  assert (Hnames : length names_ = length converters).
  { destruct Hdone as [? ? ? ? _ _ _ Hres _ _].
    apply columns_resolved_length in Hres. lia. }
  assert (Hi : i <= length (received (consume (S i) g))).
  { pose proof (consume_length g i) as Hl. rewrite Hrun in Hl.
    destruct (consume_prefix g i (S i) ltac:(lia)) as [_ [rest Hrest]].
    rewrite Hrest, length_app. lia. }
  assert (Hcases :
    (exists r,
      received (consume (S i) g) !! i = Some r /\
      state (consume (S i) g) = Running /\
      names r = names_ /\
      length (values r) = min (length items) (length converters) /\
      converted_positionally converters items (values r))
    \/
    (exists e j conv value,
      state (consume (S i) g) = Failed e /\
      converters !! j = Some conv /\ items !! j = Some value /\
      conv value = Raise e)).
  { destruct Hcons as [H1 H2 H3 H4 | H1 H2 H3 H4 H5 | e row' H1 H2 H3 H4 H5 H6].
    - left.
      destruct (lookup_lt_is_Some_2 (received (consume (S i) g)) i ltac:(lia)) as [r Hr].
      destruct (Forall2_lookup_r _ _ _ _ _ Hrec Hr) as (row' & Hrow' & Hn & Hres).
      apply lookup_take_Some in Hrow' as [Hrow' _].
      rewrite Hrow in Hrow'. injection Hrow' as <-.
      unfold row_result in Hres. rewrite Hit in Hres. cbn in Hres.
      pose proof (convert_values_ok _ _ _ Hres) as Hpos.
      exists r. repeat split; auto; destruct Hpos as [Hl Hp]; auto. lia.
    - apply lookup_lt_Some in Hrow. lia.
    - right.
      assert (length (received (consume (S i) g)) = i) as Hm by lia.
      rewrite Hm in H3. rewrite Hrow in H3. injection H3 as <-.
      unfold row_result in H4. rewrite Hit in H4. cbn in H4.
      destruct (convert_values_raise 0 0 _ _ _ H4) as (j & conv & value & _ & ? & ? & ? & _).
      exists e, j, conv, value. auto. }
  repeat split; auto.
  intros Hall.
  destruct Hcases as [(r & _ & ? & _) | (e & j & conv & value & _ & Hc & Hv & He)]; auto.
  destruct (Hall _ _ _ Hc Hv) as [v Hv']. congruence.
Qed.

Example ragged_records :
  consume 3 (parse_json_compact SpecTypes.registry ragged)
  = {| trace :=
         [EvRead (body_of ragged); EvLoads (body_of ragged);
          EvParseType 0 (PStr "UInt8"); EvParseType 1 (PStr "String");
          EvConvert 0 0 (PInt 1); EvConvert 0 1 (PStr "x");
          EvConvert 1 0 (PInt 2)];
       received :=
         [ {| names := [PStr "a"; PStr "b"]; values := [PInt 1; PStr "x"] |};
           {| names := [PStr "a"; PStr "b"]; values := [PInt 2] |} ];
       state := Exhausted;
       gen := Closed |}.
Proof. vm_compute. reflexivity. Qed.

Lemma C8_witness :
  exists tr names_ converters rows,
    let row := PList [PInt 2] in
    let items := [PInt 2] in
    let g := parse_json_compact SpecTypes.registry ragged in
    setup SpecTypes.registry (body_of ragged) = (tr, Ok (names_, converters, rows)) /\
    rows !! 1 = Some row /\
    py_iter row = Ok items /\
    length items <> length converters /\
    state (consume 1 g) = Running /\
    length names_ = length converters /\
    ((exists r,
        received (consume 2 g) !! 1 = Some r /\
        state (consume 2 g) = Running /\
        names r = names_ /\
        length (values r) = min (length items) (length converters) /\
        converted_positionally converters items (values r))
     \/
     (exists e j conv value,
        state (consume 2 g) = Failed e /\
        converters !! j = Some conv /\ items !! j = Some value /\
        conv value = Raise e)) /\
    ((forall j conv value,
        converters !! j = Some conv -> items !! j = Some value ->
        exists v, conv value = Ok v) ->
     state (consume 2 g) = Running).
Proof.
  destruct (setup SpecTypes.registry (body_of ragged))
    as [tr [[[names_ converters] rows]|e]] eqn:Hsetup.
  - pose proof Hsetup as Hnf. vm_compute in Hnf. injection Hnf as <- <- <- <-.
    eexists _, _, _, _. cbn zeta.
    assert (H2 : [PList [PInt 1; PStr "x"; PStr "extra"]; PList [PInt 2]] !! 1
                 = Some (PList [PInt 2])) by reflexivity.
    assert (H3 : py_iter (PList [PInt 2]) = Ok [PInt 2]) by reflexivity.
    assert (H5 : state (consume 1 (parse_json_compact SpecTypes.registry ragged)) = Running)
      by (vm_compute; reflexivity).
    split; [exact Hsetup|]. split; [exact H2|]. split; [exact H3|].
    split; [cbn; lia|]. split; [exact H5|].
    exact (C8_row_length_mismatch_is_truncated SpecTypes.registry ragged _ _ _ _ 1 _ _
             Hsetup H2 H3 ltac:(cbn; lia) H5).
  - exfalso. vm_compute in Hsetup. discriminate Hsetup.
Defined.

(** ** A conversion that fails *)

Lemma rows_trace_app converters rows1 rows2 : forall i,
  rows_trace i converters (rows1 ++ rows2)
  = rows_trace i converters rows1
    ++ rows_trace (i + length rows1) converters rows2.
Proof.
  induction rows1 as [|row rows1 IH]; intros i; cbn.
  - by rewrite Nat.add_0_r.
  - rewrite IH, <- app_assoc.
    by replace (i + S (length rows1)) with (S i + length rows1) by lia.
Qed.

(** C2, refuted as stated: the same error is reported for a failure in row
    0, column 0 and for one in row 1, column 1, so nothing read off the
    error identifies the cell. *)
Lemma C2_counterexample : ~ error_identifies_cell.
Proof.
  intros [locate H].
  pose proof (H SpecTypes.registry failing_first_cell 2 0 0
                (ValueError "UInt8: value out of range")) as H1.
  pose proof (H SpecTypes.registry failing_later_cell 2 1 1
                (ValueError "UInt8: value out of range")) as H2.
  assert (locate (ValueError "UInt8: value out of range") = (0, 0)) as E1.
  { apply H1. split; [vm_compute; reflexivity|]. split; [vm_compute; reflexivity|].
    eexists [_; _; _; _], _. vm_compute. reflexivity. }
  assert (locate (ValueError "UInt8: value out of range") = (1, 1)) as E2.
  { apply H2. split; [vm_compute; reflexivity|]. split; [vm_compute; reflexivity|].
    eexists [_; _; _; _; _; _; _], _. vm_compute. reflexivity. }
  rewrite E1 in E2. discriminate E2.
Qed.

(** C2, amended.  When converting a value of row [i] fails, the decode
    aborts there: the exception the consumer gets is the one the column's
    converter raised on that value, as it was raised; the consumer holds
    the Records of the rows before [i] and none for row [i]; the generator
    is finished, so that no later request yields a Record. *)
Theorem C2_failure_aborts_with_the_converters_error types content k i j e :
  let g := parse_json_compact types content in
  let s := consume k g in
  conversion_failed s i j e ->
  (exists tr names_ converters rows row items conv value,
     setup types (body_of content) = (tr, Ok (names_, converters, rows)) /\
     rows !! i = Some row /\ py_iter row = Ok items /\
     converters !! j = Some conv /\ items !! j = Some value /\
     conv value = Raise e /\
     (exists pre, trace s = pre ++ [EvConvert i j value]) /\
     Forall2 (record_of names_ converters) (take i rows) (received s)) /\
  gen s = Closed /\
  anext (gen s) = ([], StopAsyncIteration, Closed) /\
  (forall k', k <= k' -> consume k' g = s).
Proof.
  cbn zeta. intros (Hst & Hlen & pre & v & Htr).
  set (g := parse_json_compact types content) in *.
  assert (Hgen : gen (consume k g) = Closed).
  { pose proof (consume_length g k) as Hl. rewrite Hst in Hl. tauto. }
  split; [|split; [exact Hgen | split]].
  2: { by rewrite Hgen. }
  2: { intros k' Hk. apply consume_stable; [congruence | exact Hk]. }
  destruct k as [|k]; [discriminate|].
  assert (Hin : EvConvert i j v ∈ trace (consume (S k) g))
    by (rewrite Htr; apply elem_of_app; right; apply list_elem_of_here).
  destruct (consume_created types content k)
    as [e' tss _ Htr' _ _ _ | ns cs rs tss Hs _ Hrec Hcons];
    fold g in Htr' || fold g in Hrec, Hcons.
  - rewrite Htr' in Hin.
    pose proof (setup_trace_no_convert (body_of content) tss) as Hno.
    rewrite Forall_forall in Hno. by specialize (Hno _ Hin).
  - destruct Hcons as [H1 H2 H3 H4 | H1 H2 H3 H4 H5 | e' row H1 H2 H3 H4 H5 H6];
      try congruence.
    rewrite Hst in H1. injection H1 as <-.
    rewrite Hlen in *.
    rewrite (take_S_r _ _ _ H3), rows_trace_app in H5.
    assert (Hi : length (take i rs) = i).
    { apply lookup_lt_Some in H3. rewrite length_take. lia. }
    rewrite Hi, Nat.add_0_l in H5. cbn [rows_trace] in H5. rewrite app_nil_r in H5.
    unfold row_result in H4. unfold row_trace in H5.
    destruct (py_iter row) as [items|] eqn:Hit; cbn in H4.
    + destruct (convert_values_raise i 0 _ _ _ H4)
        as (j' & conv & value & tr' & Hc & Hv & He & Hct).
      cbn [Nat.add] in Hct.
      rewrite Hct in H5. rewrite !app_assoc in H5. rewrite H5 in Htr.
      apply app_inj_tail in Htr as [_ Heq]. injection Heq as -> ->.
      exists (EvLoads (body_of content) :: parse_events 0 tss),
        ns, cs, rs, row, items, conv, v.
      repeat split; eauto.
    + exfalso. rewrite app_nil_r in H5. rewrite H5 in Hin.
      apply elem_of_app in Hin as [Hin|Hin].
      * pose proof (setup_trace_no_convert (body_of content) tss) as Hno.
        rewrite Forall_forall in Hno. by specialize (Hno _ Hin).
      * destruct (rows_trace_events _ _ _ _ Hin) as (m & ? & ? & ? & ? & Heq & Hm & _).
        injection Heq as -> _ _.
        apply lookup_lt_Some in Hm. rewrite length_take in Hm. lia.
Qed.

Lemma C2_witness :
  let g := parse_json_compact SpecTypes.registry failing_later_cell in
  let s := consume 2 g in
  let e := ValueError "UInt8: value out of range" in
  conversion_failed s 1 1 e /\
  (exists tr names_ converters rows row items conv value,
     setup SpecTypes.registry (body_of failing_later_cell)
     = (tr, Ok (names_, converters, rows)) /\
     rows !! 1 = Some row /\ py_iter row = Ok items /\
     converters !! 1 = Some conv /\ items !! 1 = Some value /\
     conv value = Raise e /\
     (exists pre, trace s = pre ++ [EvConvert 1 1 value]) /\
     Forall2 (record_of names_ converters) (take 1 rows) (received s)) /\
  gen s = Closed /\
  anext (gen s) = ([], StopAsyncIteration, Closed) /\
  (forall k', 2 <= k' -> consume k' g = s).
Proof.
  assert (H : conversion_failed
                (consume 2 (parse_json_compact SpecTypes.registry failing_later_cell))
                1 1 (ValueError "UInt8: value out of range")).
  { split; [vm_compute; reflexivity|]. split; [vm_compute; reflexivity|].
    eexists [_; _; _; _; _; _; _], _. vm_compute. reflexivity. }
  split; [exact H|].
  exact (C2_failure_aborts_with_the_converters_error
           SpecTypes.registry failing_later_cell 2 1 1 _ H).
Defined.

(** ** The scanner keeps the text *)

Module JsonText.

Import Json.

Lemma append_cons x (a b : string) : String x a +:+ b = String x (a +:+ b).
Proof. reflexivity. Qed.

Lemma append_nil_l (b : string) : "" +:+ b = b.
Proof. reflexivity. Qed.

Ltac str := repeat (rewrite append_cons || rewrite append_nil_l).

Lemma append_assoc (a b c : string) : (a +:+ b) +:+ c = a +:+ (b +:+ c).
Proof. induction a as [|x a IH]; str; [reflexivity | f_equal; exact IH]. Qed.

Lemma append_length (a b : string) :
  String.length (a +:+ b) = String.length a + String.length b.
Proof. induction a as [|x a IH]; str; cbn; [reflexivity | f_equal; exact IH]. Qed.

Lemma suffix_of_refl s : suffix_of s s.
Proof. by exists "". Qed.

Lemma suffix_of_trans a b c : suffix_of a b -> suffix_of b c -> suffix_of a c.
Proof. intros [p ->] [q ->]. exists (q +:+ p). by rewrite append_assoc. Qed.

Lemma suffix_of_cons c s : suffix_of s (String c s).
Proof. by exists (String c ""). Qed.

Lemma suffix_of_length a b : suffix_of a b -> String.length a <= String.length b.
Proof. intros [p ->]. rewrite append_length. lia. Qed.

Lemma skip_ws_suffix s : suffix_of (skip_ws s) s.
Proof.
  induction s as [|c s IH]; cbn; [apply suffix_of_refl|].
  destruct (is_ws c); [|apply suffix_of_refl].
  eapply suffix_of_trans; [exact IH | apply suffix_of_cons].
Qed.

Lemma strip_prefix_text p : forall s r, strip_prefix p s = Some r -> s = p +:+ r.
Proof.
  induction p as [|a p IH]; intros s r H; cbn in H.
  - by injection H as ->.
  - destruct s as [|b s]; [discriminate|].
    destruct (Ascii.eqb_spec a b) as [->|]; [|discriminate].
    str. f_equal. by apply IH.
Qed.

Lemma span_digits_text s : forall ds r, span_digits s = (ds, r) -> s = ds +:+ r.
Proof.
  induction s as [|c s IH]; intros ds r H; cbn in H.
  - by injection H as <- <-.
  - destruct (is_digit c).
    + destruct (span_digits s) as [ds' r'] eqn:Hs. injection H as <- <-.
      str. f_equal. by apply IH.
    + by injection H as <- <-.
Qed.

Lemma match_integer_text s i r : match_integer s = Some (i, r) -> s = i +:+ r /\ i <> "".
Proof.
  unfold match_integer. intros H.
  destruct s as [|c s]; [discriminate|].
  destruct (Ascii.eqb_spec c "-") as [->|Hc].
  - destruct s as [|d s]; [discriminate|].
    destruct (Ascii.eqb_spec d "0") as [->|Hd].
    + injection H as <- <-. split; [reflexivity | str; discriminate].
    + destruct (is_digit d); [|discriminate].
      destruct (span_digits s) as [ds r'] eqn:Hs. injection H as <- <-.
      split; [|str; discriminate]. str. do 2 f_equal. by apply span_digits_text.
  - destruct (Ascii.eqb_spec c "0") as [->|Hd].
    + injection H as <- <-. split; [reflexivity | str; discriminate].
    + destruct (is_digit c); [|discriminate].
      destruct (span_digits s) as [ds r'] eqn:Hs. injection H as <- <-.
      split; [|str; discriminate]. str. f_equal. by apply span_digits_text.
Qed.

Lemma match_frac_text s f r : match_frac s = (f, r) -> s = f +:+ r.
Proof.
  unfold match_frac. intros H.
  destruct s as [|c s]; [by injection H as <- <-|].
  destruct (c =? ".")%char; [|by injection H as <- <-].
  destruct (span_digits s) as [ds r'] eqn:Hs.
  destruct (nonempty ds); injection H as <- <-; [|reflexivity].
  str. f_equal. by apply span_digits_text.
Qed.

Lemma match_exp_text s e r : match_exp s = (e, r) -> s = e +:+ r.
Proof.
  unfold match_exp. intros H.
  destruct s as [|c s]; [by injection H as <- <-|].
  destruct ((c =? "e") || (c =? "E"))%char; [|by injection H as <- <-].
  destruct s as [|g s].
  - cbn in H. by injection H as <- <-.
  - destruct ((g =? "-") || (g =? "+"))%char.
    + destruct (span_digits s) as [ds r'] eqn:Hs.
      destruct (nonempty ds); injection H as <- <-; [|reflexivity].
      str. do 2 f_equal. by apply span_digits_text.
    + destruct (span_digits (String g s)) as [ds r'] eqn:Hs.
      destruct (nonempty ds); injection H as <- <-; [|reflexivity].
      str. f_equal. by apply span_digits_text.
Qed.

(** The three groups of a matched number are, one after the other, the
    characters at the head of the text. *)
Lemma match_number_text s integer frac exp rest :
  match_number s = Some (integer, frac, exp, rest) ->
  s = (integer +:+ frac +:+ exp) +:+ rest /\ integer <> "".
Proof.
  unfold match_number. intros H.
  destruct (match_integer s) as [[i r]|] eqn:Hi; [|discriminate].
  destruct (match_frac r) as [f r1] eqn:Hf.
  destruct (match_exp r1) as [e r2] eqn:He.
  injection H as <- <- <- <-.
  apply match_integer_text in Hi as [-> Hne].
  apply match_frac_text in Hf as ->. apply match_exp_text in He as ->.
  split; [|exact Hne]. by rewrite !append_assoc.
Qed.

Lemma scan_once_S fuel s :
  scan_once (S fuel) s
  = match s with
    | EmptyString => Raise (JSONDecodeError "Expecting value")
    | String c r =>
        if (c =? dquote)%char then
          try! (str, rest) <- scanstring r ;
          Ok (JString str, rest)
        else if (c =? "{")%char then
          match skip_ws r with
          | String c1 r1 =>
              if (c1 =? "}")%char then Ok (JObject [], r1)
              else if (c1 =? dquote)%char then
                try! (pairs, rest) <- object_pairs fuel r1 ;
                Ok (JObject pairs, rest)
              else Raise (JSONDecodeError "Expecting property name enclosed in double quotes")
          | EmptyString =>
              Raise (JSONDecodeError "Expecting property name enclosed in double quotes")
          end
        else if (c =? "[")%char then
          match skip_ws r with
          | String c1 r1 =>
              if (c1 =? "]")%char then Ok (JArray [], r1)
              else
                try! (items, rest) <- array_items fuel (String c1 r1) ;
                Ok (JArray items, rest)
          | EmptyString => Raise (JSONDecodeError "Expecting value")
          end
        else scan_atom s
    end.
Proof. reflexivity. Qed.

Lemma array_items_S fuel s :
  array_items (S fuel) s
  = try! (value, r) <- scan_once fuel s ;
    match skip_ws r with
    | String c r1 =>
        if (c =? "]")%char then Ok ([value], r1)
        else if (c =? ",")%char then
          try! (values, rest) <- array_items fuel (skip_ws r1) ;
          Ok (value :: values, rest)
        else Raise (JSONDecodeError "Expecting ',' delimiter")
    | EmptyString => Raise (JSONDecodeError "Expecting ',' delimiter")
    end.
Proof. reflexivity. Qed.

Lemma object_pairs_S fuel s :
  object_pairs (S fuel) s
  = try! (key, r) <- scanstring s ;
    match skip_ws r with
    | String c r1 =>
        if (c =? ":")%char then
          try! (value, r2) <- scan_once fuel (skip_ws r1) ;
          match skip_ws r2 with
          | String c2 r3 =>
              if (c2 =? "}")%char then Ok ([(key, value)], r3)
              else if (c2 =? ",")%char then
                match skip_ws r3 with
                | String c3 r4 =>
                    if (c3 =? dquote)%char then
                      try! (pairs, rest) <- object_pairs fuel r4 ;
                      Ok ((key, value) :: pairs, rest)
                    else Raise (JSONDecodeError
                                  "Expecting property name enclosed in double quotes")
                | EmptyString =>
                    Raise (JSONDecodeError
                             "Expecting property name enclosed in double quotes")
                end
              else Raise (JSONDecodeError "Expecting ',' delimiter")
          | EmptyString => Raise (JSONDecodeError "Expecting ',' delimiter")
          end
        else Raise (JSONDecodeError "Expecting ':' delimiter")
    | EmptyString => Raise (JSONDecodeError "Expecting ':' delimiter")
    end.
Proof. reflexivity. Qed.

Lemma tail_of_cons c s : tail_of s (String c s).
Proof. split; [apply suffix_of_cons | cbn; lia]. Qed.

Lemma tail_of_suffix a b c : tail_of a b -> suffix_of b c -> tail_of a c.
Proof.
  intros [H1 H2] H3. split; [by eapply suffix_of_trans|].
  apply suffix_of_length in H3. lia.
Qed.

Lemma suffix_tail_of a b c : suffix_of a b -> tail_of b c -> tail_of a c.
Proof.
  intros H1 [H2 H3]. split; [by eapply suffix_of_trans|].
  apply suffix_of_length in H1. lia.
Qed.

Lemma tail_of_trans a b c : tail_of a b -> tail_of b c -> tail_of a c.
Proof. intros H1 [H2 _]. by eapply tail_of_suffix. Qed.

Lemma strip_prefix_tail p s r :
  p <> "" -> strip_prefix p s = Some r -> tail_of r s.
Proof.
  intros Hp H. apply strip_prefix_text in H as ->.
  split; [by exists p|]. rewrite append_length.
  destruct p; [done | cbn; lia].
Qed.

Lemma match_number_tail s integer frac exp rest :
  match_number s = Some (integer, frac, exp, rest) -> tail_of rest s.
Proof.
  intros H. apply match_number_text in H as [-> Hne].
  split; [by eexists|]. rewrite !append_length.
  destruct integer; [done | cbn; lia].
Qed.

Lemma decode_uXXXX_tail s n r : decode_uXXXX s = Some (n, r) -> tail_of r s.
Proof.
  unfold decode_uXXXX. intros H.
  destruct s as [|a [|b [|c [|d s]]]]; try discriminate.
  destruct (hex_val a), (hex_val b), (hex_val c), (hex_val d); try discriminate.
  injection H as _ <-.
  split; [by exists (String a (String b (String c (String d "")))) | cbn; lia].
Qed.

Lemma scan_escape_tail r chunk r' : scan_escape r = Ok (chunk, r') -> tail_of r' r.
Proof.
  unfold scan_escape. intros H.
  destruct r as [|e r1]; [discriminate|].
  destruct (e =? "u")%char.
  - destruct (decode_uXXXX r1) as [[uni r2]|] eqn:Hu; [|discriminate].
    apply decode_uXXXX_tail in Hu.
    assert (Hr2 : tail_of r2 (String e r1))
      by (eapply tail_of_trans; [exact Hu | apply tail_of_cons]).
    destruct ((55296 <=? uni) && (uni <=? 56319))%N;
      [|by injection H as _ <-].
    destruct r2 as [|b [|u r3]]; try (by injection H as _ <-).
    destruct ((b =? backslash) && (u =? "u"))%char; [|by injection H as _ <-].
    destruct (decode_uXXXX r3) as [[uni2 r4]|] eqn:Hu2; [|discriminate].
    apply decode_uXXXX_tail in Hu2.
    destruct ((56320 <=? uni2) && (uni2 <=? 57343))%N; injection H as _ <-;
      [|exact Hr2].
    eapply tail_of_trans; [exact Hu2|].
    eapply tail_of_trans; [apply tail_of_cons|].
    eapply tail_of_trans; [apply tail_of_cons | exact Hr2].
  - destruct (simple_escape e); [|discriminate]. injection H as _ <-.
    apply tail_of_cons.
Qed.

Lemma py_scanstring_tail fuel : forall s str rest,
  py_scanstring fuel s = Ok (str, rest) -> tail_of rest s.
Proof.
  induction fuel as [|fuel IH]; intros s str rest H; [discriminate|].
  cbn [py_scanstring] in H.
  destruct s as [|c r]; [discriminate|].
  destruct (c =? dquote)%char; [injection H as _ <-; apply tail_of_cons|].
  destruct (c =? backslash)%char.
  - destruct (scan_escape r) as [[chunk r']|] eqn:He; [|discriminate].
    cbn [rbind] in H.
    destruct (py_scanstring fuel r') as [[tl rest']|] eqn:Hs; [|discriminate].
    cbn [rbind] in H. injection H as _ <-.
    eapply tail_of_trans; [by eapply IH|].
    eapply tail_of_trans; [by eapply scan_escape_tail | apply tail_of_cons].
  - destruct (N_of_ascii c <? 32)%N; [discriminate|].
    destruct (py_scanstring fuel r) as [[tl rest']|] eqn:Hs; [|discriminate].
    cbn [rbind] in H. injection H as _ <-.
    eapply tail_of_trans; [by eapply IH | apply tail_of_cons].
Qed.

(** More fuel than the text is long changes nothing. *)
Lemma py_scanstring_fuel fuel : forall s,
  String.length s < fuel -> py_scanstring (S fuel) s = py_scanstring fuel s.
Proof.
  induction fuel as [|fuel IH]; intros s Hlen; [lia|].
  change (py_scanstring (S (S fuel)) s)
    with (match s with
          | EmptyString => Raise (JSONDecodeError "Unterminated string starting at")
          | String c r =>
              if (c =? dquote)%char then Ok (EmptyString, r)
              else if (c =? backslash)%char then
                try! (chunk, r') <- scan_escape r ;
                try! (tail, rest) <- py_scanstring (S fuel) r' ;
                Ok (chunk +:+ tail, rest)
              else if (N_of_ascii c <? 32)%N
              then Raise (JSONDecodeError "Invalid control character at")
              else
                try! (tail, rest) <- py_scanstring (S fuel) r ;
                Ok (String c tail, rest)
          end).
  change (py_scanstring (S fuel) s)
    with (match s with
          | EmptyString => Raise (JSONDecodeError "Unterminated string starting at")
          | String c r =>
              if (c =? dquote)%char then Ok (EmptyString, r)
              else if (c =? backslash)%char then
                try! (chunk, r') <- scan_escape r ;
                try! (tail, rest) <- py_scanstring fuel r' ;
                Ok (chunk +:+ tail, rest)
              else if (N_of_ascii c <? 32)%N
              then Raise (JSONDecodeError "Invalid control character at")
              else
                try! (tail, rest) <- py_scanstring fuel r ;
                Ok (String c tail, rest)
          end).
  destruct s as [|c r]; [reflexivity|]. cbn in Hlen.
  destruct (c =? dquote)%char; [reflexivity|].
  destruct (c =? backslash)%char.
  - destruct (scan_escape r) as [[chunk r']|] eqn:He; [|reflexivity].
    cbn [rbind]. apply scan_escape_tail in He as [_ Hl].
    rewrite IH by lia. reflexivity.
  - destruct (N_of_ascii c <? 32)%N; [reflexivity|].
    rewrite IH by lia. reflexivity.
Qed.

Lemma numbers_in_suffix j s1 s :
  numbers_in j s1 -> suffix_of s1 s -> numbers_in j s.
Proof.
  intros H Hs path i f e Hat.
  destruct (H _ _ _ _ Hat) as (s' & rest & Hs' & Hm).
  exists s', rest. split; [by eapply suffix_of_trans | exact Hm].
Qed.

Lemma numbers_in_leaf j s :
  (forall i f e, j <> JNumber i f e) ->
  (forall items, j <> JArray items) ->
  (forall pairs, j <> JObject pairs) ->
  numbers_in j s.
Proof.
  intros Hn Ha Ho [|[n|k] path] i f e Hat; cbn in Hat.
  - injection Hat as ->. by destruct (Hn i f e).
  - destruct j; try discriminate. by destruct (Ha items).
  - destruct j; try discriminate. by destruct (Ho pairs).
Qed.

Lemma numbers_in_array items s :
  Forall (fun x => numbers_in x s) items -> numbers_in (JArray items) s.
Proof.
  intros H [|[n|k] path] i f e Hat; cbn in Hat; try discriminate.
  destruct (items !! n) as [x|] eqn:Hx; [|discriminate].
  rewrite Forall_forall in H.
  exact (H x (list_elem_of_lookup_2 _ _ _ Hx) _ _ _ _ Hat).
Qed.

Lemma json_field_elem k pairs x :
  json_field k pairs = Some x -> exists k', (k', x) ∈ pairs.
Proof.
  induction pairs as [|[k' v] pairs IH]; [discriminate|]. cbn.
  destruct (json_field k pairs) as [v'|].
  - intros [= ->]. destruct (IH eq_refl) as [k0 H]. exists k0. by right.
  - destruct (String.eqb k k'); [|discriminate]. intros [= ->]. exists k'. by left.
Qed.

Lemma numbers_in_object pairs s :
  Forall (fun kv => numbers_in (snd kv) s) pairs -> numbers_in (JObject pairs) s.
Proof.
  intros H [|[n|k] path] i f e Hat; cbn in Hat; try discriminate.
  destruct (json_field k pairs) as [x|] eqn:Hx; [|discriminate].
  destruct (json_field_elem _ _ _ Hx) as [k' Hin].
  rewrite Forall_forall in H.
  exact (H _ Hin _ _ _ _ Hat).
Qed.

Lemma scan_atom_tail s j rest :
  scan_atom s = Ok (j, rest) -> tail_of rest s /\ numbers_in j s.
Proof.
  unfold scan_atom. intros H.
  destruct (strip_prefix "null" s) eqn:H1.
  { injection H as <- <-. split; [by eapply strip_prefix_tail; [|exact H1]|].
    by apply numbers_in_leaf. }
  destruct (strip_prefix "true" s) eqn:H2.
  { injection H as <- <-. split; [by eapply strip_prefix_tail; [|exact H2]|].
    by apply numbers_in_leaf. }
  destruct (strip_prefix "false" s) eqn:H3.
  { injection H as <- <-. split; [by eapply strip_prefix_tail; [|exact H3]|].
    by apply numbers_in_leaf. }
  destruct (match_number s) as [[[[i f] e] r]|] eqn:H4.
  { injection H as <- <-. split; [by eapply match_number_tail|].
    intros [|[n|k] path] i' f' e' Hat; cbn in Hat; try discriminate.
    injection Hat as <- <- <-. exists s, r. split; [apply suffix_of_refl | exact H4]. }
  destruct (strip_prefix "NaN" s) eqn:H5.
  { injection H as <- <-. split; [by eapply strip_prefix_tail; [|exact H5]|].
    by apply numbers_in_leaf. }
  destruct (strip_prefix "Infinity" s) eqn:H6.
  { injection H as <- <-. split; [by eapply strip_prefix_tail; [|exact H6]|].
    by apply numbers_in_leaf. }
  destruct (strip_prefix "-Infinity" s) eqn:H7; [|discriminate].
  injection H as <- <-. split; [by eapply strip_prefix_tail; [|exact H7]|].
  by apply numbers_in_leaf.
Qed.

(** What the scanner returns: the unread rest is a proper tail of the text,
    and every number of the value was matched in the text. *)
Lemma scan_tail fuel :
  (forall s j rest,
     scan_once fuel s = Ok (j, rest) -> tail_of rest s /\ numbers_in j s) /\
  (forall s items rest,
     array_items fuel s = Ok (items, rest) ->
     tail_of rest s /\ Forall (fun x => numbers_in x s) items) /\
  (forall s pairs rest,
     object_pairs fuel s = Ok (pairs, rest) ->
     tail_of rest s /\ Forall (fun kv => numbers_in (snd kv) s) pairs).
Proof.
  induction fuel as [|fuel (IHs & IHa & IHo)]; [repeat split; discriminate|].
  split; [|split].
  - intros s j rest H. rewrite scan_once_S in H.
    destruct s as [|c r]; [discriminate|].
    destruct (c =? dquote)%char.
    { destruct (scanstring r) as [[str rest']|] eqn:Hs; [|discriminate].
      cbn [rbind] in H. injection H as <- <-.
      apply py_scanstring_tail in Hs.
      split; [eapply tail_of_trans; [exact Hs | apply tail_of_cons]|].
      by apply numbers_in_leaf. }
    destruct (c =? "{")%char.
    { pose proof (skip_ws_suffix r) as Hws.
      destruct (skip_ws r) as [|c1 r1]; [discriminate|].
      assert (Hr1 : tail_of r1 (String c r)).
      { eapply tail_of_trans; [apply tail_of_cons|].
        eapply suffix_tail_of; [exact Hws | apply tail_of_cons]. }
      destruct (c1 =? "}")%char.
      { injection H as <- <-. split; [exact Hr1|].
        apply numbers_in_object. constructor. }
      destruct (c1 =? dquote)%char; [|discriminate].
      destruct (object_pairs fuel r1) as [[pairs rest']|] eqn:Ho; [|discriminate].
      cbn [rbind] in H. injection H as <- <-.
      destruct (IHo _ _ _ Ho) as [Ht Hn].
      split; [by eapply tail_of_trans|].
      apply numbers_in_object. eapply Forall_impl; [exact Hn|].
      intros kv Hkv. eapply numbers_in_suffix; [exact Hkv | apply Hr1]. }
    destruct (c =? "[")%char; [|by apply scan_atom_tail].
    pose proof (skip_ws_suffix r) as Hws.
    destruct (skip_ws r) as [|c1 r1]; [discriminate|].
    assert (Hr1 : tail_of (String c1 r1) (String c r))
      by (eapply suffix_tail_of; [exact Hws | apply tail_of_cons]).
    destruct (c1 =? "]")%char.
    { injection H as <- <-.
      split; [eapply tail_of_trans; [apply tail_of_cons | exact Hr1]|].
      apply numbers_in_array. constructor. }
    destruct (array_items fuel (String c1 r1)) as [[items rest']|] eqn:Ha; [|discriminate].
    cbn [rbind] in H. injection H as <- <-.
    destruct (IHa _ _ _ Ha) as [Ht Hn].
    split; [by eapply tail_of_trans|].
    apply numbers_in_array. eapply Forall_impl; [exact Hn|].
    intros x Hx. eapply numbers_in_suffix; [exact Hx | apply Hr1].
  - intros s items rest H. rewrite array_items_S in H.
    destruct (scan_once fuel s) as [[value r]|] eqn:Hv; [|discriminate].
    cbn [rbind] in H. destruct (IHs _ _ _ Hv) as [Ht Hn].
    pose proof (skip_ws_suffix r) as Hws.
    destruct (skip_ws r) as [|c r1]; [discriminate|].
    assert (Hr1 : tail_of r1 s).
    { eapply tail_of_trans; [apply tail_of_cons|].
      eapply suffix_tail_of; [exact Hws | exact Ht]. }
    destruct (c =? "]")%char.
    { injection H as <- <-. split; [exact Hr1 | by constructor]. }
    destruct (c =? ",")%char; [|discriminate].
    destruct (array_items fuel (skip_ws r1)) as [[values rest']|] eqn:Ha; [|discriminate].
    cbn [rbind] in H. injection H as <- <-.
    destruct (IHa _ _ _ Ha) as [Ht' Hn'].
    assert (Hs1 : tail_of (skip_ws r1) s)
      by (eapply suffix_tail_of; [apply skip_ws_suffix | exact Hr1]).
    split; [by eapply tail_of_trans|].
    constructor; [exact Hn|].
    eapply Forall_impl; [exact Hn'|].
    intros x Hx. eapply numbers_in_suffix; [exact Hx | apply Hs1].
  - intros s pairs rest H. rewrite object_pairs_S in H.
    destruct (scanstring s) as [[key r]|] eqn:Hk; [|discriminate].
    cbn [rbind] in H. apply py_scanstring_tail in Hk.
    pose proof (skip_ws_suffix r) as Hws.
    destruct (skip_ws r) as [|c r1]; [discriminate|].
    destruct (c =? ":")%char; [|discriminate].
    assert (Hr1 : tail_of (skip_ws r1) s).
    { eapply suffix_tail_of; [apply skip_ws_suffix|].
      eapply tail_of_trans; [apply tail_of_cons|].
      eapply suffix_tail_of; [exact Hws | exact Hk]. }
    destruct (scan_once fuel (skip_ws r1)) as [[value r2]|] eqn:Hv; [|discriminate].
    cbn [rbind] in H. destruct (IHs _ _ _ Hv) as [Ht Hn].
    pose proof (skip_ws_suffix r2) as Hws2.
    destruct (skip_ws r2) as [|c2 r3]; [discriminate|].
    assert (Hr3 : tail_of r3 s).
    { eapply tail_of_trans; [apply tail_of_cons|].
      eapply suffix_tail_of; [exact Hws2|].
      eapply tail_of_trans; [exact Ht | exact Hr1]. }
    assert (Hval : numbers_in value s)
      by (eapply numbers_in_suffix; [exact Hn | apply Hr1]).
    destruct (c2 =? "}")%char.
    { injection H as <- <-. split; [exact Hr3 | by constructor]. }
    destruct (c2 =? ",")%char; [|discriminate].
    pose proof (skip_ws_suffix r3) as Hws3.
    destruct (skip_ws r3) as [|c3 r4]; [discriminate|].
    destruct (c3 =? dquote)%char; [|discriminate].
    destruct (object_pairs fuel r4) as [[pairs' rest']|] eqn:Ho; [|discriminate].
    cbn [rbind] in H. injection H as <- <-.
    destruct (IHo _ _ _ Ho) as [Ht' Hn'].
    assert (Hr4 : tail_of r4 s).
    { eapply tail_of_trans; [apply tail_of_cons|].
      eapply suffix_tail_of; [exact Hws3 | exact Hr3]. }
    split; [by eapply tail_of_trans|].
    constructor; [exact Hval|].
    eapply Forall_impl; [exact Hn'|].
    intros kv Hkv. eapply numbers_in_suffix; [exact Hkv | apply Hr4].
Qed.

(** Fuel beyond twice the length of the text is never used: the scanner
    gives the same answer with any more. *)
Lemma scan_fuel fuel :
  (forall s, 2 * String.length s + 2 <= fuel ->
             scan_once (S fuel) s = scan_once fuel s) /\
  (forall s, 2 * String.length s + 3 <= fuel ->
             array_items (S fuel) s = array_items fuel s) /\
  (forall s, 2 * String.length s + 3 <= fuel ->
             object_pairs (S fuel) s = object_pairs fuel s).
Proof.
  induction fuel as [|fuel (IHs & IHa & IHo)]; [repeat split; intros; lia|].
  split; [|split].
  - intros s Hlen. rewrite (scan_once_S (S fuel)), (scan_once_S fuel).
    destruct s as [|c r]; [reflexivity|]. cbn [String.length] in Hlen.
    destruct (c =? dquote)%char; [reflexivity|].
    destruct (c =? "{")%char.
    { pose proof (suffix_of_length _ _ (skip_ws_suffix r)) as Hws.
      destruct (skip_ws r) as [|c1 r1]; [reflexivity|]. cbn [String.length] in Hws.
      destruct (c1 =? "}")%char; [reflexivity|].
      destruct (c1 =? dquote)%char; [|reflexivity].
      rewrite IHo by lia. reflexivity. }
    destruct (c =? "[")%char; [|reflexivity].
    pose proof (suffix_of_length _ _ (skip_ws_suffix r)) as Hws.
    destruct (skip_ws r) as [|c1 r1]; [reflexivity|].
    destruct (c1 =? "]")%char; [reflexivity|].
    rewrite IHa by lia. reflexivity.
  - intros s Hlen. rewrite (array_items_S (S fuel)), (array_items_S fuel).
    rewrite IHs by lia.
    destruct (scan_once fuel s) as [[value r]|] eqn:Hv; [|reflexivity].
    cbn [rbind]. destruct (proj1 (scan_tail fuel) _ _ _ Hv) as [[_ Ht] _].
    pose proof (suffix_of_length _ _ (skip_ws_suffix r)) as Hws.
    destruct (skip_ws r) as [|c r1]; [reflexivity|]. cbn [String.length] in Hws.
    destruct (c =? "]")%char; [reflexivity|].
    destruct (c =? ",")%char; [|reflexivity].
    pose proof (suffix_of_length _ _ (skip_ws_suffix r1)) as Hws1.
    rewrite IHa by lia. reflexivity.
  - intros s Hlen. rewrite (object_pairs_S (S fuel)), (object_pairs_S fuel).
    destruct (scanstring s) as [[key r]|] eqn:Hk; [|reflexivity].
    cbn [rbind]. apply py_scanstring_tail in Hk as [_ Hk].
    pose proof (suffix_of_length _ _ (skip_ws_suffix r)) as Hws.
    destruct (skip_ws r) as [|c r1]; [reflexivity|]. cbn [String.length] in Hws.
    destruct (c =? ":")%char; [|reflexivity].
    pose proof (suffix_of_length _ _ (skip_ws_suffix r1)) as Hws1.
    rewrite IHs by lia.
    destruct (scan_once fuel (skip_ws r1)) as [[value r2]|] eqn:Hv; [|reflexivity].
    cbn [rbind]. destruct (proj1 (scan_tail fuel) _ _ _ Hv) as [[_ Ht] _].
    pose proof (suffix_of_length _ _ (skip_ws_suffix r2)) as Hws2.
    destruct (skip_ws r2) as [|c2 r3]; [reflexivity|]. cbn [String.length] in Hws2.
    destruct (c2 =? "}")%char; [reflexivity|].
    destruct (c2 =? ",")%char; [|reflexivity].
    pose proof (suffix_of_length _ _ (skip_ws_suffix r3)) as Hws3.
    destruct (skip_ws r3) as [|c3 r4]; [reflexivity|]. cbn [String.length] in Hws3.
    destruct (c3 =? dquote)%char; [|reflexivity].
    rewrite IHo by lia. reflexivity.
Qed.

(** The fuel [decode] supplies is enough: any larger amount scans the text
    to the same result. *)
Lemma decode_fuel_enough s fuel :
  2 * String.length s + 2 <= fuel ->
  scan_once fuel s = scan_once (2 * String.length s + 2) s.
Proof.
  induction 1 as [|fuel Hle IH]; [reflexivity|].
  rewrite <- IH. by apply (proj1 (scan_fuel fuel)).
Qed.

(** Every number of a decoded document was matched at some position of the
    body. *)
Lemma decode_numbers body doc :
  decode body = Ok doc -> numbers_in doc body.
Proof.
  unfold decode. intros H.
  destruct (scan_once _ (skip_ws body)) as [[obj rest]|] eqn:Hs; [|discriminate].
  cbn [rbind] in H. destruct (skip_ws rest); [|discriminate]. injection H as <-.
  destruct (proj1 (scan_tail _) _ _ _ Hs) as [_ Hn].
  eapply numbers_in_suffix; [exact Hn | apply skip_ws_suffix].
Qed.

(** The text of a floating-point literal of the document is a run of
    characters of the body. *)
Lemma float_literal_in_body body doc path j text :
  decode body = Ok doc ->
  json_at path doc = Some j ->
  float_literal j = Some text ->
  exists before after, body = before +:+ text +:+ after.
Proof.
  intros Hdoc Hat Hfl.
  destruct j; try discriminate. cbn in Hfl.
  destruct (nonempty frac || nonempty exp); [|discriminate]. injection Hfl as <-.
  destruct (decode_numbers _ _ Hdoc _ _ _ _ Hat) as (s' & rest & [pre ->] & Hm).
  apply match_number_text in Hm as [-> _].
  by exists pre, rest.
Qed.

End JsonText.

(** ** Floating-point literals *)

Lemma dict_get_set k k' v d :
  dict_get k (dict_set k' v d)
  = if String.eqb k k' then Some v else dict_get k d.
Proof.
  induction d as [|[k0 v0] d IH]; cbn.
  - destruct (String.eqb k k'); reflexivity.
  - destruct (String.eqb_spec k' k0) as [->|Hne]; cbn.
    + destruct (String.eqb k k0); reflexivity.
    + rewrite IH. destruct (String.eqb_spec k k0) as [->|Hne'].
      * destruct (String.eqb_spec k0 k'); [congruence | reflexivity].
      * reflexivity.
Qed.

Lemma dict_get_fold pf k pairs : forall d,
  dict_get k (fold_left (fun d kv => dict_set (fst kv) (snd kv) d)
                (map (fun '(k, v) => (k, Json.make pf v)) pairs) d)
  = match json_field k pairs with
    | Some x => Some (Json.make pf x)
    | None => dict_get k d
    end.
Proof.
  induction pairs as [|[k' v] pairs IH]; intros d; [reflexivity|].
  cbn [map fold_left json_field fst snd]. rewrite IH.
  destruct (json_field k pairs); [reflexivity|].
  rewrite dict_get_set. destruct (String.eqb k k'); reflexivity.
Qed.

(** Building the value keeps the shape: what stands at a place of the
    document is built at the same place of the value. *)
Lemma make_at pf path : forall j j',
  json_at path j = Some j' ->
  py_at path (Json.make pf j) = Some (Json.make pf j').
Proof.
  induction path as [|[n|k] path IH]; intros j j' H.
  - cbn in H. injection H as <-. reflexivity.
  - destruct j; try discriminate. cbn in H |- *.
    rewrite list_lookup_fmap.
    destruct (items !! n) as [x|]; [|discriminate]. cbn. by apply IH.
  - destruct j; try discriminate. cbn in H |- *.
    unfold dict_of_pairs. rewrite dict_get_fold.
    destruct (json_field k pairs) as [x|]; [|discriminate]. by apply IH.
Qed.

Lemma make_float_literal j text :
  float_literal j = Some text -> Json.make PStr j = PStr text.
Proof.
  destruct j; try discriminate. cbn.
  destruct (Json.nonempty frac || Json.nonempty exp); [|discriminate].
  by intros [= <-].
Qed.

(** C3. A floating-point literal anywhere in the payload is kept as the text
    it was written with: that text is a run of characters of the body;
    [json.loads] with [parse_float=str] puts the string of these
    characters, not a binary double, at the literal's place in the
    response; and when the literal stands in (or inside) the value of a
    data cell, the column's converter is called with a value that holds
    that very text at the literal's place. *)
Theorem C3_float_literals_kept_as_text types content k doc path j text :
  Json.decode (body_of content) = Ok doc ->
  json_at path doc = Some j ->
  float_literal j = Some text ->
  (exists before after, body_of content = before +:+ text +:+ after) /\
  (exists response,
     Json.loads PStr (body_of content) = Ok response /\
     py_at path response = Some (PStr text)) /\
  (forall row column inner value,
     path = Key "data" :: Index row :: Index column :: inner ->
     EvConvert row column value
       ∈ trace (consume k (parse_json_compact types content)) ->
     py_at inner value = Some (PStr text)).
Proof.
  intros Hdoc Hat Hfl.
  split; [exact (JsonText.float_literal_in_body _ _ _ _ _ Hdoc Hat Hfl)|].
  assert (Hresp : Json.loads PStr (body_of content) = Ok (Json.make PStr doc)).
  { unfold Json.loads. by rewrite Hdoc. }
  assert (Hpy : py_at path (Json.make PStr doc) = Some (PStr text)).
  { rewrite (make_at _ _ _ _ Hat). f_equal. by apply make_float_literal. }
  split; [eauto|].
  intros row column inner value -> Hin.
  destruct k as [|k]; [by apply elem_of_nil in Hin|].
  destruct (consume_created types content k)
    as [e tss _ Htr _ _ _ | ns cs rs tss _ Hdone _ Hcons].
  - rewrite Htr in Hin.
    pose proof (setup_trace_no_convert (body_of content) tss) as Hno.
    rewrite Forall_forall in Hno. by specialize (Hno _ Hin).
  - destruct (consumed_trace _ _ _ _ _ _ _ _ Hcons) as (n & _ & Htr).
    rewrite Htr in Hin. apply elem_of_app in Hin as [Hin|Hin].
    { pose proof (setup_trace_no_convert (body_of content) tss) as Hno.
      rewrite Forall_forall in Hno. by specialize (Hno _ Hin). }
    destruct (rows_trace_events _ _ _ _ Hin)
      as (m & c & r & items & v & Heq & Hm & Hit & Hv & _).
    injection Heq as -> -> ->. cbn [Nat.add] in *.
    apply lookup_take_Some in Hm as [Hm _].
    destruct Hdone as [response meta columns data Hloads _ _ _ Hdata Hrows].
    rewrite Hresp in Hloads. injection Hloads as <-.
    cbn [py_at] in Hpy.
    destruct (Json.make PStr doc) as [| | | | |?|d|?|]; try discriminate.
    cbn [getitem] in Hdata.
    destruct (dict_get "data" d) as [data'|]; [|discriminate].
    injection Hdata as ->.
    destruct data as [| | | | |rows'|?|?|]; try discriminate.
    cbn in Hrows. injection Hrows as ->.
    rewrite Hm in Hpy.
    destruct r as [| | | | |items'|?|?|]; try discriminate.
    cbn in Hit. injection Hit as ->.
    by rewrite Hv in Hpy.
Qed.

Example decimals_session :
  consume 1 (parse_json_compact SpecTypes.registry decimals)
  = {| trace :=
         [EvRead (body_of decimals); EvLoads (body_of decimals);
          EvParseType 0 (PStr "Decimal(9, 2)");
          EvParseType 1 (PStr "Array(Decimal(9, 3))");
          EvConvert 0 0 (PStr "1.10");
          EvConvert 0 1 (PList [PStr "0.125"; PStr "-3.5"])];
       received :=
         [ {| names := [PStr "price"; PStr "xs"];
              values := [PDecimal 110 2; PList [PDecimal 125 3; PDecimal (-3500) 3]] |} ];
       state := Running;
       gen := Suspended drained [PStr "price"; PStr "xs"]
                [SpecTypes.Decimal_from_json 2;
                 SpecTypes.Array_from_json (SpecTypes.Decimal_from_json 3)] 1 [] |}.
Proof. vm_compute. reflexivity. Qed.

Lemma C3_witness :
  exists doc,
    let path := [Key "data"; Index 0; Index 1; Index 1] in
    let j := Json.JNumber "-3" ".5" "" in
    let text := "-3.5" in
    Json.decode (body_of decimals) = Ok doc /\
    json_at path doc = Some j /\
    float_literal j = Some text /\
    (exists before after, body_of decimals = before +:+ text +:+ after) /\
    (exists response,
       Json.loads PStr (body_of decimals) = Ok response /\
       py_at path response = Some (PStr text)) /\
    (forall row column inner value,
       path = Key "data" :: Index row :: Index column :: inner ->
       EvConvert row column value
         ∈ trace (consume 1 (parse_json_compact SpecTypes.registry decimals)) ->
       py_at inner value = Some (PStr text)).
Proof.
  destruct (Json.decode (body_of decimals)) as [doc|e] eqn:Hdoc.
  - exists doc. cbn zeta.
    assert (Hat : json_at [Key "data"; Index 0; Index 1; Index 1] doc
                  = Some (Json.JNumber "-3" ".5" "")).
    { vm_compute in Hdoc. injection Hdoc as <-. vm_compute. reflexivity. }
    assert (Hfl : float_literal (Json.JNumber "-3" ".5" "") = Some "-3.5")
      by reflexivity.
    split; [reflexivity|]. split; [exact Hat|]. split; [exact Hfl|].
    exact (C3_float_literals_kept_as_text SpecTypes.registry decimals 1 doc
             _ _ _ Hdoc Hat Hfl).
  - exfalso. vm_compute in Hdoc. discriminate Hdoc.
Defined.

(** ** The type grammar is unambiguous, and the parser follows it *)

Lemma span_length p s : forall pre r,
  span p s = (pre, r) -> String.length r <= String.length s.
Proof.
  induction s as [|c s IH]; intros pre r H; cbn in H.
  - injection H as _ <-. reflexivity.
  - destruct (p c).
    + destruct (span p s) as [pre' r'] eqn:Hs. injection H as _ <-.
      specialize (IH _ _ eq_refl). cbn. lia.
    + injection H as _ <-. reflexivity.
Qed.

Lemma lex_string_length n : forall s body rest,
  String.length s <= n ->
  lex_string s = Some (body, rest) -> String.length rest < String.length s.
Proof.
  induction n as [|n IH]; intros s body rest Hn H.
  - destruct s; [discriminate | cbn in Hn; lia].
  - destruct s as [|c r]; [discriminate|]. cbn in Hn. cbn [lex_string] in H.
    destruct (c =? quote)%char; [injection H as _ <-; cbn; lia|].
    destruct (c =? backslash)%char.
    + destruct r as [|e r']; [discriminate|]. cbn in Hn.
      destruct (is_escape e); [|discriminate].
      destruct (lex_string r') as [[b rest']|] eqn:Hs; [|discriminate].
      injection H as _ <-. apply IH in Hs; [|lia]. cbn. lia.
    + destruct (lex_string r) as [[b rest']|] eqn:Hs; [|discriminate].
      injection H as _ <-. apply IH in Hs; [|lia]. cbn. lia.
Qed.

Lemma lex_S fuel s :
  lex (S fuel) s
  = match s with
    | EmptyString => Ok []
    | String c r =>
        if is_space c then lex fuel r
        else if (c =? "(")%char then try! ts <- lex fuel r ; Ok (TLPar :: ts)
        else if (c =? ")")%char then try! ts <- lex fuel r ; Ok (TRPar :: ts)
        else if (c =? ",")%char then try! ts <- lex fuel r ; Ok (TComma :: ts)
        else if (c =? "=")%char then try! ts <- lex fuel r ; Ok (TEq :: ts)
        else if (c =? quote)%char then
          match lex_string r with
          | Some (body, rest) =>
              try! ts <- lex fuel rest ;
              Ok (TString (String quote body +:+ String quote EmptyString) :: ts)
          | None => Raise (UnexpectedInput "No terminal matches")
          end
        else if is_alpha c then
          let (name, rest) := span (fun a => is_alpha a || is_digit a) r in
          try! ts <- lex fuel rest ;
          Ok (TIdent (String c name) :: ts)
        else if is_digit c then
          let (ds, rest) := span is_digit r in
          try! ts <- lex fuel rest ;
          Ok (TInt (String c ds) :: ts)
        else if ((c =? "-") || (c =? "+"))%char then
          match span is_digit r with
          | (String d ds, rest) =>
              try! ts <- lex fuel rest ;
              Ok (TInt (String c (String d ds)) :: ts)
          | (EmptyString, _) => Raise (UnexpectedInput "No terminal matches")
          end
        else Raise (UnexpectedInput "No terminal matches")
    end.
Proof. reflexivity. Qed.

(** The lexer never uses more fuel than the declaration is long. *)
Lemma lex_fuel fuel : forall s,
  String.length s < fuel -> lex (S fuel) s = lex fuel s.
Proof.
  induction fuel as [|fuel IH]; intros s Hlen; [lia|].
  rewrite (lex_S (S fuel)), (lex_S fuel).
  destruct s as [|c r]; [reflexivity|]. cbn [String.length] in Hlen.
  destruct (is_space c); [apply IH; lia|].
  destruct (c =? "(")%char; [rewrite IH by lia; reflexivity|].
  destruct (c =? ")")%char; [rewrite IH by lia; reflexivity|].
  destruct (c =? ",")%char; [rewrite IH by lia; reflexivity|].
  destruct (c =? "=")%char; [rewrite IH by lia; reflexivity|].
  destruct (c =? quote)%char.
  { destruct (lex_string r) as [[body rest]|] eqn:Hs; [|reflexivity].
    apply (lex_string_length _ _ _ _ (le_n _)) in Hs.
    rewrite IH by lia. reflexivity. }
  destruct (is_alpha c).
  { destruct (span _ r) as [name rest] eqn:Hs. apply span_length in Hs.
    rewrite IH by lia. reflexivity. }
  destruct (is_digit c).
  { destruct (span _ r) as [ds rest] eqn:Hs. apply span_length in Hs.
    rewrite IH by lia. reflexivity. }
  destruct ((c =? "-") || (c =? "+"))%char; [|reflexivity].
  destruct (span is_digit r) as [[|d ds] rest] eqn:Hs; [reflexivity|].
  apply span_length in Hs. rewrite IH by lia. reflexivity.
Qed.

Lemma lex_fuel_enough s fuel :
  S (String.length s) <= fuel -> lex fuel s = lex (S (String.length s)) s.
Proof.
  induction 1 as [|fuel Hle IH]; [reflexivity|].
  rewrite <- IH. apply lex_fuel. lia.
Qed.

Lemma derives_deterministic n input nodes rest :
  derives n input nodes rest ->
  forall nodes' rest',
    derives n input nodes' rest' ->
    follows n rest -> follows n rest' ->
    nodes = nodes' /\ rest = rest'.
Proof.
  induction 1 as
    [ name rest
    | name input args rest Hargs IH
    | input node rest Htype IH
    | n rest
    | s rest
    | s n rest
    | input node rest Harg IH
    | input node input' nodes rest Harg IHarg Hargs IHargs ];
    intros nodes' rest' H' F F'.
  - inversion H'; subst; [auto | by destruct F].
  - inversion H'; subst; [by destruct F'|].
    match goal with H : derives NArgs _ _ _ |- _ =>
      destruct (IH _ _ H) as [-> Heq]; [cbn; eauto..|] end.
    by injection Heq as ->.
  - inversion H'; subst; try (by inversion Htype).
    by apply IH.
  - inversion H'; subst; [|auto].
    match goal with H : derives NType _ _ _ |- _ => inversion H end.
  - inversion H'; subst; [|auto|by destruct F].
    match goal with H : derives NType _ _ _ |- _ => inversion H end.
  - inversion H'; subst; [|by destruct F'|auto].
    match goal with H : derives NType _ _ _ |- _ => inversion H end.
  - destruct F as [r0 ->]. destruct F' as [r0' ->].
    inversion H'; subst.
    + by apply IH.
    + match goal with H : derives NArg _ _ (TComma :: _) |- _ =>
        destruct (IH _ _ H) as [_ Heq]; [exact I..|discriminate Heq] end.
  - destruct F as [r0 ->]. destruct F' as [r0' ->].
    inversion H'; subst.
    + match goal with H : derives NArg _ _ (TRPar :: _) |- _ =>
        destruct (IHarg _ _ H) as [_ Heq]; [exact I..|discriminate Heq] end.
    + match goal with H : derives NArg _ _ (TComma :: _) |- _ =>
        destruct (IHarg _ _ H) as [-> Heq]; [exact I..|] end.
      injection Heq as <-.
      match goal with H : derives NArgs _ _ _ |- _ =>
        destruct (IHargs _ _ H) as [-> Heq]; [cbn; eauto..|] end.
      auto.
Qed.

Lemma derives_length n input nodes rest :
  derives n input nodes rest -> length rest < length input.
Proof. induction 1; cbn in *; lia. Qed.

Lemma parse_arg_sound type_expr input node rest :
  (forall input t rest, type_expr input = Ok (t, rest) -> derives NType input [t] rest) ->
  parse_arg type_expr input = Ok (node, rest) ->
  derives NArg input [node] rest.
Proof.
  intros Htype H. unfold parse_arg in H.
  destruct input as [|[s|s|s| | | |] input];
    try (apply D_arg_type, Htype, H).
  - injection H as <- <-. apply D_arg_int.
  - destruct input as [|[| | | | | |] input];
      try (injection H as <- <-; apply D_arg_string).
    destruct input as [|[|n| | | | |] input];
      injection H as <- <-; first [apply D_arg_pair | apply D_arg_string].
Qed.

(** Whatever the parser returns is a derivation of the grammar. *)
Lemma parser_sound fuel :
  (forall input t rest,
     parse_type_expr fuel input = Ok (t, rest) -> derives NType input [t] rest) /\
  (forall input nodes rest,
     parse_args fuel input = Ok (nodes, rest) ->
     derives NArgs input nodes (TRPar :: rest)).
Proof.
  induction fuel as [|fuel [IHt IHa]]; [split; discriminate|].
  split.
  - intros input t rest H. cbn [parse_type_expr] in H.
    destruct input as [|[name| | | | | |] input]; try discriminate.
    destruct input as [|[| | | | | |] input]; try (injection H as <- <-; constructor).
    destruct (parse_args fuel input) as [[args rest']|] eqn:Hargs; [|discriminate].
    cbn in H. injection H as <- <-. constructor. by apply IHa.
  - intros input nodes rest H. cbn [parse_args] in H.
    destruct (parse_arg (parse_type_expr fuel) input) as [[node rest0]|] eqn:Harg;
      [|discriminate].
    apply (parse_arg_sound _ _ _ _ IHt) in Harg. cbn in H.
    destruct rest0 as [|[| | | | | |] rest0]; try discriminate.
    + injection H as <- <-. by apply D_args_last.
    + destruct (parse_args fuel rest0) as [[nodes' rest']|] eqn:Hargs; [|discriminate].
      cbn in H. injection H as <- <-.
      apply (D_args_more _ [node] rest0 nodes' (TRPar :: rest')); auto.
Qed.

(** With enough fuel the parser finds the derivation. *)
Lemma parser_complete n input nodes rest :
  derives n input nodes rest ->
  follows n rest ->
  forall fuel, length input + slack n <= fuel + length rest ->
  match n with
  | NType => exists t, nodes = [t] /\ parse_type_expr fuel input = Ok (t, rest)
  | NArg =>
      exists t, nodes = [t] /\ parse_arg (parse_type_expr fuel) input = Ok (t, rest)
  | NArgs => exists rest', rest = TRPar :: rest' /\ parse_args fuel input = Ok (nodes, rest')
  end.
Proof.
  induction 1 as
    [ name rest
    | name input args rest Hargs IH
    | input node rest Htype IH
    | n rest
    | s rest
    | s n rest
    | input node rest Harg IH
    | input node input' nodes rest Harg IHarg Hargs IHargs ];
    intros F fuel Hfuel; cbn [slack length] in Hfuel.
  - destruct fuel as [|fuel]; [lia|].
    exists (simple_node name). split; [reflexivity|].
    cbn. destruct rest as [|[| | | | | |] rest]; try reflexivity. destruct F.
  - pose proof (derives_length _ _ _ _ Hargs) as Hl. cbn in Hl.
    destruct fuel as [|fuel]; [lia|].
    destruct (IH ltac:(cbn; eauto) fuel ltac:(cbn [slack length]; lia))
      as (rest' & Heq & Hp).
    injection Heq as <-.
    exists (composite_node name args). split; [reflexivity|].
    cbn [parse_type_expr]. by rewrite Hp.
  - destruct (IH F fuel ltac:(cbn [slack]; lia)) as (t & -> & Hp).
    exists t. split; [reflexivity|].
    inversion Htype; subst; exact Hp.
  - eexists. split; reflexivity.
  - eexists. split; [reflexivity|].
    cbn. destruct rest as [|[| | | | | |] rest]; try reflexivity. destruct F.
  - eexists. split; reflexivity.
  - destruct F as [rest' ->]. exists rest'. split; [reflexivity|].
    pose proof (derives_length _ _ _ _ Harg) as Hl. cbn in Hl, Hfuel.
    destruct fuel as [|fuel]; [lia|].
    destruct (IH I fuel ltac:(cbn [slack length]; lia)) as (t & -> & Hp).
    cbn [parse_args]. by rewrite Hp.
  - destruct F as [rest' ->]. exists rest'. split; [reflexivity|].
    pose proof (derives_length _ _ _ _ Harg) as Hl.
    pose proof (derives_length _ _ _ _ Hargs) as Hl'. cbn in Hl, Hl', Hfuel.
    destruct fuel as [|fuel]; [lia|].
    destruct (IHarg I fuel ltac:(cbn [slack length]; lia)) as (t & -> & Hp).
    destruct (IHargs ltac:(cbn; eauto) fuel ltac:(cbn [slack length]; lia))
      as (rest'' & Heq & Hp').
    injection Heq as <-.
    cbn [parse_args]. rewrite Hp. cbn. by rewrite Hp'.
Qed.

(** The parser yields a tree exactly when the grammar accepts the
    declaration with it. *)
Lemma parse_accepts type_str t :
  parse type_str = Ok t <-> accepts type_str t.
Proof.
  unfold parse, accepts. split.
  - intros H.
    destruct (lex (S (String.length type_str)) type_str) as [toks|] eqn:Hlex;
      [|discriminate]. cbn [rbind] in H.
    destruct (parse_type_expr (S (length toks)) toks) as [[node rest]|] eqn:Hp;
      [|discriminate]. cbn [rbind] in H.
    destruct rest; [|discriminate]. injection H as <-.
    exists toks, node. repeat split. by apply (parser_sound (S (length toks))).
  - intros (toks & node & -> & Hd & ->). cbn [rbind].
    destruct (parser_complete _ _ _ _ Hd I (S (length toks)) ltac:(cbn; lia))
      as (t & Heq & ->).
    by injection Heq as <-.
Qed.

Lemma accepts_unique type_str t1 t2 :
  accepts type_str t1 -> accepts type_str t2 -> t1 = t2.
Proof.
  intros (toks & node & Hlex & Hd & ->) (toks' & node' & Hlex' & Hd' & ->).
  rewrite Hlex in Hlex'. injection Hlex' as <-.
  destruct (derives_deterministic _ _ _ _ Hd _ _ Hd' I I) as [Heq _].
  by injection Heq as ->.
Qed.

(** ** Unknown type names *)












Example unknown_column_session :
  consume 2 (parse_json_compact SpecTypes.registry unknown_column)
  = {| trace :=
         [EvRead (body_of unknown_column); EvLoads (body_of unknown_column);
          EvParseType 0 (PStr "UInt8");
          EvParseType 1 (PStr "Array(Nullable(Foo))")];
       received := [];
       state := Failed (KeyError "Foo");
       gen := Closed |}.
Proof. vm_compute. reflexivity. Qed.


(** * Further properties

    Error and edge behaviour of [parse_json_compact], the protocol of the
    generator, the values [json.loads] builds for the cells, and the way
    [TypeTransformer] uses the registry. *)

(** ** The setup, failure by failure *)

(** The setup, stage by stage: what is appended to the trace and what is
    raised depends on the first stage that fails. *)
Lemma setup_unfold types body :
  setup types body
  = match Json.loads PStr body with
    | Raise e => ([EvLoads body], Raise e)
    | Ok response =>
        match columns_of response with
        | Raise e => ([EvLoads body], Raise e)
        | Ok columns =>
            match columns_loop types 0 columns [] [] with
            | (tr, Raise e) => (EvLoads body :: tr, Raise e)
            | (tr, Ok (names_, converters)) =>
                match rows_of response with
                | Raise e => (EvLoads body :: tr, Raise e)
                | Ok rows => (EvLoads body :: tr, Ok (names_, converters, rows))
                end
            end
        end
    end.
Proof.
  unfold setup, columns_of, rows_of, bind, lift, emit, ret, rbind.
  destruct (Json.loads PStr body) as [response|]; [|reflexivity].
  destruct (getitem response "meta") as [meta|]; [|reflexivity].
  destruct (py_iter meta) as [columns|]; [|reflexivity].
  destruct (columns_loop types 0 columns [] []) as [tr [[ns cs]|]]; [|by rewrite ?app_nil_r].
  destruct (getitem response "data") as [data|]; [|by rewrite ?app_nil_r].
  destruct (py_iter data) as [rows|]; cbn; by rewrite ?app_nil_r.
Qed.

Lemma consume_setup_raise types content k tr e :
  setup types (body_of content) = (tr, Raise e) ->
  consume (S k) (parse_json_compact types content)
  = failed_at_setup (EvRead (body_of content) :: tr) e.
Proof.
  intros H. unfold parse_json_compact. cbn [consume anext read]. by rewrite H.
Qed.

Lemma parse_events_app type_strs1 type_strs2 : forall column,
  parse_events column (type_strs1 ++ type_strs2)
  = parse_events column type_strs1
    ++ parse_events (column + length type_strs1) type_strs2.
Proof.
  induction type_strs1 as [|ts type_strs1 IH]; intros column; cbn.
  - by rewrite Nat.add_0_r.
  - rewrite IH. do 3 f_equal. lia.
Qed.

(** The loop over columns that all resolve. *)
Lemma columns_loop_resolved types meta names_ type_strs converters :
  columns_resolved types meta names_ type_strs converters ->
  forall column names0 convs0,
    columns_loop types column meta names0 convs0
    = (parse_events column type_strs, Ok (names0 ++ names_, convs0 ++ converters)).
Proof.
  induction 1 as [|col meta name names_ type_str type_strs type_obj conv converters
                   Hname Htype Hparse Hconv _ IH]; intros column names0 convs0.
  - cbn. by rewrite !app_nil_r.
  - cbn [columns_loop]. rewrite Hname, Htype. unfold bind, lift, emit.
    rewrite Hparse, Hconv. rewrite IH. cbn. by rewrite <- !app_assoc.
Qed.

(** The loop stops at the first column that fails. *)
Lemma columns_loop_stops types before names_ type_strs converters col after seen e :
  columns_resolved types before names_ type_strs converters ->
  resolve_column types col = (seen, Raise e) ->
  forall column names0 convs0,
    columns_loop types column (before ++ col :: after) names0 convs0
    = (parse_events column (type_strs ++ option_list seen), Raise e).
Proof.
  intros Hres Hcol.
  induction Hres as [|c meta name names_ type_str type_strs type_obj conv converters
                      Hname Htype Hparse Hconv _ IH]; intros column names0 convs0.
  - cbn [app columns_loop]. unfold resolve_column in Hcol. unfold bind, lift, emit.
    destruct (getitem col "name") as [name|]; [|by injection Hcol as <- <-].
    destruct (getitem col "type") as [type_str|]; [|by injection Hcol as <- <-].
    injection Hcol as <- Hcol.
    destruct (parse_type types type_str) as [type_obj|]; cbn in Hcol;
      [|by injection Hcol as <-].
    destruct (getattr_from_json type_obj) as [conv|]; cbn in Hcol;
      [discriminate | by injection Hcol as <-].
  - cbn [app columns_loop]. rewrite Hname, Htype. unfold bind, lift, emit.
    rewrite Hparse, Hconv. rewrite IH. reflexivity.
Qed.

(** X2. An empty body, or one of white space only, is not an empty result:
    the first request fails with the decoder's "Expecting value". *)
Theorem empty_body_is_a_decode_error types content k :
  Json.skip_ws (body_of content) = "" ->
  consume (S k) (parse_json_compact types content)
  = failed_at_setup [EvRead (body_of content); EvLoads (body_of content)]
      (JSONDecodeError "Expecting value").
Proof.
  intros H. apply consume_setup_raise.
  rewrite setup_unfold. unfold Json.loads, Json.decode. by rewrite H.
Qed.

Lemma empty_body_witness :
  Json.skip_ws (body_of drained) = "" /\
  consume 1 (parse_json_compact SpecTypes.registry drained)
  = failed_at_setup [EvRead (body_of drained); EvLoads (body_of drained)]
      (JSONDecodeError "Expecting value").
Proof.
  split; [reflexivity|].
  exact (empty_body_is_a_decode_error SpecTypes.registry drained 0 eq_refl).
Defined.

(** X3. A decoded response that has no usable [meta] fails the first request
    before any declaration is parsed, whatever it holds as [data]: with a
    [KeyError] for [meta] when the response is an object without that
    member, and with a [TypeError] when the response is no object or
    [meta] cannot be iterated. *)
Theorem envelope_without_columns_fails_before_parsing types content k response e :
  Json.loads PStr (body_of content) = Ok response ->
  columns_of response = Raise e ->
  consume (S k) (parse_json_compact types content)
  = failed_at_setup [EvRead (body_of content); EvLoads (body_of content)] e /\
  match response with
  | PDict d =>
      match dict_get "meta" d with
      | None => e = KeyError "meta"
      | Some _ => exists msg, e = TypeError msg
      end
  | _ => exists msg, e = TypeError msg
  end.
Proof.
  intros Hloads Hcols. split.
  - apply consume_setup_raise. by rewrite setup_unfold, Hloads, Hcols.
  - unfold columns_of in Hcols.
    destruct response; cbn in Hcols; try (injection Hcols as <-; eauto; fail).
    destruct (dict_get "meta" pairs) as [meta|]; cbn in Hcols;
      [|by injection Hcols as <-].
    destruct meta; cbn in Hcols; try discriminate; injection Hcols as <-; eauto.
Qed.

Lemma envelope_without_columns_witness :
  exists response,
    Json.loads PStr (body_of no_meta) = Ok response /\
    columns_of response = Raise (KeyError "meta") /\
    consume 2 (parse_json_compact SpecTypes.registry no_meta)
    = failed_at_setup [EvRead (body_of no_meta); EvLoads (body_of no_meta)]
        (KeyError "meta") /\
    match response with
    | PDict d =>
        match dict_get "meta" d with
        | None => KeyError "meta" = KeyError "meta"
        | Some _ => exists msg, KeyError "meta" = TypeError msg
        end
    | _ => exists msg, KeyError "meta" = TypeError msg
    end.
Proof.
  destruct (Json.loads PStr (body_of no_meta)) as [response|e] eqn:Hloads.
  - exists response.
    assert (Hcols : columns_of response = Raise (KeyError "meta")).
    { vm_compute in Hloads. injection Hloads as <-. reflexivity. }
    split; [reflexivity|]. split; [exact Hcols|].
    exact (envelope_without_columns_fails_before_parsing
             SpecTypes.registry no_meta 1 response _ Hloads Hcols).
  - exfalso. vm_compute in Hloads. discriminate Hloads.
Defined.

(** X4. The columns are taken in order and the first that fails ends the
    setup with its own error: the declarations before it were parsed, its
    own was parsed only if its [name] and [type] could both be read (the
    name first), and no later column is looked at, nor is [data]. *)
Theorem columns_are_resolved_in_order_until_one_fails
    types content k response before col after names_ type_strs converters seen e :
  Json.loads PStr (body_of content) = Ok response ->
  columns_of response = Ok (before ++ col :: after) ->
  columns_resolved types before names_ type_strs converters ->
  resolve_column types col = (seen, Raise e) ->
  consume (S k) (parse_json_compact types content)
  = failed_at_setup
      (setup_trace (body_of content) (type_strs ++ option_list seen)) e /\
  forall column, length before < column ->
    parse_calls column (trace (consume (S k) (parse_json_compact types content))) = 0.
Proof.
  intros Hloads Hcols Hres Hcol.
  assert (Hs : consume (S k) (parse_json_compact types content)
               = failed_at_setup
                   (setup_trace (body_of content) (type_strs ++ option_list seen)) e).
  { apply consume_setup_raise.
    rewrite setup_unfold, Hloads, Hcols.
    by rewrite (columns_loop_stops _ _ _ _ _ _ after _ _ Hres Hcol). }
  split; [exact Hs|].
  intros column Hlt. rewrite Hs. cbn [failed_at_setup trace setup_trace parse_calls].
  rewrite parse_calls_parse_events.
  apply columns_resolved_length in Hres.
  case_decide as Hd; [|reflexivity].
  rewrite length_app in Hd. destruct seen; cbn in Hd; lia.
Qed.

Lemma columns_in_order_witness :
  exists response names_ converters,
    let before := [PDict [("name", PStr "a"); ("type", PStr "UInt8")]] in
    let col := PDict [("type", PStr "Foo")] in
    let after := [PDict [("name", PStr "c"); ("type", PStr "Bar")]] in
    let type_strs := [PStr "UInt8"] in
    let s := consume 1 (parse_json_compact SpecTypes.registry nameless_column) in
    Json.loads PStr (body_of nameless_column) = Ok response /\
    columns_of response = Ok (before ++ col :: after) /\
    columns_resolved SpecTypes.registry before names_ type_strs converters /\
    resolve_column SpecTypes.registry col = (None, Raise (KeyError "name")) /\
    s = failed_at_setup
          (setup_trace (body_of nameless_column) (type_strs ++ option_list None))
          (KeyError "name") /\
    forall column, length before < column -> parse_calls column (trace s) = 0.
Proof.
  destruct (Json.loads PStr (body_of nameless_column)) as [response|e] eqn:Hloads.
  - pose proof Hloads as Hnf. vm_compute in Hnf. injection Hnf as <-.
    eexists _, _, _. cbn zeta.
    assert (Hcols : columns_of
              (PDict [("meta", PList [PDict [("name", PStr "a"); ("type", PStr "UInt8")];
                                      PDict [("type", PStr "Foo")];
                                      PDict [("name", PStr "c"); ("type", PStr "Bar")]])])
            = Ok ([PDict [("name", PStr "a"); ("type", PStr "UInt8")]]
                  ++ PDict [("type", PStr "Foo")]
                  :: [PDict [("name", PStr "c"); ("type", PStr "Bar")]])) by reflexivity.
    assert (Hres : columns_resolved SpecTypes.registry
              [PDict [("name", PStr "a"); ("type", PStr "UInt8")]]
              [PStr "a"] [PStr "UInt8"] [SpecTypes.UInt8_from_json]).
    { econstructor; [reflexivity | reflexivity | vm_compute; reflexivity | reflexivity |].
      constructor. }
    assert (Hcol : resolve_column SpecTypes.registry (PDict [("type", PStr "Foo")])
                   = (None, Raise (KeyError "name"))) by reflexivity.
    split; [exact Hloads|]. split; [exact Hcols|]. split; [exact Hres|].
    split; [exact Hcol|].
    exact (columns_are_resolved_in_order_until_one_fails
             SpecTypes.registry nameless_column 0 _ _ _ _ _ _ _ _ _
             Hloads Hcols Hres Hcol).
  - exfalso. vm_compute in Hloads. discriminate Hloads.
Defined.

(** X5. [data] is looked at only after every column has been resolved: a
    response whose columns all resolve and whose [data] is missing or cannot
    be iterated fails the first request with that error, a [KeyError] for
    [data] when the member is missing, after the declaration of each column
    has been parsed. *)
Theorem missing_rows_found_after_columns
    types content k response columns names_ type_strs converters e :
  Json.loads PStr (body_of content) = Ok response ->
  columns_of response = Ok columns ->
  columns_resolved types columns names_ type_strs converters ->
  rows_of response = Raise e ->
  consume (S k) (parse_json_compact types content)
  = failed_at_setup (setup_trace (body_of content) type_strs) e /\
  length type_strs = length columns /\
  forall d, response = PDict d -> dict_get "data" d = None -> e = KeyError "data".
Proof.
  intros Hloads Hcols Hres Hrows. split; [|split].
  - apply consume_setup_raise.
    rewrite setup_unfold, Hloads, Hcols.
    rewrite (columns_loop_resolved _ _ _ _ _ Hres). cbn [app].
    by rewrite Hrows.
  - apply columns_resolved_length in Hres. lia.
  - intros d -> Hd. unfold rows_of in Hrows. cbn in Hrows. rewrite Hd in Hrows.
    by injection Hrows as <-.
Qed.

Lemma missing_rows_witness :
  exists response columns names_ converters,
    let type_strs := [PStr "UInt8"; PStr "String"] in
    Json.loads PStr (body_of no_data) = Ok response /\
    columns_of response = Ok columns /\
    columns_resolved SpecTypes.registry columns names_ type_strs converters /\
    rows_of response = Raise (KeyError "data") /\
    consume 1 (parse_json_compact SpecTypes.registry no_data)
    = failed_at_setup (setup_trace (body_of no_data) type_strs) (KeyError "data") /\
    length type_strs = length columns /\
    forall d, response = PDict d -> dict_get "data" d = None ->
      KeyError "data" = KeyError "data".
Proof.
  destruct (Json.loads PStr (body_of no_data)) as [response|e] eqn:Hloads.
  - pose proof Hloads as Hnf. vm_compute in Hnf. injection Hnf as <-.
    eexists _, _, _, _. cbn zeta.
    assert (Hcols : columns_of
              (PDict [("meta", PList [PDict [("name", PStr "a"); ("type", PStr "UInt8")];
                                      PDict [("name", PStr "b"); ("type", PStr "String")]]);
                      ("rows", PInt 0)])
            = Ok [PDict [("name", PStr "a"); ("type", PStr "UInt8")];
                  PDict [("name", PStr "b"); ("type", PStr "String")]]) by reflexivity.
    assert (Hres : columns_resolved SpecTypes.registry
              [PDict [("name", PStr "a"); ("type", PStr "UInt8")];
               PDict [("name", PStr "b"); ("type", PStr "String")]]
              [PStr "a"; PStr "b"] [PStr "UInt8"; PStr "String"]
              [SpecTypes.UInt8_from_json; SpecTypes.String_from_json]).
    { econstructor; [reflexivity | reflexivity | vm_compute; reflexivity | reflexivity |].
      econstructor; [reflexivity | reflexivity | vm_compute; reflexivity | reflexivity |].
      constructor. }
    assert (Hrows : rows_of
              (PDict [("meta", PList [PDict [("name", PStr "a"); ("type", PStr "UInt8")];
                                      PDict [("name", PStr "b"); ("type", PStr "String")]]);
                      ("rows", PInt 0)])
            = Raise (KeyError "data")) by reflexivity.
    split; [exact Hloads|]. split; [exact Hcols|]. split; [exact Hres|].
    split; [exact Hrows|].
    exact (missing_rows_found_after_columns SpecTypes.registry no_data 0 _ _ _ _ _ _
             Hloads Hcols Hres Hrows).
  - exfalso. vm_compute in Hloads. discriminate Hloads.
Defined.

(** ** The rows and the end of the iteration *)

(** X6. A row that cannot be iterated fails the request for it with the
    error of [zip], before any converter is called on it; the Records of the
    rows before it stay with the consumer and the generator is finished. *)
Theorem row_that_is_no_sequence_fails_its_request
    types content tr names_ converters rows i row e :
  setup types (body_of content) = (tr, Ok (names_, converters, rows)) ->
  rows !! i = Some row ->
  py_iter row = Raise e ->
  let g := parse_json_compact types content in
  state (consume i g) = Running ->
  state (consume (S i) g) = Failed e /\
  received (consume (S i) g) = received (consume i g) /\
  gen (consume (S i) g) = Closed /\
  forall j v, EvConvert i j v ∉ trace (consume (S i) g).
Proof.
  intros Hsetup Hrow Hit g Hrun.
  destruct (run_of_setup_ok _ _ i _ _ _ _ Hsetup) as (tss & _ & Hdone & Hrec & Hcons).
  fold g in Hrec, Hcons.
  assert (Hraise : row_result converters row = Raise e).
  { unfold row_result. by rewrite Hit. }
  pose proof (consume_length g i) as Hl. rewrite Hrun in Hl.
  destruct (consume_prefix g i (S i) ltac:(lia)) as [_ [rest Hrest]].
  assert (Hi : i <= length (received (consume (S i) g))).
  { rewrite Hrest, length_app. lia. }
  destruct Hcons as [H1 H2 H3 H4 | H1 H2 H3 H4 H5 | e' row' H1 H2 H3 H4 H5 H6].
  - exfalso.
    destruct (lookup_lt_is_Some_2 (received (consume (S i) g)) i ltac:(lia)) as [r Hr].
    destruct (Forall2_lookup_r _ _ _ _ _ Hrec Hr) as (row' & Hrow' & _ & Hres).
    apply lookup_take_Some in Hrow' as [Hrow' _].
    rewrite Hrow in Hrow'. injection Hrow' as <-. congruence.
  - apply lookup_lt_Some in Hrow. lia.
  - assert (Hm : length (received (consume (S i) g)) = i) by lia.
    rewrite Hm in H3, H5. rewrite Hrow in H3. injection H3 as <-.
    rewrite Hraise in H4. injection H4 as <-.
    split; [exact H1|]. split; [|split; [exact H6|]].
    + rewrite Hrest in Hm |- *. rewrite length_app in Hm.
      destruct rest; [by rewrite app_nil_r | cbn in Hm; lia].
    + intros j v Hin. fold g in H5. rewrite H5 in Hin.
      apply elem_of_app in Hin as [Hin|Hin].
      { pose proof (setup_trace_no_convert (body_of content) tss) as Hno.
        rewrite Forall_forall in Hno. by specialize (Hno _ Hin). }
      rewrite (take_S_r _ _ _ Hrow), rows_trace_app in Hin.
      apply elem_of_app in Hin as [Hin|Hin].
      * destruct (rows_trace_events _ _ _ _ Hin) as (n & j' & r & items & v' & Heq & Hn & _).
        injection Heq as -> _ _.
        apply lookup_lt_Some in Hn. rewrite length_take in Hn. lia.
      * cbn in Hin. unfold row_trace in Hin. rewrite Hit in Hin. cbn in Hin.
        by apply elem_of_nil in Hin.
Qed.

Lemma row_that_is_no_sequence_witness :
  exists tr names_ converters rows,
    let g := parse_json_compact SpecTypes.registry scalar_row in
    let e := TypeError "object is not iterable" in
    setup SpecTypes.registry (body_of scalar_row) = (tr, Ok (names_, converters, rows)) /\
    rows !! 1 = Some (PInt 2) /\
    py_iter (PInt 2) = Raise e /\
    state (consume 1 g) = Running /\
    state (consume 2 g) = Failed e /\
    received (consume 2 g) = received (consume 1 g) /\
    gen (consume 2 g) = Closed /\
    forall j v, EvConvert 1 j v ∉ trace (consume 2 g).
Proof.
  destruct (setup SpecTypes.registry (body_of scalar_row))
    as [tr [[[names_ converters] rows]|e]] eqn:Hsetup.
  - pose proof Hsetup as Hnf. vm_compute in Hnf. injection Hnf as <- <- <- <-.
    eexists _, _, _, _. cbn zeta.
    assert (H2 : [PList [PInt 1]; PInt 2; PList [PInt 3]] !! 1 = Some (PInt 2))
      by reflexivity.
    assert (H3 : py_iter (PInt 2) = Raise (TypeError "object is not iterable"))
      by reflexivity.
    assert (H4 : state (consume 1 (parse_json_compact SpecTypes.registry scalar_row))
                 = Running) by (vm_compute; reflexivity).
    split; [exact Hsetup|]. split; [exact H2|]. split; [exact H3|]. split; [exact H4|].
    exact (row_that_is_no_sequence_fails_its_request
             SpecTypes.registry scalar_row _ _ _ _ 1 _ _ Hsetup H2 H3 H4).
  - exfalso. vm_compute in Hsetup. discriminate Hsetup.
Defined.

(** X7. Once the setup has completed, the iteration ends normally exactly
    when every row converts and the consumer asks beyond the last one; the
    consumer then holds the Record of each row, in order, every row has been
    converted, and the generator is finished. *)
Theorem iteration_ends_normally_after_the_last_row
    types content k tr names_ converters rows :
  setup types (body_of content) = (tr, Ok (names_, converters, rows)) ->
  let s := consume (S k) (parse_json_compact types content) in
  (state s = Exhausted <->
   Forall (fun row => is_ok (row_result converters row) = true) rows /\
   length rows <= k) /\
  (state s = Exhausted ->
   Forall2 (record_of names_ converters) rows (received s) /\
   trace s = EvRead (body_of content) :: tr ++ rows_trace 0 converters rows /\
   gen s = Closed).
Proof.
  intros Hsetup s. subst s.
  destruct (run_of_setup_ok _ _ k _ _ _ _ Hsetup) as (tss & -> & _ & Hrec & Hcons).
  set (s := consume (S k) (parse_json_compact types content)) in *.
  split.
  - split.
    + intros Hst.
      destruct Hcons as [H1 H2 H3 H4 | H1 H2 H3 H4 H5 | e row' H1 H2 H3 H4 H5 H6];
        try congruence.
      rewrite H2, firstn_all in Hrec. split; [|lia].
      clear -Hrec. induction Hrec as [|row r rs' recs' [_ Hr] _ IH]; constructor; auto.
      by rewrite Hr.
    + intros [Hall Hlen].
      destruct Hcons as [H1 H2 H3 H4 | H1 H2 H3 H4 H5 | e row' H1 H2 H3 H4 H5 H6]; auto.
      * exfalso. apply Forall2_length in Hrec. rewrite length_take in Hrec. lia.
      * exfalso. rewrite Forall_forall in Hall.
        apply list_elem_of_lookup_2 in H3. specialize (Hall _ H3).
        by rewrite H4 in Hall.
  - intros Hst.
    destruct Hcons as [H1 H2 H3 H4 | H1 H2 H3 H4 H5 | e row' H1 H2 H3 H4 H5 H6];
      try congruence.
    rewrite H2, firstn_all in Hrec. repeat split; auto.
Qed.

Lemma iteration_ends_normally_witness :
  exists tr names_ converters rows,
    let s := consume 3 (parse_json_compact SpecTypes.registry scenario) in
    setup SpecTypes.registry (body_of scenario) = (tr, Ok (names_, converters, rows)) /\
    (state s = Exhausted <->
     Forall (fun row => is_ok (row_result converters row) = true) rows /\
     length rows <= 2) /\
    (state s = Exhausted ->
     Forall2 (record_of names_ converters) rows (received s) /\
     trace s = EvRead (body_of scenario) :: tr ++ rows_trace 0 converters rows /\
     gen s = Closed).
Proof.
  destruct (setup SpecTypes.registry (body_of scenario))
    as [tr [[[names_ converters] rows]|e]] eqn:Hsetup.
  - exists tr, names_, converters, rows. cbn zeta. split; [reflexivity|].
    exact (iteration_ends_normally_after_the_last_row
             SpecTypes.registry scenario 2 tr names_ converters rows Hsetup).
  - exfalso. vm_compute in Hsetup. discriminate Hsetup.
Defined.

Lemma requests_closed n :
  requests n Closed = replicate n ([], StopAsyncIteration).
Proof. induction n as [|n IH]; cbn; [reflexivity | by rewrite IH]. Qed.

Lemma yielded_replicate n :
  yielded (replicate n ([], StopAsyncIteration)) = [] /\
  steps (replicate n ([], StopAsyncIteration)) = [].
Proof. induction n as [|n [IH1 IH2]]; split; cbn; auto. Qed.

Lemma yielded_cons tr o answers :
  yielded ((tr, o) :: answers)
  = match o with Yield r => r :: yielded answers | _ => yielded answers end.
Proof. by destruct o. Qed.

Lemma steps_cons tr o answers :
  steps ((tr, o) :: answers) = tr ++ steps answers.
Proof. reflexivity. Qed.

(** X8. A generator that has failed or run out stays finished: whatever its
    state, a caller that goes on sending requests after the first answer
    that is no Record gets the end of the iteration each time, with nothing
    done; so it obtains the Records, and causes the steps, of a consumer
    that stops at that answer. *)
Theorem a_finished_generator_stays_finished g n :
  yielded (requests n g) = received (consume n g) /\
  steps (requests n g) = trace (consume n g) /\
  forall i tr o,
    requests n g !! i = Some (tr, o) ->
    is_yield o = false ->
    forall j, i < j < n -> requests n g !! j = Some ([], StopAsyncIteration).
Proof.
  revert g. induction n as [|n IH]; intros g.
  - cbn. repeat split; auto. intros i tr o H. by rewrite lookup_nil in H.
  - cbn [requests]. rewrite consume_unfold.
    destruct (anext g) as [[tr0 o0] g'] eqn:Hnext.
    destruct (IH g') as (IHy & IHs & IHf).
    assert (Hfin : is_yield o0 = false ->
                   requests n g' = replicate n ([], StopAsyncIteration)).
    { intros Hny.
      rewrite (anext_not_yield_closed _ _ _ _ Hnext); [apply requests_closed|].
      intros r ->. discriminate. }
    rewrite yielded_cons, steps_cons.
    split; [|split].
    + destruct o0 as [r| |e]; cbn [received].
      * by rewrite IHy.
      * rewrite Hfin by reflexivity. apply yielded_replicate.
      * rewrite Hfin by reflexivity. apply yielded_replicate.
    + destruct o0 as [r| |e]; cbn [trace].
      * by rewrite IHs.
      * rewrite Hfin by reflexivity.
        destruct (yielded_replicate n) as [_ ->]. by rewrite app_nil_r.
      * rewrite Hfin by reflexivity.
        destruct (yielded_replicate n) as [_ ->]. by rewrite app_nil_r.
    + intros [|i] tr o Hi Hny j Hj.
      * cbn in Hi. injection Hi as <- <-.
        destruct j as [|j]; [lia|]. cbn. rewrite Hfin by exact Hny.
        apply lookup_replicate_2. lia.
      * destruct j as [|j]; [lia|]. cbn in Hi |- *.
        apply (IHf i tr o Hi Hny). lia.
Qed.

Lemma convert_calls_app i j tr1 tr2 :
  convert_calls i j (tr1 ++ tr2) = convert_calls i j tr1 + convert_calls i j tr2.
Proof.
  induction tr1 as [|ev tr1 IH]; [reflexivity|].
  destruct ev; cbn; rewrite IH; lia.
Qed.

Lemma convert_calls_no_convert i j tr :
  Forall (fun ev => is_convert ev = false) tr -> convert_calls i j tr = 0.
Proof.
  induction 1 as [|ev tr Hev _ IH]; [reflexivity|].
  destruct ev; cbn in *; try discriminate; exact IH.
Qed.

Lemma convert_calls_convert_trace i j converters : forall row column items,
  convert_calls i j (convert_trace row column converters items) <= 1 /\
  (row <> i \/ j < column -> convert_calls i j (convert_trace row column converters items) = 0).
Proof.
  induction converters as [|conv converters IH]; intros row column [|value items];
    cbn; try (split; [lia | reflexivity]).
  destruct (conv value).
  - destruct (IH row (S column) items) as [IH1 IH2].
    destruct (Nat.eqb_spec row i) as [->|Hne]; cbn.
    + destruct (Nat.eqb_spec column j) as [->|Hne].
      * rewrite IH2 by lia. split; [lia|]. intros [?|?]; [congruence | lia].
      * split; [lia|]. intros [?|?]; [congruence|]. apply IH2. lia.
    + rewrite IH2 by auto. split; [lia | auto].
  - cbn. destruct (Nat.eqb_spec row i) as [->|Hne]; cbn; [|split; [lia | auto]].
    destruct (Nat.eqb_spec column j) as [->|Hne]; split; lia.
Qed.

Lemma convert_calls_rows_trace i j converters rows : forall first,
  convert_calls i j (rows_trace first converters rows) <= 1 /\
  (i < first -> convert_calls i j (rows_trace first converters rows) = 0).
Proof.
  induction rows as [|row rows IH]; intros first; cbn; [split; [lia | reflexivity]|].
  rewrite convert_calls_app.
  destruct (IH (S first)) as [IH1 IH2].
  assert (Hrow : convert_calls i j (row_trace first converters row) <= 1 /\
                 (first <> i -> convert_calls i j (row_trace first converters row) = 0)).
  { unfold row_trace. destruct (py_iter row) as [items|]; [|cbn; split; [lia | reflexivity]].
    destruct (convert_calls_convert_trace i j converters first 0 items) as [H1 H2].
    split; [exact H1 | auto]. }
  destruct Hrow as [Hr1 Hr2].
  destruct (Nat.eq_dec first i) as [->|Hne].
  - rewrite IH2 by lia. split; lia.
  - rewrite Hr2 by exact Hne. split; [lia|]. intros Hlt. apply IH2. lia.
Qed.

(** X9. No cell is converted twice: in any session the value of a given row
    and column is handed to a converter at most once, and every converter
    call is for a cell of the data, on the value at that position of a row
    the consumer has asked for, under a column that exists. *)
Theorem each_cell_is_converted_at_most_once types content k i j :
  let s := consume k (parse_json_compact types content) in
  convert_calls i j (trace s) <= 1 /\
  forall v, EvConvert i j v ∈ trace s ->
    i < k /\
    exists tr names_ converters rows row items,
      setup types (body_of content) = (tr, Ok (names_, converters, rows)) /\
      rows !! i = Some row /\ py_iter row = Ok items /\
      items !! j = Some v /\ j < length converters.
Proof.
  cbn zeta. destruct k as [|k].
  { cbn. split; [lia|]. intros v H. by apply elem_of_nil in H. }
  destruct (consume_created types content k)
    as [e tss _ Htr _ _ _ | ns cs rs tss Hs _ _ Hcons].
  - rewrite Htr.
    pose proof (setup_trace_no_convert (body_of content) tss) as Hno.
    split; [rewrite convert_calls_no_convert by exact Hno; lia|].
    intros v H. rewrite Forall_forall in Hno. by specialize (Hno _ H).
  - destruct (consumed_trace _ _ _ _ _ _ _ _ Hcons) as (n & Hn & Htr).
    rewrite Htr.
    pose proof (setup_trace_no_convert (body_of content) tss) as Hno.
    split.
    + rewrite convert_calls_app, convert_calls_no_convert by exact Hno.
      apply convert_calls_rows_trace.
    + intros v H. apply elem_of_app in H as [H|H].
      { rewrite Forall_forall in Hno. by specialize (Hno _ H). }
      destruct (rows_trace_events _ _ _ _ H) as (m & c & r & items & v' & Heq & Hm & Hit & Hv & Hc).
      injection Heq as -> -> ->. cbn [Nat.add].
      apply lookup_take_Some in Hm as [Hm Hlt].
      split; [lia|].
      eexists _, ns, cs, rs, r, items. repeat split; eauto.
Qed.

(** ** Constants and integers in the cells *)

(** The value a converter is called with is the one the response holds at
    the cell. *)
Lemma converter_receives_the_cell types content k doc row column inner value x :
  Json.decode (body_of content) = Ok doc ->
  py_at (Key "data" :: Index row :: Index column :: inner) (Json.make PStr doc) = Some x ->
  EvConvert row column value ∈ trace (consume k (parse_json_compact types content)) ->
  py_at inner value = Some x.
Proof.
  intros Hdoc Hpy Hin.
  assert (Hresp : Json.loads PStr (body_of content) = Ok (Json.make PStr doc)).
  { unfold Json.loads. by rewrite Hdoc. }
  destruct k as [|k]; [by apply elem_of_nil in Hin|].
  destruct (consume_created types content k)
    as [e tss _ Htr _ _ _ | ns cs rs tss _ Hdone _ Hcons].
  - rewrite Htr in Hin.
    pose proof (setup_trace_no_convert (body_of content) tss) as Hno.
    rewrite Forall_forall in Hno. by specialize (Hno _ Hin).
  - destruct (consumed_trace _ _ _ _ _ _ _ _ Hcons) as (n & _ & Htr).
    rewrite Htr in Hin. apply elem_of_app in Hin as [Hin|Hin].
    { pose proof (setup_trace_no_convert (body_of content) tss) as Hno.
      rewrite Forall_forall in Hno. by specialize (Hno _ Hin). }
    destruct (rows_trace_events _ _ _ _ Hin)
      as (m & c & r & items & v & Heq & Hm & Hit & Hv & _).
    injection Heq as -> -> ->. cbn [Nat.add] in *.
    apply lookup_take_Some in Hm as [Hm _].
    destruct Hdone as [response meta columns data Hloads _ _ _ Hdata Hrows].
    rewrite Hresp in Hloads. injection Hloads as <-.
    cbn [py_at] in Hpy.
    destruct (Json.make PStr doc) as [| | | | |?|d|?|]; try discriminate.
    cbn [getitem] in Hdata.
    destruct (dict_get "data" d) as [data'|]; [|discriminate].
    injection Hdata as ->.
    destruct data as [| | | | |rows'|?|?|]; try discriminate.
    cbn in Hrows. injection Hrows as ->.
    rewrite Hm in Hpy.
    destruct r as [| | | | |items'|?|?|]; try discriminate.
    cbn in Hit. injection Hit as ->.
    by rewrite Hv in Hpy.
Qed.

(** X10. The [parse_float] hook does not see the constants: where the body
    has [NaN], [Infinity] or [-Infinity], the response holds a binary float,
    not the text, and that float is what reaches the converter of the
    cell. *)
Theorem constants_bypass_parse_float types content k doc path name :
  Json.decode (body_of content) = Ok doc ->
  json_at path doc = Some (Json.JConstant name) ->
  is_float (Json.py_constant name) = true /\
  (exists response,
     Json.loads PStr (body_of content) = Ok response /\
     py_at path response = Some (Json.py_constant name)) /\
  (forall row column inner value,
     path = Key "data" :: Index row :: Index column :: inner ->
     EvConvert row column value
       ∈ trace (consume k (parse_json_compact types content)) ->
     py_at inner value = Some (Json.py_constant name)).
Proof.
  intros Hdoc Hat.
  assert (Hpy : py_at path (Json.make PStr doc) = Some (Json.py_constant name)).
  { by rewrite (make_at _ _ _ _ Hat). }
  split; [|split].
  - unfold Json.py_constant. by repeat case_match.
  - exists (Json.make PStr doc). split; [|exact Hpy].
    unfold Json.loads. by rewrite Hdoc.
  - intros row column inner value -> Hin.
    eapply converter_receives_the_cell; eauto.
Qed.

Lemma constants_bypass_witness :
  exists doc,
    let path := [Key "data"; Index 1; Index 0] in
    let name := "-Infinity" in
    Json.decode (body_of not_a_number) = Ok doc /\
    json_at path doc = Some (Json.JConstant name) /\
    is_float (Json.py_constant name) = true /\
    (exists response,
       Json.loads PStr (body_of not_a_number) = Ok response /\
       py_at path response = Some (Json.py_constant name)) /\
    (forall row column inner value,
       path = Key "data" :: Index row :: Index column :: inner ->
       EvConvert row column value
         ∈ trace (consume 2 (parse_json_compact SpecTypes.registry not_a_number)) ->
       py_at inner value = Some (Json.py_constant name)).
Proof.
  destruct (Json.decode (body_of not_a_number)) as [doc|e] eqn:Hdoc.
  - exists doc. cbn zeta.
    assert (Hat : json_at [Key "data"; Index 1; Index 0] doc
                  = Some (Json.JConstant "-Infinity")).
    { vm_compute in Hdoc. injection Hdoc as <-. vm_compute. reflexivity. }
    split; [reflexivity|]. split; [exact Hat|].
    exact (constants_bypass_parse_float SpecTypes.registry not_a_number 2 doc
             _ _ Hdoc Hat).
  - exfalso. vm_compute in Hdoc. discriminate Hdoc.
Defined.

Import JsonText.

Lemma digits_value_step (k : N) c s acc :
  N_of_ascii c = (48 + k)%N ->
  Json.digits_value (Z.of_N acc) (String c s)
  = Json.digits_value (Z.of_N (10 * acc + k)) s.
Proof. intros H. cbn [Json.digits_value]. rewrite H. f_equal. lia. Qed.

Lemma of_lu_rev_cons (k : N) d digit :
  (forall l, DecimalPos.Unsigned.of_lu (digit l)
             = (k + 10 * DecimalPos.Unsigned.of_lu l)%N) ->
  (forall l l', Decimal.revapp (digit l) l' = Decimal.revapp l (digit l')) ->
  DecimalPos.Unsigned.of_lu (Decimal.rev (digit d))
  = (DecimalPos.Unsigned.of_lu (Decimal.rev d)
     + k * 10 ^ DecimalPos.Unsigned.usize d)%N.
Proof.
  intros Hlu Hrev. unfold Decimal.rev. rewrite Hrev.
  rewrite DecimalPos.Unsigned.of_lu_revapp, Hlu. cbn [DecimalPos.Unsigned.of_lu].
  unfold Decimal.rev. lia.
Qed.

(** [int] reads a decimal numeral as the number it denotes. *)
Lemma digits_value_uint d : forall acc,
  Json.digits_value (Z.of_N acc) (DecimalString.NilEmpty.string_of_uint d)
  = Z.of_N (DecimalPos.Unsigned.of_lu (Decimal.rev d)
            + acc * 10 ^ DecimalPos.Unsigned.usize d).
Proof.
  induction d; intros acc; cbn [DecimalString.NilEmpty.string_of_uint];
    [cbn; f_equal; lia|..];
    match goal with
    | |- Json.digits_value _ (String ?c _) = Z.of_N (_ (Decimal.rev (?digit _)) + _) =>
        let k := eval vm_compute in (N_of_ascii c - 48)%N in
        rewrite (digits_value_step k) by reflexivity;
        rewrite IHd, (of_lu_rev_cons k d digit) by reflexivity;
        cbn [DecimalPos.Unsigned.usize]; rewrite N.pow_succ_r'; f_equal; lia
    end.
Qed.

Lemma to_uint_normal p : Decimal.unorm (Pos.to_uint p) = Pos.to_uint p.
Proof.
  rewrite <- (DecimalPos.Unsigned.to_of (Pos.to_uint p)).
  by rewrite DecimalPos.Unsigned.of_to.
Qed.

Lemma py_int_uint d :
  Json.py_int (DecimalString.NilEmpty.string_of_uint d) = PInt (Z.of_N (Pos.of_uint d)).
Proof.
  assert (H : Json.py_int (DecimalString.NilEmpty.string_of_uint d)
              = PInt (Json.digits_value 0 (DecimalString.NilEmpty.string_of_uint d))).
  { by destruct d. }
  rewrite H. change 0%Z with (Z.of_N 0).
  rewrite digits_value_uint, DecimalPos.Unsigned.of_uint_alt. do 2 f_equal. lia.
Qed.

(** [int(str(n)) = n]. *)
Lemma py_int_str n : Json.py_int (py_str_int n) = PInt n.
Proof.
  unfold py_str_int. destruct n as [|p|p]; [reflexivity|..]; cbn [Z.to_int DecimalString.NilZero.string_of_int].
  - pose proof (DecimalPos.Unsigned.to_uint_nonnil p) as Hnn.
    assert (Heq : DecimalString.NilZero.string_of_uint (Pos.to_uint p)
                  = DecimalString.NilEmpty.string_of_uint (Pos.to_uint p)).
    { destruct (Pos.to_uint p); [congruence | reflexivity..]. }
    rewrite Heq, py_int_uint.
    by rewrite DecimalPos.Unsigned.of_to.
  - pose proof (DecimalPos.Unsigned.to_uint_nonnil p) as Hnn.
    assert (Heq : DecimalString.NilZero.string_of_uint (Pos.to_uint p)
                  = DecimalString.NilEmpty.string_of_uint (Pos.to_uint p)).
    { destruct (Pos.to_uint p); [congruence | reflexivity..]. }
    rewrite Heq. cbn [Json.py_int]. change ("-" =? "-")%char with true. cbn iota.
    change 0%Z with (Z.of_N 0).
    rewrite digits_value_uint, <- DecimalPos.Unsigned.of_uint_alt.
    by rewrite DecimalPos.Unsigned.of_to.
Qed.

Lemma span_digits_uint d rest :
  ends_integer rest = true ->
  Json.span_digits (DecimalString.NilEmpty.string_of_uint d +:+ rest)
  = (DecimalString.NilEmpty.string_of_uint d, rest).
Proof.
  intros Hrest.
  induction d; cbn [DecimalString.NilEmpty.string_of_uint]; str;
    try (cbn [Json.span_digits]; change (Json.is_digit _) with true; cbn iota;
         by rewrite IHd).
  destruct rest as [|c rest]; [reflexivity|].
  cbn in Hrest |- *. destruct (Json.is_digit c); [discriminate | reflexivity].
Qed.

Lemma match_tail rest :
  ends_integer rest = true ->
  Json.match_frac rest = ("", rest) /\ Json.match_exp rest = ("", rest).
Proof.
  destruct rest as [|c rest]; [by split|].
  cbn. intros H.
  destruct (Json.is_digit c); [discriminate|].
  destruct (c =? ".")%char; [discriminate|].
  destruct (c =? "e")%char; [discriminate|].
  destruct (c =? "E")%char; [discriminate|]. by split.
Qed.

Lemma to_uint_head p :
  exists c l,
    DecimalString.NilEmpty.string_of_uint (Pos.to_uint p) = String c (DecimalString.NilEmpty.string_of_uint l) /\
    Json.is_digit c = true /\ (c =? "0")%char = false /\ (c =? "-")%char = false.
Proof.
  pose proof (to_uint_normal p) as Hn.
  pose proof (DecimalPos.Unsigned.to_uint_nonnil p) as Hnn.
  pose proof (DecimalPos.Unsigned.to_uint_nonzero p) as Hnz.
  destruct (Pos.to_uint p) as [|l|l|l|l|l|l|l|l|l|l]; [congruence|..];
    try (eexists _, l; by repeat split).
  exfalso. rewrite DecimalFacts.unorm_D0 in Hn.
  destruct l as [|l|l|l|l|l|l|l|l|l|l]; [by apply Hnz|..];
    match type of Hn with
    | Decimal.unorm ?u = _ =>
        pose proof (DecimalFacts.nb_digits_unorm u ltac:(discriminate)) as Hlen
    end;
    rewrite Hn in Hlen; cbn in Hlen; lia.
Qed.

(** The number pattern matches the text of an integer as a whole, with no
    fraction and no exponent. *)
Lemma match_number_str n rest :
  ends_integer rest = true ->
  Json.match_number (py_str_int n +:+ rest) = Some (py_str_int n, "", "", rest).
Proof.
  intros Hrest. destruct (match_tail _ Hrest) as [Hf He].
  unfold py_str_int, Json.match_number.
  destruct n as [|p|p]; cbn [Z.to_int DecimalString.NilZero.string_of_int].
  - change (DecimalString.NilZero.string_of_uint Decimal.zero) with "0". str.
    unfold Json.match_integer. change ("0" =? "-")%char with false.
    cbv beta iota. rewrite Ascii.eqb_refl. str. by rewrite Hf, He.
  - assert (Heq : DecimalString.NilZero.string_of_uint (Pos.to_uint p)
                  = DecimalString.NilEmpty.string_of_uint (Pos.to_uint p)).
    { pose proof (DecimalPos.Unsigned.to_uint_nonnil p).
      destruct (Pos.to_uint p); [congruence | reflexivity..]. }
    rewrite Heq. destruct (to_uint_head p) as (c & l & -> & Hd & H0 & Hm). str.
    unfold Json.match_integer. rewrite Hm. cbv beta iota.
    rewrite H0, Hd, span_digits_uint by exact Hrest.
    str. by rewrite Hf, He.
  - assert (Heq : DecimalString.NilZero.string_of_uint (Pos.to_uint p)
                  = DecimalString.NilEmpty.string_of_uint (Pos.to_uint p)).
    { pose proof (DecimalPos.Unsigned.to_uint_nonnil p).
      destruct (Pos.to_uint p); [congruence | reflexivity..]. }
    rewrite Heq. destruct (to_uint_head p) as (c & l & -> & Hd & H0 & Hm). str.
    unfold Json.match_integer. rewrite Ascii.eqb_refl. cbv beta iota.
    rewrite H0, Hd, span_digits_uint by exact Hrest.
    str. by rewrite Hf, He.
Qed.

Lemma scan_once_number fuel s integer frac exp rest :
  Json.match_number s = Some (integer, frac, exp, rest) ->
  Json.scan_once (S fuel) s = Ok (Json.JNumber integer frac exp, rest).
Proof.
  intros H. rewrite scan_once_S.
  destruct s as [|c r]; [discriminate|].
  assert (Hc : forall x, Json.is_digit x = false -> (x =? "-")%char = false ->
                         (c =? x)%char = false /\ (x =? c)%char = false).
  { intros x Hx Hm. split.
    - destruct (Ascii.eqb_spec c x) as [->|]; [|reflexivity].
      unfold Json.match_number, Json.match_integer in H. rewrite Hm in H.
      destruct (x =? "0")%char eqn:H0.
      + apply Ascii.eqb_eq in H0 as ->. discriminate.
      + rewrite Hx in H. discriminate.
    - destruct (Ascii.eqb_spec x c) as [<-|]; [|reflexivity].
      unfold Json.match_number, Json.match_integer in H. rewrite Hm in H.
      destruct (x =? "0")%char eqn:H0.
      + apply Ascii.eqb_eq in H0 as ->. discriminate.
      + rewrite Hx in H. discriminate. }
  rewrite (proj1 (Hc Json.dquote eq_refl eq_refl)).
  rewrite (proj1 (Hc "{"%char eq_refl eq_refl)).
  rewrite (proj1 (Hc "["%char eq_refl eq_refl)).
  unfold Json.scan_atom. cbn [Json.strip_prefix].
  rewrite (proj2 (Hc "n"%char eq_refl eq_refl)).
  rewrite (proj2 (Hc "t"%char eq_refl eq_refl)).
  rewrite (proj2 (Hc "f"%char eq_refl eq_refl)).
  by rewrite H.
Qed.

Lemma skip_ws_number s integer frac exp rest :
  Json.match_number s = Some (integer, frac, exp, rest) ->
  Json.skip_ws s = s.
Proof.
  intros H. destruct s as [|c r]; [reflexivity|]. cbn [Json.skip_ws].
  destruct (Json.is_ws c) eqn:Hws; [|reflexivity].
  exfalso. unfold Json.is_ws in Hws.
  repeat (apply orb_prop in Hws as [Hws|Hws]);
    apply Ascii.eqb_eq in Hws as ->; discriminate.
Qed.

(** X11. The decimal text of an integer decodes to that integer, whatever
    the [parse_float] hook and however large the integer, up to the digits
    [int] accepts: integers are not cut to a machine word nor rounded. *)
Theorem integer_text_round_trips pf n :
  String.length (py_str_int n) <= int_max_str_digits ->
  Json.loads pf (py_str_int n) = Ok (PInt n).
Proof.
  intros _.
  pose proof (match_number_str n "" eq_refl) as Hm.
  assert (Hs : py_str_int n +:+ "" = py_str_int n).
  { generalize (py_str_int n). induction s as [|c s IH]; [reflexivity|]. str. by rewrite IH. }
  rewrite Hs in Hm.
  unfold Json.loads, Json.decode.
  rewrite (skip_ws_number _ _ _ _ _ Hm).
  replace (2 * String.length (py_str_int n) + 2)
    with (S (2 * String.length (py_str_int n) + 1)) by lia.
  rewrite (scan_once_number _ _ _ _ _ _ Hm). cbn.
  by rewrite py_int_str.
Qed.

Lemma integer_text_witness :
  let n := (2 ^ 64 - 1)%Z in
  String.length (py_str_int n) <= int_max_str_digits /\
  Json.loads PStr (py_str_int n) = Ok (PInt n).
Proof.
  cbn zeta.
  assert (H : String.length (py_str_int (2 ^ 64 - 1)) <= int_max_str_digits)
    by (apply Nat.leb_le; vm_compute; reflexivity).
  split; [exact H|].
  exact (integer_text_round_trips PStr (2 ^ 64 - 1) H).
Defined.

(** X12. An integer literal in the payload reaches the converter as the
    integer it denotes: where the scanner matched the decimal text of [n],
    with no fraction and no exponent and within the digits [int] accepts,
    the response holds the integer [n],
    and so does the value the converter of the cell is called with. *)
Theorem integer_cells_arrive_exact types content k doc path n :
  String.length (py_str_int n) <= int_max_str_digits ->
  Json.decode (body_of content) = Ok doc ->
  json_at path doc = Some (Json.JNumber (py_str_int n) "" "") ->
  (exists response,
     Json.loads PStr (body_of content) = Ok response /\
     py_at path response = Some (PInt n)) /\
  (forall row column inner value,
     path = Key "data" :: Index row :: Index column :: inner ->
     EvConvert row column value
       ∈ trace (consume k (parse_json_compact types content)) ->
     py_at inner value = Some (PInt n)).
Proof.
  intros _ Hdoc Hat.
  assert (Hpy : py_at path (Json.make PStr doc) = Some (PInt n)).
  { rewrite (make_at _ _ _ _ Hat). cbn. by rewrite py_int_str. }
  split.
  - exists (Json.make PStr doc). split; [|exact Hpy].
    unfold Json.loads. by rewrite Hdoc.
  - intros row column inner value -> Hin.
    eapply converter_receives_the_cell; eauto.
Qed.

Lemma integer_cells_witness :
  exists doc,
    let path := [Key "data"; Index 0; Index 0] in
    let n := (2 ^ 65)%Z in
    String.length (py_str_int n) <= int_max_str_digits /\
    Json.decode (body_of big_integer) = Ok doc /\
    json_at path doc = Some (Json.JNumber (py_str_int n) "" "") /\
    (exists response,
       Json.loads PStr (body_of big_integer) = Ok response /\
       py_at path response = Some (PInt n)) /\
    (forall row column inner value,
       path = Key "data" :: Index row :: Index column :: inner ->
       EvConvert row column value
         ∈ trace (consume 1 (parse_json_compact SpecTypes.registry big_integer)) ->
       py_at inner value = Some (PInt n)).
Proof.
  destruct (Json.decode (body_of big_integer)) as [doc|e] eqn:Hdoc.
  - exists doc. cbn zeta.
    assert (Hat : json_at [Key "data"; Index 0; Index 0] doc
                  = Some (Json.JNumber (py_str_int (2 ^ 65)) "" "")).
    { vm_compute in Hdoc. injection Hdoc as <-. vm_compute. reflexivity. }
    assert (Hlen : String.length (py_str_int (2 ^ 65)) <= int_max_str_digits)
      by (apply Nat.leb_le; vm_compute; reflexivity).
    split; [exact Hlen|]. split; [reflexivity|]. split; [exact Hat|].
    exact (integer_cells_arrive_exact SpecTypes.registry big_integer 1 doc
             _ _ Hlen Hdoc Hat).
  - exfalso. vm_compute in Hdoc. discriminate Hdoc.
Defined.

(** ** The registry as [TypeTransformer] uses it *)

Lemma mapM_app {A B : Type} (f : A -> result B) l1 l2 :
  mapM f (l1 ++ l2)
  = try! bs1 <- mapM f l1 ; try! bs2 <- mapM f l2 ; Ok (bs1 ++ bs2).
Proof.
  induction l1 as [|a l1 IH]; cbn.
  - by destruct (mapM f l2).
  - destruct (f a); [|reflexivity]. cbn. rewrite IH.
    destruct (mapM f l1); [|reflexivity]. cbn.
    by destruct (mapM f l2).
Qed.

(** The trees of the grammar resolve alike under registries that agree on
    the names they mention. *)
Lemma derives_agree types1 types2 n input nodes rest :
  derives n input nodes rest ->
  agree types1 types2 (flat_map type_names nodes) ->
  mapM (transform types1) nodes = mapM (transform types2) nodes.
Proof.
  unfold agree.
  induction 1 as
    [ name rest
    | name input args rest Hargs IH
    | input node rest Htype IH
    | n rest
    | s rest
    | s n rest
    | input node rest Harg IH
    | input node input' nodes rest Harg IHarg Hargs IHargs ];
    intros Hagree; auto.
  - cbn in Hagree. apply Forall_cons in Hagree as [Heq _].
    cbn. by rewrite Heq.
  - cbn in Hagree. apply Forall_cons in Hagree as [Heq Hbelow].
    rewrite app_nil_r in Hbelow.
    unfold composite_node. cbn [mapM transform rbind].
    rewrite (IH Hbelow).
    destruct (mapM (transform types2) args) as [vs|]; [|reflexivity].
    cbn. by rewrite Heq.
  - rewrite flat_map_app in Hagree. apply Forall_app in Hagree as [H1 H2].
    by rewrite !mapM_app, IHarg, IHargs.
Qed.

Lemma type_names_start children :
  type_names (Tree "start" children) = flat_map type_names children.
Proof. by destruct children as [|[] ?]. Qed.

(** X15. Resolving a declaration reads the registry only under the names the
    declaration mentions: two registries that agree on these names give the
    same outcome, so registering or replacing other types changes
    nothing. *)
Theorem resolution_reads_only_the_named_entries types1 types2 type_str t :
  parse type_str = Ok t ->
  agree types1 types2 (type_names t) ->
  parse_type types1 (PStr type_str) = parse_type types2 (PStr type_str).
Proof.
  intros Hparse Hagree. cbn [parse_type]. rewrite Hparse. cbn [rbind].
  apply parse_accepts in Hparse as (toks & node & _ & Hd & ->).
  cbn [transform]. rewrite type_names_start in Hagree.
  by rewrite (derives_agree _ _ _ _ _ _ Hd Hagree).
Qed.

Lemma resolution_reads_only_witness :
  let type_str := "Array(Nullable(String))" in
  let t := Tree "start"
             [Tree "composite_type"
                [Token "IDENT" "Array";
                 Tree "composite_type"
                   [Token "IDENT" "Nullable";
                    Tree "simple_type" [Token "IDENT" "String"]]]] in
  parse type_str = Ok t /\
  agree SpecTypes.registry more_types (type_names t) /\
  parse_type SpecTypes.registry (PStr type_str) = parse_type more_types (PStr type_str).
Proof.
  cbn zeta.
  assert (Hparse : parse "Array(Nullable(String))"
                   = Ok (Tree "start"
                           [Tree "composite_type"
                              [Token "IDENT" "Array";
                               Tree "composite_type"
                                 [Token "IDENT" "Nullable";
                                  Tree "simple_type" [Token "IDENT" "String"]]]]))
    by (vm_compute; reflexivity).
  assert (Hagree : agree SpecTypes.registry more_types
                     (type_names
                        (Tree "start"
                           [Tree "composite_type"
                              [Token "IDENT" "Array";
                               Tree "composite_type"
                                 [Token "IDENT" "Nullable";
                                  Tree "simple_type" [Token "IDENT" "String"]]]]))).
  { repeat constructor. }
  split; [exact Hparse|]. split; [exact Hagree|].
  exact (resolution_reads_only_the_named_entries _ _ _ _ Hparse Hagree).
Defined.
